(** * picoclaw: the SQLite session store and the legacy JSON importer

    A shallow embedding of [pkg/memory/sqlite.go] and
    [pkg/memory/migration.go].  The database is a pair of tables held as
    lists of rows, every SQL statement of the source is a function on that
    state, and the Go functions are written in a small state-and-error monad
    whose world carries the database, the open transaction, the outcome of
    the successive calls into the engine, the clock and the sessions
    directory. *)

From stdpp Require Import base list sorting strings.
From Stdlib Require Import ZArith Lia Ascii.

Local Open Scope string_scope.
Local Open Scope list_scope.

(** ** Errors and results *)

Inductive error : Type :=
| ErrEngine                       (* database/sql reports a failed call *)
| ErrConstraint                   (* UNIQUE or FOREIGN KEY violated *)
| ErrTxDone                       (* sql.ErrTxDone *)
| ErrNoRows                       (* sql.ErrNoRows *)
| ErrJSON                         (* encoding/json *)
| ErrNotExist                     (* os.ErrNotExist *)
| ErrIO                           (* any other file system error *)
| ErrWrap (context : string) (cause : error).   (* fmt.Errorf("...: %w", err) *)

Inductive result (A : Type) : Type :=
| Ok (a : A)
| Err (e : error).
Arguments Ok {A} a.
Arguments Err {A} e.

Definition is_ok {A} (r : result A) : bool :=
  match r with Ok _ => true | Err _ => false end.

(** A Go slice: [nil] is distinguished from an allocated slice of length 0. *)
Inductive slice (A : Type) : Type :=
| slice_nil
| slice_of (elems : list A).
Arguments slice_nil {A}.
Arguments slice_of {A} elems.

Definition slice_append {A} (s : slice A) (x : A) : slice A :=
  match s with
  | slice_nil => slice_of [x]
  | slice_of l => slice_of (l ++ [x])
  end.

Definition slice_is_nil {A} (s : slice A) : bool :=
  match s with slice_nil => true | slice_of _ => false end.

Definition slice_elems {A} (s : slice A) : list A :=
  match s with slice_nil => [] | slice_of l => l end.

(** Go's [int] and SQLite's INTEGER are 64-bit two's complement. *)
Definition wrap_int (z : Z) : Z :=
  ((z + 2 ^ 63) mod 2 ^ 64 - 2 ^ 63)%Z.

Definition max_int : Z := (2 ^ 63 - 1)%Z.

(** Instants are seconds since the epoch; the TEXT columns hold their
    RFC 3339 rendering in UTC, which the seconds determine. *)
Definition Time : Type := Z.

(** ** Messages and the legacy record *)

(** Modelled from the spec: the declaration of [providers.Message] is not
    part of the sources at hand.  The store reads and writes exactly these
    four fields; the record type of a tool call is left as a parameter. *)
Record Message (ToolCall : Type) : Type := mkMessage {
  Role : string;
  Content : string;
  ToolCalls : list ToolCall;
  ToolCallID : string
}.
Arguments mkMessage {ToolCall} _ _ _ _.
Arguments Role {ToolCall} _.
Arguments Content {ToolCall} _.
Arguments ToolCalls {ToolCall} _.
Arguments ToolCallID {ToolCall} _.

(** [jsonSession] of migration.go. *)
Record jsonSession (ToolCall : Type) : Type := mkJsonSession {
  Key : string;
  Messages : list (Message ToolCall);
  Summary : string;
  Created : Time;
  Updated : Time
}.
Arguments mkJsonSession {ToolCall} _ _ _ _ _.
Arguments Key {ToolCall} _.
Arguments Messages {ToolCall} _.
Arguments Summary {ToolCall} _.
Arguments Created {ToolCall} _.
Arguments Updated {ToolCall} _.

(** The three uses the source makes of [encoding/json]. *)
Class JSON (ToolCall : Type) : Type := {
  json_Marshal : list ToolCall → result string;
  json_Unmarshal : string → result (list ToolCall);
  json_Unmarshal_session : string → result (jsonSession ToolCall)
}.

(** ** The two tables *)

Record SessionRow : Type := mkSessionRow {
  s_key : string;
  s_summary : string;
  s_created_at : Time;
  s_updated_at : Time
}.

Record MessageRow : Type := mkMessageRow {
  m_id : Z;
  m_session_key : string;
  m_seq : Z;
  m_role : string;
  m_content : string;
  m_tool_calls_json : option string;
  m_tool_call_id : string;
  m_created_at : Time
}.

(** [next_id] is the AUTOINCREMENT counter of [messages.id]. *)
Record DB : Type := mkDB {
  sessions : list SessionRow;
  messages : list MessageRow;
  next_id : Z
}.

Global Instance SessionRow_eq_dec : EqDecision SessionRow.
Proof. solve_decision. Defined.
Global Instance MessageRow_eq_dec : EqDecision MessageRow.
Proof. solve_decision. Defined.
Global Instance DB_eq_dec : EqDecision DB.
Proof. solve_decision. Defined.

Definition empty_db : DB := mkDB [] [] 1.

(** ** SQL statements *)

Definition seq_le (a b : MessageRow) : Prop := (m_seq a ≤ m_seq b)%Z.
Definition seq_ge (a b : MessageRow) : Prop := (m_seq b ≤ m_seq a)%Z.

Global Instance seq_le_dec : RelDecision seq_le.
Proof. intros a b. unfold seq_le. apply _. Defined.
Global Instance seq_ge_dec : RelDecision seq_ge.
Proof. intros a b. unfold seq_ge. apply _. Defined.

(** [WHERE session_key = ?] *)
Definition messages_of (key : string) (db : DB) : list MessageRow :=
  filter (λ r, m_session_key r = key) (messages db).

(** [SELECT role, content, tool_calls_json, tool_call_id FROM messages
     WHERE session_key = ? ORDER BY seq ASC] *)
Definition select_messages (key : string) (db : DB) : list MessageRow :=
  merge_sort seq_le (messages_of key db).

Definition has_session (key : string) (db : DB) : bool :=
  bool_decide (key ∈ s_key <$> sessions db).

(** [INSERT OR IGNORE INTO sessions (key, summary, created_at, updated_at)
     VALUES (?, ?, ?, ?)] *)
Definition insert_or_ignore_session
    (key summary : string) (created updated : Time) (db : DB) : DB :=
  if has_session key db then db
  else mkDB (sessions db ++ [mkSessionRow key summary created updated])
            (messages db) (next_id db).

(** [UPDATE sessions SET updated_at = ? WHERE key = ?] *)
Definition update_updated_at (now : Time) (key : string) (db : DB) : DB :=
  mkDB ((λ s, if decide (s_key s = key)
              then mkSessionRow (s_key s) (s_summary s) (s_created_at s) now
              else s) <$> sessions db)
       (messages db) (next_id db).

(** [UPDATE sessions SET summary = ?, updated_at = ? WHERE key = ?] *)
Definition update_summary (summary : string) (now : Time) (key : string)
    (db : DB) : DB :=
  mkDB ((λ s, if decide (s_key s = key)
              then mkSessionRow (s_key s) summary (s_created_at s) now
              else s) <$> sessions db)
       (messages db) (next_id db).

(** [SELECT summary FROM sessions WHERE key = ?] *)
Definition select_summary (key : string) (db : DB) : option string :=
  s_summary <$> head (filter (λ s, s_key s = key) (sessions db)).

(** [MAX(seq)] over a set of rows: NULL when there is none. *)
Definition max_seq (rows : list MessageRow) : option Z :=
  foldr (λ r acc, Some (match acc with
                        | None => m_seq r
                        | Some m => Z.max (m_seq r) m
                        end)) None rows.

(** [SELECT MAX(seq) FROM messages WHERE session_key = ?] *)
Definition select_max_seq (key : string) (db : DB) : option Z :=
  max_seq (messages_of key db).

(** [SELECT COUNT( * ) FROM messages WHERE session_key = ?] *)
Definition select_count (key : string) (db : DB) : Z :=
  Z.of_nat (length (messages_of key db)).

(** [INSERT INTO messages (session_key, seq, role, content, tool_calls_json,
     tool_call_id, created_at) VALUES (?, ?, ?, ?, ?, ?, ?)], under
    [PRAGMA foreign_keys=ON] and [UNIQUE(session_key, seq)]. *)
Definition insert_message
    (key : string) (seq : Z) (role content : string)
    (tool_calls_json : option string) (tool_call_id : string) (now : Time)
    (db : DB) : result DB :=
  if negb (has_session key db) then Err ErrConstraint
  else if bool_decide (Exists (λ r, m_session_key r = key ∧ m_seq r = seq)
                              (messages db))
  then Err ErrConstraint
  else Ok (mkDB (sessions db)
                (messages db ++
                   [mkMessageRow (next_id db) key seq role content
                                 tool_calls_json tool_call_id now])
                (next_id db + 1)%Z).

(** [DELETE FROM messages WHERE session_key = ?] *)
Definition delete_messages (key : string) (db : DB) : DB :=
  mkDB (sessions db)
       (filter (λ r, m_session_key r ≠ key) (messages db))
       (next_id db).

(** [SELECT id FROM messages WHERE session_key = ? ORDER BY seq DESC LIMIT ?] *)
Definition select_last_ids (key : string) (limit : Z) (db : DB) : list Z :=
  m_id <$> take (Z.to_nat limit) (merge_sort seq_ge (messages_of key db)).

(** [DELETE FROM messages WHERE session_key = ? AND id NOT IN
     (SELECT id FROM messages WHERE session_key = ? ORDER BY seq DESC LIMIT ?)] *)
Definition delete_messages_except_last (key : string) (limit : Z) (db : DB) : DB :=
  let keep := select_last_ids key limit db in
  mkDB (sessions db)
       (filter (λ r, ¬ (m_session_key r = key ∧ m_id r ∉ keep)) (messages db))
       (next_id db).

(** ** The sessions directory *)

(** [f_data] is [None] for a file that cannot be read; [f_pinned] marks an
    entry that the operating system refuses to rename. *)
Record File : Type := mkFile {
  f_name : string;
  f_is_dir : bool;
  f_data : option string;
  f_pinned : bool
}.

Inductive Dir : Type :=
| DirMissing
| DirDenied
| DirOf (files : list File).

Record DirEntry : Type := mkDirEntry {
  e_name : string;
  e_is_dir : bool
}.

Global Instance File_eq_dec : EqDecision File.
Proof. solve_decision. Defined.
Global Instance DirEntry_eq_dec : EqDecision DirEntry.
Proof. solve_decision. Defined.

Definition name_le (a b : DirEntry) : Prop := String.le (e_name a) (e_name b).
Global Instance name_le_dec : RelDecision name_le.
Proof. intros a b. unfold name_le. apply _. Defined.

Definition find_file (name : string) (files : list File) : option File :=
  head (filter (λ f, f_name f = name) files).

(** [strings.HasSuffix]: some tail of [s] is [suffix]. *)
Fixpoint HasSuffix (s suffix : string) : bool :=
  if String.eqb s suffix then true
  else match s with
       | EmptyString => false
       | String _ s' => HasSuffix s' suffix
       end.

(** ** The world and the monad of the store *)

Record World : Type := mkWorld {
  w_db : DB;                  (* what the single connection sees *)
  w_tx : option DB;           (* open transaction: the state at BEGIN *)
  w_faults : list bool;       (* successive engine calls: [true] fails *)
  w_clock : nat → Time;       (* successive readings of time.Now() *)
  w_ticks : nat;
  w_fs : Dir
}.

Definition set_db (db : DB) (w : World) : World :=
  mkWorld db (w_tx w) (w_faults w) (w_clock w) (w_ticks w) (w_fs w).
Definition set_tx (tx : option DB) (w : World) : World :=
  mkWorld (w_db w) tx (w_faults w) (w_clock w) (w_ticks w) (w_fs w).
Definition set_faults (fs : list bool) (w : World) : World :=
  mkWorld (w_db w) (w_tx w) fs (w_clock w) (w_ticks w) (w_fs w).
Definition set_ticks (n : nat) (w : World) : World :=
  mkWorld (w_db w) (w_tx w) (w_faults w) (w_clock w) n (w_fs w).
Definition set_fs (d : Dir) (w : World) : World :=
  mkWorld (w_db w) (w_tx w) (w_faults w) (w_clock w) (w_ticks w) d.

Definition M (A : Type) : Type := World → result A * World.

Global Instance M_ret : MRet M := λ A a w, (Ok a, w).
Global Instance M_bind : MBind M := λ A B f m w,
  match m w with
  | (Ok a, w') => f a w'
  | (Err e, w') => (Err e, w')
  end.

Definition fail {A} (e : error) : M A := λ w, (Err e, w).

Definition lift {A} (r : result A) : M A := λ w, (r, w).

(** [if err != nil { return fmt.Errorf("ctx: %w", err) }] *)
Definition Errorf {A} (context : string) (m : M A) : M A := λ w,
  match m w with
  | (Ok a, w') => (Ok a, w')
  | (Err e, w') => (Err (ErrWrap context e), w')
  end.

(** Run [m] and hand its outcome to the caller instead of propagating it. *)
Definition attempt {A} (m : M A) : M (result A) := λ w,
  let '(r, w') := m w in (Ok r, w').

(** [defer cleanup]: [cleanup] runs when [body] returns, its result dropped. *)
Definition defer {A} (cleanup : M unit) (body : M A) : M A := λ w,
  let '(r, w1) := body w in
  let '(_, w2) := cleanup w1 in
  (r, w2).

(** One call into the engine: it fails when the oracle says so. *)
Definition engine_call : M unit := λ w,
  match w_faults w with
  | true :: fs => (Err ErrEngine, set_faults fs w)
  | false :: fs => (Ok tt, set_faults fs w)
  | [] => (Ok tt, w)
  end.

Definition time_Now : M Time := λ w,
  (Ok (w_clock w (w_ticks w)), set_ticks (S (w_ticks w)) w).

(** [db.BeginTx]: the connection is the only one, so a transaction that is
    still open makes the call fail. *)
Definition open_tx : M unit := λ w,
  match w_tx w with
  | Some _ => (Err ErrEngine, w)
  | None => (Ok tt, set_tx (Some (w_db w)) w)
  end.

Definition BeginTx : M unit := engine_call ;; open_tx.

(** [tx.Commit]: the transaction is done afterwards whatever the outcome; a
    commit that fails leaves nothing of the transaction behind. *)
Definition Commit : M unit := λ w,
  match w_tx w with
  | None => (Err ErrTxDone, w)
  | Some snapshot =>
      match engine_call w with
      | (Ok _, w') => (Ok tt, set_tx None w')
      | (Err e, w') => (Err e, set_tx None (set_db snapshot w'))
      end
  end.

(** [tx.Rollback] *)
Definition Rollback : M unit := λ w,
  match w_tx w with
  | None => (Err ErrTxDone, w)
  | Some snapshot => (Ok tt, set_tx None (set_db snapshot w))
  end.

(** [tx.ExecContext] with a statement that may violate a constraint. *)
Definition run_stmt (stmt : DB → result DB) : M unit := λ w,
  match stmt (w_db w) with
  | Ok db' => (Ok tt, set_db db' w)
  | Err e => (Err e, w)
  end.

Definition Exec (stmt : DB → result DB) : M unit :=
  engine_call ;; run_stmt stmt.

(** [QueryContext] / [QueryRowContext(...).Scan] *)
Definition read_rows {A} (q : DB → A) : M A := λ w, (Ok (q (w_db w)), w).

Definition Query {A} (q : DB → A) : M A :=
  engine_call ;; read_rows q.

(** [QueryRowContext(...).Scan] on a query that may select no row. *)
Definition QueryRow {A} (q : DB → option A) : M A :=
  row ← Query q;
  match row with
  | Some a => mret a
  | None => fail ErrNoRows
  end.

(** ** The file system calls of the importer *)

Definition IsNotExist (e : error) : bool :=
  match e with ErrNotExist => true | _ => false end.

(** [os.ReadDir]: the entries of the directory, sorted by file name. *)
Definition os_ReadDir : M (list DirEntry) := λ w,
  match w_fs w with
  | DirMissing => (Err ErrNotExist, w)
  | DirDenied => (Err ErrIO, w)
  | DirOf files =>
      (Ok (merge_sort name_le
             ((λ f, mkDirEntry (f_name f) (f_is_dir f)) <$> files)), w)
  end.

(** [os.ReadFile] *)
Definition os_ReadFile (name : string) : M string := λ w,
  match w_fs w with
  | DirOf files =>
      match find_file name files with
      | Some f =>
          if f_is_dir f then (Err ErrIO, w)
          else match f_data f with
               | Some data => (Ok data, w)
               | None => (Err ErrIO, w)
               end
      | None => (Err ErrNotExist, w)
      end
  | _ => (Err ErrNotExist, w)
  end.

(** The directory after [oldname] has taken the place of [newname]. *)
Definition move_file (oldname newname : string) (files : list File) : list File :=
  (λ h, if decide (f_name h = oldname)
        then mkFile newname (f_is_dir h) (f_data h) (f_pinned h)
        else h) <$> filter (λ h, f_name h ≠ newname) files.

(** [os.Rename]: an existing file under the new name is replaced, an
    existing directory under the new name makes the call fail. *)
Definition os_Rename (oldname newname : string) : M unit := λ w,
  match w_fs w with
  | DirOf files =>
      match find_file oldname files with
      | None => (Err ErrNotExist, w)
      | Some f =>
          if f_pinned f then (Err ErrIO, w)
          else if bool_decide (oldname = newname) then (Ok tt, w)
          else match find_file newname files with
               | Some g =>
                   if f_is_dir g then (Err ErrIO, w)
                   else (Ok tt, set_fs (DirOf (move_file oldname newname files)) w)
               | None =>
                   (Ok tt, set_fs (DirOf (move_file oldname newname files)) w)
               end
      end
  | _ => (Err ErrNotExist, w)
  end.

(** ** sqlite.go and migration.go *)

Section Store.
Context {ToolCall : Type} `{!JSON ToolCall}.

Definition ensureSession (sessionKey : string) : M unit :=
  now ← time_Now;
  Exec (λ db, Ok (insert_or_ignore_session sessionKey EmptyString now now db)).

Definition touchSession (sessionKey : string) : M unit :=
  now ← time_Now;
  Exec (λ db, Ok (update_updated_at now sessionKey db)).

Definition nextSeq (sessionKey : string) : M Z :=
  maxSeq ← Query (select_max_seq sessionKey);
  match maxSeq with
  | Some m => mret (wrap_int (m + 1))
  | None => mret 1%Z
  end.

Definition AddFullMessage (sessionKey : string) (msg : Message ToolCall) : M unit :=
  Errorf "memory: begin tx" BeginTx ;;
  defer Rollback (
    Errorf "memory: ensure session" (ensureSession sessionKey) ;;
    seq ← Errorf "memory: next seq" (nextSeq sessionKey);
    toolCallsJSON ←
      (if bool_decide (0 < length (ToolCalls msg))%nat
       then data ← Errorf "memory: marshal tool calls"
                     (lift (json_Marshal (ToolCalls msg)));
            mret (Some data)
       else mret None);
    now ← time_Now;
    Errorf "memory: insert message"
      (Exec (insert_message sessionKey seq (Role msg) (Content msg)
               toolCallsJSON (ToolCallID msg) now)) ;;
    Errorf "memory: touch session" (touchSession sessionKey) ;;
    Commit).

Definition AddMessage (sessionKey role content : string) : M unit :=
  AddFullMessage sessionKey (mkMessage role content [] EmptyString).

(** The [for rows.Next()] loop of [GetHistory]. *)
Fixpoint scan_rows (rows : list MessageRow) (messages : slice (Message ToolCall))
    : M (slice (Message ToolCall)) :=
  match rows with
  | [] => mret messages
  | row :: rest =>
      toolCalls ←
        match m_tool_calls_json row with
        | Some s =>
            if bool_decide (s ≠ EmptyString)
            then Errorf "memory: unmarshal tool calls" (lift (json_Unmarshal s))
            else mret []
        | None => mret []
        end;
      scan_rows rest
        (slice_append messages
           (mkMessage (m_role row) (m_content row) toolCalls
                      (m_tool_call_id row)))
  end.

Definition GetHistory (sessionKey : string) : M (slice (Message ToolCall)) :=
  rows ← Errorf "memory: query messages" (Query (select_messages sessionKey));
  messages ← scan_rows rows slice_nil;
  Errorf "memory: rows iteration" engine_call ;;
  mret (if slice_is_nil messages then slice_of [] else messages).

Definition GetSummary (sessionKey : string) : M string :=
  r ← attempt (QueryRow (select_summary sessionKey));
  match r with
  | Err ErrNoRows => mret EmptyString
  | Err e => fail (ErrWrap "memory: get summary" e)
  | Ok summary => mret summary
  end.

Definition SetSummary (sessionKey summary : string) : M unit :=
  Errorf "memory: begin tx" BeginTx ;;
  defer Rollback (
    Errorf "memory: ensure session" (ensureSession sessionKey) ;;
    now ← time_Now;
    Errorf "memory: set summary"
      (Exec (λ db, Ok (update_summary summary now sessionKey db))) ;;
    Commit).

Definition TruncateHistory (sessionKey : string) (keepLast : Z) : M unit :=
  Errorf "memory: begin tx" BeginTx ;;
  defer Rollback (
    Errorf "memory: truncate history"
      (if bool_decide (keepLast ≤ 0)%Z
       then Exec (λ db, Ok (delete_messages sessionKey db))
       else Exec (λ db, Ok (delete_messages_except_last sessionKey keepLast db))) ;;
    Errorf "memory: touch session" (touchSession sessionKey) ;;
    Commit).

(** The [for i, msg := range history] loop of [SetHistory]; [i] is below
    [len(history)], so [i+1] does not overflow. *)
Fixpoint insert_history (sessionKey : string) (now : Time) (i : nat)
    (history : list (Message ToolCall)) : M unit :=
  match history with
  | [] => mret tt
  | msg :: rest =>
      toolCallsJSON ←
        (if bool_decide (0 < length (ToolCalls msg))%nat
         then data ← Errorf "memory: marshal tool calls"
                       (lift (json_Marshal (ToolCalls msg)));
              mret (Some data)
         else mret None);
      Errorf "memory: insert message"
        (Exec (insert_message sessionKey (Z.of_nat i + 1) (Role msg)
                 (Content msg) toolCallsJSON (ToolCallID msg) now)) ;;
      insert_history sessionKey now (S i) rest
  end.

Definition SetHistory (sessionKey : string) (history : list (Message ToolCall)) : M unit :=
  Errorf "memory: begin tx" BeginTx ;;
  defer Rollback (
    Errorf "memory: ensure session" (ensureSession sessionKey) ;;
    Errorf "memory: delete old messages"
      (Exec (λ db, Ok (delete_messages sessionKey db))) ;;
    now ← time_Now;
    insert_history sessionKey now 0 history ;;
    Errorf "memory: touch session" (touchSession sessionKey) ;;
    Commit).

(** The [for i, msg := range sess.Messages] loop of [importSession]. *)
Fixpoint import_messages (key : string) (now : Time) (i : nat)
    (msgs : list (Message ToolCall)) : M unit :=
  match msgs with
  | [] => mret tt
  | msg :: rest =>
      toolCallsJSON ←
        (if bool_decide (0 < length (ToolCalls msg))%nat
         then data ← lift (json_Marshal (ToolCalls msg)); mret (Some data)
         else mret None);
      Exec (insert_message key (Z.of_nat i + 1) (Role msg) (Content msg)
              toolCallsJSON (ToolCallID msg) now) ;;
      import_messages key now (S i) rest
  end.

Definition importSession (sess : jsonSession ToolCall) : M unit :=
  BeginTx ;;
  defer Rollback (
    let createdAt := Created sess in
    let updatedAt := Updated sess in
    Exec (λ db, Ok (insert_or_ignore_session (Key sess) (Summary sess)
                      createdAt updatedAt db)) ;;
    count ← Query (select_count (Key sess));
    if bool_decide (0 < count)%Z then Commit
    else
      now ← time_Now;
      import_messages (Key sess) now 0 (Messages sess) ;;
      Commit).

(** One iteration of the loop over the directory entries; the result is
    the running value of [migrated], which is at most the number of
    entries seen. *)
Definition migrate_entry (migrated : Z) (entry : DirEntry) : M Z :=
  if e_is_dir entry then mret migrated
  else
    let name := e_name entry in
    if negb (HasSuffix name ".json") then mret migrated
    else if HasSuffix name ".migrated" then mret migrated
    else
      let filePath := name in
      r ← attempt (os_ReadFile filePath);
      match r with
      | Err _ => mret migrated
      | Ok data =>
          match json_Unmarshal_session data with
          | Err _ => mret migrated
          | Ok sess =>
              if bool_decide (Key sess = EmptyString) then mret migrated
              else
                r ← attempt (importSession sess);
                match r with
                | Err _ => mret migrated
                | Ok _ =>
                    attempt (os_Rename filePath (filePath +:+ ".migrated")) ;;
                    mret (migrated + 1)%Z
                end
          end
      end.

Fixpoint migrate_entries (entries : list DirEntry) (migrated : Z) : M Z :=
  match entries with
  | [] => mret migrated
  | entry :: rest =>
      migrated' ← migrate_entry migrated entry;
      migrate_entries rest migrated'
  end.

Definition MigrateFromJSON : M Z :=
  r ← attempt os_ReadDir;
  match r with
  | Err e =>
      if IsNotExist e then mret 0%Z
      else fail (ErrWrap "memory: read sessions dir" e)
  | Ok entries => migrate_entries entries 0%Z
  end.

End Store.

(** * Specification vocabulary *)

(** ** The discipline of transactions *)

(** A statement issued inside a transaction leaves the handle alone. *)
Definition tx_step {A} (m : M A) : Prop :=
  ∀ w r w', m w = (r, w') → w_tx w' = w_tx w.

(** The tail of a transaction body: a normal return has committed, an
    error return either left the transaction open or has already restored
    the state at BEGIN. *)
Definition tx_final {A} (m : M A) : Prop :=
  ∀ w snapshot r w', w_tx w = Some snapshot → m w = (r, w') →
    match r with
    | Ok _ => w_tx w' = None
    | Err _ => w_tx w' = Some snapshot ∨ (w_tx w' = None ∧ w_db w' = snapshot)
    end.

(** ** Consistency of a database state *)

(** The constraints of the schema: the two primary keys,
    [UNIQUE(session_key, seq)], the foreign key of [messages.session_key],
    and the AUTOINCREMENT counter above every [id] in use. *)
Definition db_consistent (db : DB) : Prop :=
  NoDup (s_key <$> sessions db) ∧
  NoDup (m_id <$> messages db) ∧
  NoDup ((λ r, (m_session_key r, m_seq r)) <$> messages db) ∧
  Forall (λ r, has_session (m_session_key r) db = true) (messages db) ∧
  Forall (λ r, (m_id r < next_id db)%Z) (messages db).

Global Instance db_consistent_dec db : Decision (db_consistent db).
Proof. unfold db_consistent. apply _. Defined.

(** ** Runs without engine faults *)

(** No engine call is going to fail and no transaction is open. *)
Definition quiet (w : World) : Prop :=
  w_faults w = [] ∧ w_tx w = None.

Global Instance quiet_dec w : Decision (quiet w).
Proof. unfold quiet. apply _. Defined.

(** The last [n] elements of a list. *)
Definition last_n {A} (n : nat) (l : list A) : list A :=
  drop (length l - n) l.

(** How many rows [TruncateHistory] keeps at most. *)
Definition keep_count (keepLast : Z) : nat :=
  if bool_decide (keepLast ≤ 0)%Z then 0 else Z.to_nat keepLast.

Section Vocabulary.
Context {ToolCall : Type} `{!JSON ToolCall}.

(** What the three writers put in the [tool_calls_json] column. *)
Definition stored_json (tcs : list ToolCall) : result (option string) :=
  if bool_decide (0 < length tcs)
  then match json_Marshal tcs with
       | Ok s => Ok (Some s)
       | Err e => Err e
       end
  else Ok None.

(** The contract of [encoding/json] on one list of tool calls: it is
    marshalled to a text that is not empty and that unmarshals to the same
    list.  Nothing is asked of the empty list, which is never marshalled. *)
Definition json_roundtrips (tcs : list ToolCall) : Prop :=
  tcs = [] ∨
  ∃ s, json_Marshal tcs = Ok s ∧ s ≠ EmptyString ∧ json_Unmarshal s = Ok tcs.

(** What the loop of [GetHistory] makes of one row. *)
Definition row_message (r : MessageRow) : result (Message ToolCall) :=
  match m_tool_calls_json r with
  | Some s =>
      if bool_decide (s ≠ EmptyString)
      then match json_Unmarshal s with
           | Ok tcs => Ok (mkMessage (m_role r) (m_content r) tcs (m_tool_call_id r))
           | Err e => Err (ErrWrap "memory: unmarshal tool calls" e)
           end
      else Ok (mkMessage (m_role r) (m_content r) [] (m_tool_call_id r))
  | None => Ok (mkMessage (m_role r) (m_content r) [] (m_tool_call_id r))
  end.

Fixpoint rows_messages (rows : list MessageRow) : result (list (Message ToolCall)) :=
  match rows with
  | [] => Ok []
  | r :: rest =>
      match row_message r with
      | Err e => Err e
      | Ok m =>
          match rows_messages rest with
          | Ok ms => Ok (m :: ms)
          | Err e => Err e
          end
      end
  end.

(** A sequence of [AddFullMessage] calls on one session. *)
Fixpoint add_all (sessionKey : string) (msgs : list (Message ToolCall)) : M unit :=
  match msgs with
  | [] => mret tt
  | msg :: rest => AddFullMessage sessionKey msg ;; add_all sessionKey rest
  end.

(** The value [nextSeq] computes in a given state. *)
Definition next_seq_of (key : string) (db : DB) : Z :=
  match select_max_seq key db with
  | Some m => wrap_int (m + 1)
  | None => 1%Z
  end.

End Vocabulary.

(** ** Implicit creation of sessions *)

(** A normal return of [m] does not lose the session row of [key]. *)
Definition keeps_session (key : string) {A} (m : M A) : Prop :=
  ∀ w a w', has_session key (w_db w) = true → m w = (Ok a, w') →
    has_session key (w_db w') = true.

(** Every [seq] stored for [key] is an [int] below the largest one, so the
    next one is representable. *)
Definition seq_room (key : string) (db : DB) : Prop :=
  Forall (λ r, (- 2 ^ 63 ≤ m_seq r < max_int)%Z) (messages_of key db).

Global Instance seq_room_dec key db : Decision (seq_room key db).
Proof. unfold seq_room. apply _. Defined.

(** ** The legacy directory *)

(** A name the importer looks at. *)
Definition json_name (name : string) : bool :=
  HasSuffix name ".json" && negb (HasSuffix name ".migrated").

(** The listing [os.ReadDir] returns for a directory. *)
Definition listing (files : list File) : list DirEntry :=
  merge_sort name_le ((λ f, mkDirEntry (f_name f) (f_is_dir f)) <$> files).

(** No entry is pinned and no directory carries the processed suffix:
    every rename of the importer goes through. *)
Definition renames_free (files : list File) : Prop :=
  Forall (λ f, f_pinned f = false ∧
               (HasSuffix (f_name f) ".migrated" = true → f_is_dir f = false))
         files.

Global Instance renames_free_dec files : Decision (renames_free files).
Proof. unfold renames_free. apply _. Defined.

Section Legacy.
Context {ToolCall : Type} `{!JSON ToolCall}.

(** The record a file yields when it can be read, parses and has a key. *)
Definition file_session (f : File) : option (jsonSession ToolCall) :=
  if f_is_dir f then None
  else match f_data f with
       | None => None
       | Some data =>
           match json_Unmarshal_session data with
           | Ok sess =>
               if bool_decide (Key sess = EmptyString) then None else Some sess
           | Err _ => None
           end
       end.

(** A well-formed candidate file. *)
Definition importable (f : File) : bool :=
  json_name (f_name f) && bool_decide (is_Some (file_session f)).

(** The same, for an entry of a listing looked up in the directory. *)
Definition entry_importable (files : list File) (e : DirEntry) : bool :=
  negb (e_is_dir e) && json_name (e_name e) &&
  match find_file (e_name e) files with
  | Some f => bool_decide (is_Some (file_session f))
  | None => false
  end.

(** Every record in the directory carries tool calls that [encoding/json]
    round-trips. *)
Definition sessions_roundtrip (files : list File) : Prop :=
  ∀ f sess, f ∈ files → file_session f = Some sess →
    Forall (λ m, json_roundtrips (ToolCalls m)) (Messages sess).

(** The state of the loop of [MigrateFromJSON] over a directory that held
    [files0] when it was listed, once the entries [done] have been
    processed: the counter, the sessions imported so far, the names not yet
    reached, and (when every rename goes through) the files moved aside. *)
Definition migrating (files0 : list File) (done : list DirEntry)
    (migrated : Z) (w : World) : Prop :=
  quiet w ∧
  ∃ files,
    w_fs w = DirOf files ∧
    NoDup (f_name <$> files) ∧
    migrated
      = Z.of_nat (length (filter (λ e, entry_importable files0 e = true) done)) ∧
    (∀ e f sess,
       e ∈ done → entry_importable files0 e = true →
       find_file (e_name e) files0 = Some f → file_session f = Some sess →
       has_session (Key sess) (w_db w) = true) ∧
    (∀ name,
       json_name name = true → name ∉ e_name <$> done →
       find_file name files = find_file name files0) ∧
    (∀ g, g ∈ files → json_name (f_name g) = true → g ∈ files0) ∧
    (renames_free files0 →
       renames_free files ∧
       ∀ e f,
         e ∈ done → entry_importable files0 e = true →
         find_file (e_name e) files0 = Some f →
         mkFile (e_name e +:+ ".migrated") (f_is_dir f) (f_data f) (f_pinned f)
           ∈ files ∧
         find_file (e_name e) files = None).

End Legacy.

(** * [encoding/json] on the records of the store

    The store hands lists of tool calls to [json.Marshal] and
    [json.Unmarshal], and the importer hands the bodies of the legacy files
    to [json.Unmarshal].  This is the codec on those types: texts are
    sequences of bytes, a string is written as [encoding/json] writes it
    (escapes, bytes that are no UTF-8) and read as it reads it, and a
    [time.Time] is an RFC 3339 text. *)

Module GoJSON.

(** Modelled from the spec: the declarations of [providers.ToolCall] and
    [providers.FunctionCall] are not part of the sources at hand; these are
    the fields the tests of the importer fill in (a call identifier, a type
    and a function with its name and its argument payload). *)
Record FunctionCall : Type := mkFunctionCall {
  fn_Name : string;
  fn_Arguments : string
}.

Record ToolCall : Type := mkToolCall {
  tc_ID : string;
  tc_Type : string;
  tc_Function : option FunctionCall
}.

Global Instance FunctionCall_eq_dec : EqDecision FunctionCall.
Proof. solve_decision. Defined.
Global Instance ToolCall_eq_dec : EqDecision ToolCall.
Proof. solve_decision. Defined.

(** ** Bytes and UTF-8 *)

Definition byte (c : Ascii.ascii) : N := Ascii.N_of_ascii c.
Definition chr (n : N) : Ascii.ascii := Ascii.ascii_of_N n.

Definition quote : Ascii.ascii := chr 34.
Definition backslash : Ascii.ascii := chr 92.

Definition continuation (c : Ascii.ascii) : bool :=
  (128 <=? byte c)%N && (byte c <=? 191)%N.

(** The second byte of an encoding: the first one narrows it, so that no
    rune has two encodings and no surrogate has one. *)
Definition second_ok (first : N) (c : Ascii.ascii) : bool :=
  let n := byte c in
  if (first =? 224)%N then (160 <=? n)%N && (n <=? 191)%N
  else if (first =? 237)%N then (128 <=? n)%N && (n <=? 159)%N
  else if (first =? 240)%N then (144 <=? n)%N && (n <=? 191)%N
  else if (first =? 244)%N then (128 <=? n)%N && (n <=? 143)%N
  else continuation c.

(** [utf8.DecodeRuneInString]: the number of bytes of the rune at the head
    of [s]; 0 when the bytes there encode no rune (the call then returns
    [RuneError] with width 1). *)
Definition rune_width (s : string) : nat :=
  match s with
  | EmptyString => 0
  | String a s1 =>
      let n := byte a in
      if (n <? 128)%N then 1
      else if (n <? 194)%N then 0
      else if (n <? 224)%N then
        match s1 with
        | String b _ => if continuation b then 2 else 0
        | EmptyString => 0
        end
      else if (n <? 240)%N then
        match s1 with
        | String b (String c _) =>
            if second_ok n b && continuation c then 3 else 0
        | _ => 0
        end
      else if (n <? 245)%N then
        match s1 with
        | String b (String c (String d _)) =>
            if second_ok n b && continuation c && continuation d then 4 else 0
        | _ => 0
        end
      else 0
  end.

(** [utf8.ValidString] *)
Fixpoint ValidString (s : string) : bool :=
  match s with
  | EmptyString => true
  | String _ s1 =>
      match rune_width s, s1 with
      | 1, _ => ValidString s1
      | 2, String _ s2 => ValidString s2
      | 3, String _ (String _ s3) => ValidString s3
      | 4, String _ (String _ (String _ s4)) => ValidString s4
      | _, _ => false
      end
  end.

(** U+FFFD, the replacement rune, in UTF-8. *)
Definition replacement : string :=
  String (chr 239) (String (chr 191) (String (chr 189) EmptyString)).

(** What a string becomes when it goes through [encoding/json]: every byte
    that is part of no encoding is replaced by U+FFFD. *)
Fixpoint coerce (s : string) : string :=
  match s with
  | EmptyString => EmptyString
  | String a s1 =>
      match rune_width s, s1 with
      | 1, _ => String a (coerce s1)
      | 2, String b s2 => String a (String b (coerce s2))
      | 3, String b (String c s3) => String a (String b (String c (coerce s3)))
      | 4, String b (String c (String d s4)) =>
          String a (String b (String c (String d (coerce s4))))
      | _, _ => replacement +:+ coerce s1
      end
  end.

(** ** Strings, written *)

(** ["0123456789abcdef"[n]] *)
Definition hex_digit (n : N) : Ascii.ascii :=
  chr (if (n <? 10)%N then 48 + n else 87 + n).

(** One byte below [utf8.RuneSelf], as [appendString] writes it with
    [escapeHTML] set, which [Marshal] does: the quote and the backslash
    behind a backslash, the five short escapes, [\u00xx] for the other
    control characters and for [<], [>] and [&], and every other byte as it
    is. *)
Definition escape_byte (a : Ascii.ascii) : string :=
  let n := byte a in
  if (n =? 34)%N || (n =? 92)%N then String backslash (String a EmptyString)
  else if (n =? 8)%N then "\b"
  else if (n =? 12)%N then "\f"
  else if (n =? 10)%N then "\n"
  else if (n =? 13)%N then "\r"
  else if (n =? 9)%N then "\t"
  else if (n <? 32)%N || (n =? 60)%N || (n =? 62)%N || (n =? 38)%N
  then "\u00" +:+ String (hex_digit (n / 16))
                    (String (hex_digit (n mod 16)) EmptyString)
  else String a EmptyString.

(** U+2028 and U+2029 are [E2 80 A8] and [E2 80 A9]. *)
Definition line_separator (a b c : Ascii.ascii) : bool :=
  (byte a =? 226)%N && (byte b =? 128)%N &&
  ((byte c =? 168)%N || (byte c =? 169)%N).

(** The body of [appendString]: the text between the quotes. *)
Fixpoint appendString (s : string) : string :=
  match s with
  | EmptyString => EmptyString
  | String a s1 =>
      match rune_width s, s1 with
      | 1, _ => escape_byte a +:+ appendString s1
      | 2, String b s2 => String a (String b (appendString s2))
      | 3, String b (String c s3) =>
          if line_separator a b c
          then "\u202" +:+ String (hex_digit (byte c mod 16)) (appendString s3)
          else String a (String b (String c (appendString s3)))
      | 4, String b (String c (String d s4)) =>
          String a (String b (String c (String d (appendString s4))))
      | _, _ => "\ufffd" +:+ appendString s1
      end
  end.

(** ** Strings, read *)

Definition hex_value (c : Ascii.ascii) : option N :=
  let n := byte c in
  if (48 <=? n)%N && (n <=? 57)%N then Some (n - 48)%N
  else if (97 <=? n)%N && (n <=? 102)%N then Some (n - 87)%N
  else if (65 <=? n)%N && (n <=? 70)%N then Some (n - 55)%N
  else None.

(** [getu4]: the four hexadecimal digits behind [\u]. *)
Definition hex4 (h1 h2 h3 h4 : Ascii.ascii) : option N :=
  match hex_value h1, hex_value h2, hex_value h3, hex_value h4 with
  | Some a, Some b, Some c, Some d => Some (((a * 16 + b) * 16 + c) * 16 + d)%N
  | _, _, _, _ => None
  end.

(** The letters that may follow a backslash, [u] apart. *)
Definition short_escape (e : Ascii.ascii) : option Ascii.ascii :=
  let n := byte e in
  if (n =? 34)%N || (n =? 92)%N || (n =? 47)%N then Some e
  else if (n =? 98)%N then Some (chr 8)
  else if (n =? 102)%N then Some (chr 12)
  else if (n =? 110)%N then Some (chr 10)
  else if (n =? 114)%N then Some (chr 13)
  else if (n =? 116)%N then Some (chr 9)
  else None.

Definition keep (prefix : string) (r : option (string * string))
    : option (string * string) :=
  match r with
  | Some (raw, rest) => Some (prefix +:+ raw, rest)
  | None => None
  end.

(** The scanner on a string literal, behind its opening quote: the text up
    to the closing quote, as it is written, and what follows the literal.
    A control character and a backslash with anything but one of the
    escapes behind it are errors. *)
Fixpoint scan_string (s : string) : option (string * string) :=
  match s with
  | EmptyString => None
  | String c s1 =>
      if (byte c =? 34)%N then Some (EmptyString, s1)
      else if (byte c =? 92)%N then
        match s1 with
        | EmptyString => None
        | String e s2 =>
            if (byte e =? 117)%N then
              match s2 with
              | String h1 (String h2 (String h3 (String h4 s6))) =>
                  match hex4 h1 h2 h3 h4 with
                  | Some _ =>
                      keep (String c (String e (String h1 (String h2
                              (String h3 (String h4 EmptyString))))))
                           (scan_string s6)
                  | None => None
                  end
              | _ => None
              end
            else match short_escape e with
                 | Some _ => keep (String c (String e EmptyString)) (scan_string s2)
                 | None => None
                 end
        end
      else if (byte c <? 32)%N then None
      else keep (String c EmptyString) (scan_string s1)
  end.

(** [utf8.EncodeRune]: a surrogate and a value beyond U+10FFFF are written
    as U+FFFD. *)
Definition EncodeRune (r : N) : string :=
  if (r <? 128)%N then String (chr r) EmptyString
  else if (r <? 2048)%N
  then String (chr (192 + r / 64)) (String (chr (128 + r mod 64)) EmptyString)
  else if ((55296 <=? r)%N && (r <? 57344)%N) || (1114111 <? r)%N
  then replacement
  else if (r <? 65536)%N
  then String (chr (224 + r / 4096))
         (String (chr (128 + (r / 64) mod 64))
            (String (chr (128 + r mod 64)) EmptyString))
  else String (chr (240 + r / 262144))
         (String (chr (128 + (r / 4096) mod 64))
            (String (chr (128 + (r / 64) mod 64))
               (String (chr (128 + r mod 64)) EmptyString))).

Definition IsSurrogate (r : N) : bool := (55296 <=? r)%N && (r <? 57344)%N.

(** [utf16.DecodeRune] *)
Definition DecodeSurrogates (r1 r2 : N) : option N :=
  if (55296 <=? r1)%N && (r1 <? 56320)%N && (56320 <=? r2)%N && (r2 <? 57344)%N
  then Some ((r1 - 55296) * 1024 + (r2 - 56320) + 65536)%N
  else None.

Definition emit (bytes : string) (r : option string) : option string :=
  match r with
  | Some t => Some (bytes +:+ t)
  | None => None
  end.

(** [unquote] on the text between the quotes of a literal: escapes are
    replaced by what they stand for, a pair of surrogate escapes by the
    rune it encodes and a surrogate on its own by U+FFFD; the bytes of the
    text are coerced to UTF-8. *)
Fixpoint unquote (s : string) : option string :=
  match s with
  | EmptyString => Some EmptyString
  | String c s1 =>
      if (byte c =? 34)%N then None
      else if (byte c =? 92)%N then
        match s1 with
        | EmptyString => None
        | String e s2 =>
            if (byte e =? 117)%N then
              match s2 with
              | String h1 (String h2 (String h3 (String h4 s6))) =>
                  match hex4 h1 h2 h3 h4 with
                  | Some rr =>
                      if IsSurrogate rr then
                        match s6 with
                        | String b (String u (String l1 (String l2
                            (String l3 (String l4 s12))))) =>
                            match (if (byte b =? 92)%N && (byte u =? 117)%N
                                   then hex4 l1 l2 l3 l4 else None) with
                            | Some rr1 =>
                                match DecodeSurrogates rr rr1 with
                                | Some r => emit (EncodeRune r) (unquote s12)
                                | None => emit replacement (unquote s6)
                                end
                            | None => emit replacement (unquote s6)
                            end
                        | _ => emit replacement (unquote s6)
                        end
                      else emit (EncodeRune rr) (unquote s6)
                  | None => None
                  end
              | _ => None
              end
            else match short_escape e with
                 | Some d => emit (String d EmptyString) (unquote s2)
                 | None => None
                 end
        end
      else if (byte c <? 32)%N then None
      else
        match rune_width s, s1 with
        | 1, _ => emit (String c EmptyString) (unquote s1)
        | 2, String b s2 => emit (String c (String b EmptyString)) (unquote s2)
        | 3, String b (String d s3) =>
            emit (String c (String b (String d EmptyString))) (unquote s3)
        | 4, String b (String d (String e s4)) =>
            emit (String c (String b (String d (String e EmptyString))))
                 (unquote s4)
        | _, _ => emit replacement (unquote s1)
        end
  end.

(** ** Values *)

(** A JSON text as the scanner cuts it: a string and a number are kept as
    they are written; what they stand for depends on the type they are
    decoded into. *)
#[local] Unset Elimination Schemes.
Inductive json : Type :=
| JNull
| JBool (b : bool)
| JNum (literal : string)
| JStr (raw : string)
| JArr (items : list json)
| JObj (members : list (string * json)).
#[local] Set Elimination Schemes.

Definition literal (raw : string) : string :=
  String quote (raw +:+ String quote EmptyString).

Fixpoint join (separator : string) (parts : list string) : string :=
  match parts with
  | [] => EmptyString
  | [x] => x
  | x :: rest => x +:+ separator +:+ join separator rest
  end.

(** The compact text, as [Marshal] writes it. *)
Fixpoint render (j : json) : string :=
  match j with
  | JNull => "null"
  | JBool true => "true"
  | JBool false => "false"
  | JNum n => n
  | JStr raw => literal raw
  | JArr items =>
      "[" +:+ join "," ((fix each (l : list json) : list string :=
                           match l with
                           | [] => []
                           | x :: l' => render x :: each l'
                           end) items) +:+ "]"
  | JObj members =>
      "{" +:+ join ","
                ((fix each (l : list (string * json)) : list string :=
                    match l with
                    | [] => []
                    | (k, v) :: l' => (literal k +:+ ":" +:+ render v) :: each l'
                    end) members) +:+ "}"
  end.

Definition newline : string := String (chr 10) EmptyString.

Fixpoint indentation (depth : nat) : string :=
  match depth with
  | 0 => EmptyString
  | S d => "  " +:+ indentation d
  end.

(** The text [MarshalIndent] writes with an empty prefix and an
    indentation of two spaces. *)
Fixpoint render_indent (depth : nat) (j : json) : string :=
  match j with
  | JArr ((_ :: _) as items) =>
      "[" +:+ newline +:+ indentation (S depth) +:+
      join ("," +:+ newline +:+ indentation (S depth))
        ((fix each (l : list json) : list string :=
            match l with
            | [] => []
            | x :: l' => render_indent (S depth) x :: each l'
            end) items) +:+
      newline +:+ indentation depth +:+ "]"
  | JObj ((_ :: _) as members) =>
      "{" +:+ newline +:+ indentation (S depth) +:+
      join ("," +:+ newline +:+ indentation (S depth))
        ((fix each (l : list (string * json)) : list string :=
            match l with
            | [] => []
            | (k, v) :: l' =>
                (literal k +:+ ": " +:+ render_indent (S depth) v) :: each l'
            end) members) +:+
      newline +:+ indentation depth +:+ "}"
  | _ => render j
  end.

(** ** The scanner on values *)

Definition is_blank (c : Ascii.ascii) : bool :=
  let n := byte c in
  (n =? 32)%N || (n =? 10)%N || (n =? 13)%N || (n =? 9)%N.

Fixpoint skip_blank (s : string) : string :=
  match s with
  | String c s' => if is_blank c then skip_blank s' else s
  | EmptyString => EmptyString
  end.

Definition is_digit (c : Ascii.ascii) : bool :=
  (48 <=? byte c)%N && (byte c <=? 57)%N.

(** The digits at the head of a text, and the rest. *)
Fixpoint scan_digits (s : string) : string * string :=
  match s with
  | String c s' =>
      if is_digit c
      then let '(ds, rest) := scan_digits s' in (String c ds, rest)
      else (EmptyString, s)
  | EmptyString => (EmptyString, EmptyString)
  end.

(** A run of digits that is not empty. *)
Definition scan_digits1 (s : string) : option (string * string) :=
  match scan_digits s with
  | (EmptyString, _) => None
  | r => Some r
  end.

(** The fraction of a number, when there is one. *)
Definition scan_fraction (s : string) : option (string * string) :=
  match s with
  | String d s' =>
      if (byte d =? 46)%N
      then match scan_digits1 s' with
           | Some (ds, rest) => Some (String d ds, rest)
           | None => None
           end
      else Some (EmptyString, s)
  | EmptyString => Some (EmptyString, s)
  end.

(** The exponent of a number, when there is one. *)
Definition scan_exponent (s : string) : option (string * string) :=
  match s with
  | String e s' =>
      if (byte e =? 101)%N || (byte e =? 69)%N
      then
        let '(sign, s'') :=
          match s' with
          | String g t =>
              if (byte g =? 43)%N || (byte g =? 45)%N
              then (String g EmptyString, t)
              else (EmptyString, s')
          | EmptyString => (EmptyString, s')
          end in
        match scan_digits1 s'' with
        | Some (ds, rest) => Some (String e (sign +:+ ds), rest)
        | None => None
        end
      else Some (EmptyString, s)
  | EmptyString => Some (EmptyString, s)
  end.

(** A number: an optional sign, [0] or digits that do not start with [0],
    an optional fraction and an optional exponent. *)
Definition scan_number (s : string) : option (string * string) :=
  let '(sign, s) :=
    match s with
    | String c s' => if (byte c =? 45)%N then ("-", s') else (EmptyString, s)
    | EmptyString => (EmptyString, s)
    end in
  match s with
  | String c s' =>
      match (if (byte c =? 48)%N then Some ("0", s') else scan_digits1 s) with
      | Some (int, s) =>
          match scan_fraction s with
          | Some (frac, s) =>
              match scan_exponent s with
              | Some (exp, rest) => Some (sign +:+ int +:+ frac +:+ exp, rest)
              | None => None
              end
          | None => None
          end
      | None => None
      end
  | EmptyString => None
  end.

Definition scan_word (word : string) (value : json) (s : string)
    : option (json * string) :=
  if String.prefix word s
  then Some (value, String.substring (String.length word)
                      (String.length s - String.length word) s)
  else None.

Fixpoint parse_value (fuel : nat) (s : string) : option (json * string) :=
  match fuel with
  | 0 => None
  | S fuel' =>
      match skip_blank s with
      | String c rest =>
          if (byte c =? 34)%N
          then match scan_string rest with
               | Some (raw, rest') => Some (JStr raw, rest')
               | None => None
               end
          else if (byte c =? 91)%N
          then match skip_blank rest with
               | String d rest' =>
                   if (byte d =? 93)%N then Some (JArr [], rest')
                   else match parse_items fuel' rest with
                        | Some (items, rest'') => Some (JArr items, rest'')
                        | None => None
                        end
               | EmptyString => None
               end
          else if (byte c =? 123)%N
          then match skip_blank rest with
               | String d rest' =>
                   if (byte d =? 125)%N then Some (JObj [], rest')
                   else match parse_members fuel' rest with
                        | Some (members, rest'') => Some (JObj members, rest'')
                        | None => None
                        end
               | EmptyString => None
               end
          else if (byte c =? 110)%N then scan_word "null" JNull (String c rest)
          else if (byte c =? 116)%N then scan_word "true" (JBool true) (String c rest)
          else if (byte c =? 102)%N then scan_word "false" (JBool false) (String c rest)
          else match scan_number (String c rest) with
               | Some (n, rest') => Some (JNum n, rest')
               | None => None
               end
      | EmptyString => None
      end
  end
with parse_items (fuel : nat) (s : string) : option (list json * string) :=
  match fuel with
  | 0 => None
  | S fuel' =>
      match parse_value fuel' s with
      | Some (v, rest) =>
          match skip_blank rest with
          | String c rest' =>
              if (byte c =? 44)%N
              then match parse_items fuel' rest' with
                   | Some (vs, rest'') => Some (v :: vs, rest'')
                   | None => None
                   end
              else if (byte c =? 93)%N then Some ([v], rest')
              else None
          | EmptyString => None
          end
      | None => None
      end
  end
with parse_members (fuel : nat) (s : string)
    : option (list (string * json) * string) :=
  match fuel with
  | 0 => None
  | S fuel' =>
      match skip_blank s with
      | String c rest =>
          if (byte c =? 34)%N
          then match scan_string rest with
               | Some (k, rest1) =>
                   match skip_blank rest1 with
                   | String d rest2 =>
                       if (byte d =? 58)%N
                       then match parse_value fuel' rest2 with
                            | Some (v, rest3) =>
                                match skip_blank rest3 with
                                | String e rest4 =>
                                    if (byte e =? 44)%N
                                    then match parse_members fuel' rest4 with
                                         | Some (ms, rest5) =>
                                             Some ((k, v) :: ms, rest5)
                                         | None => None
                                         end
                                    else if (byte e =? 125)%N
                                    then Some ([(k, v)], rest4)
                                    else None
                                | EmptyString => None
                                end
                            | None => None
                            end
                       else None
                   | EmptyString => None
                   end
               | None => None
               end
          else None
      | EmptyString => None
      end
  end.

(** A whole text: one value between blanks. *)
Definition parse (s : string) : result json :=
  match parse_value (S (String.length s)) s with
  | Some (j, rest) =>
      match skip_blank rest with
      | EmptyString => Ok j
      | _ => Err ErrJSON
      end
  | None => Err ErrJSON
  end.

(** ** [time.Time]

    An instant is written as an RFC 3339 text.  Instants are whole seconds
    here, which is what [Format(time.RFC3339)] keeps of them, and the
    fraction of a second of a text is passed over. *)

Definition is_leap (year : Z) : bool :=
  ((year mod 4 =? 0) && (negb (year mod 100 =? 0) || (year mod 400 =? 0)))%Z.

Definition daysIn (month year : Z) : Z :=
  (if month =? 2 then (if is_leap year then 29 else 28)
   else if (month =? 4) || (month =? 6) || (month =? 9) || (month =? 11)
   then 30 else 31)%Z.

(** Days from 1970-01-01 to a date of the proleptic Gregorian calendar. *)
Definition days_from_civil (y m d : Z) : Z :=
  (let y' := if m <=? 2 then y - 1 else y in
   let era := y' / 400 in
   let yoe := y' - era * 400 in
   let doy := (153 * (if 2 <? m then m - 3 else m + 9) + 2) / 5 + d - 1 in
   let doe := yoe * 365 + yoe / 4 - yoe / 100 + doy in
   era * 146097 + doe - 719468)%Z.

Definition civil_from_days (days : Z) : Z * Z * Z :=
  (let z := days + 719468 in
   let era := z / 146097 in
   let doe := z - era * 146097 in
   let yoe := (doe - doe / 1460 + doe / 36524 - doe / 146096) / 365 in
   let doy := doe - (365 * yoe + yoe / 4 - yoe / 100) in
   let mp := (5 * doy + 2) / 153 in
   let d := doy - (153 * mp + 2) / 5 + 1 in
   let m := if mp <? 10 then mp + 3 else mp - 9 in
   let y := yoe + era * 400 in
   (if m <=? 2 then y + 1 else y, m, d))%Z.

(** The zero [time.Time]: January 1 of year 1, 00:00:00 UTC. *)
Definition zero_time : Time := (days_from_civil 1 1 1 * 86400)%Z.

(** The value of a text that is made of digits. *)
Fixpoint digits_value (s : string) (acc : Z) : option Z :=
  match s with
  | EmptyString => Some acc
  | String c s' =>
      if is_digit c
      then digits_value s' (10 * acc + Z.of_N (byte c - 48))%Z
      else None
  end.

(** [parseUint] of [parseRFC3339]: the digits at a place, within bounds. *)
Definition field (s : string) (start width : nat) (lo hi : Z) : option Z :=
  match digits_value (String.substring start width s) 0%Z with
  | Some x => if ((lo <=? x) && (x <=? hi))%Z then Some x else None
  | None => None
  end.

Definition at_place (s : string) (n : nat) (c : N) : bool :=
  match String.get n s with
  | Some d => (byte d =? c)%N
  | None => false
  end.

(** The time zone of an RFC 3339 text, behind the seconds and their
    fraction. *)
Definition zone_of (rest : string) : string :=
  match rest with
  | String dot (String d rest') =>
      if (byte dot =? 46)%N && is_digit d
      then snd (scan_digits rest')
      else rest
  | _ => rest
  end.

(** [2006-01-02T15:04:05], an optional fraction, and [Z] or an offset
    [+07:00]: the instant, in seconds from 1970-01-01T00:00:00Z. *)
Definition ParseRFC3339 (s : string) : option Time :=
  if (String.length s <? 19)%nat then None
  else
    match field s 0 4 0 9999, field s 5 2 1 12 with
    | Some year, Some month =>
        match field s 8 2 1 (daysIn month year), field s 11 2 0 23,
              field s 14 2 0 59, field s 17 2 0 59 with
        | Some day, Some hour, Some min, Some sec =>
            if at_place s 4 45 && at_place s 7 45 && at_place s 10 84 &&
               at_place s 13 58 && at_place s 16 58
            then
              let t := (days_from_civil year month day * 86400
                        + hour * 3600 + min * 60 + sec)%Z in
              let zone :=
                zone_of (String.substring 19 (String.length s - 19) s) in
              if String.eqb zone "Z" then Some t
              else if (String.length zone =? 6)%nat
              then match field zone 1 2 0 23, field zone 4 2 0 59 with
                   | Some hr, Some mm =>
                       if (at_place zone 0 43 || at_place zone 0 45) &&
                          at_place zone 3 58
                       then Some (if at_place zone 0 45
                                  then t + (hr * 60 + mm) * 60
                                  else t - (hr * 60 + mm) * 60)%Z
                       else None
                   | _, _ => None
                   end
              else None
            else None
        | _, _, _, _ => None
        end
    | _, _ => None
    end.

(** The decimal digits of a number below [10 ^ width], with leading
    zeros. *)
Fixpoint padded (width : nat) (n : Z) (acc : string) : string :=
  match width with
  | 0 => acc
  | S w => padded w (n / 10)%Z (String (chr (Z.to_N (48 + n mod 10))) acc)
  end.

(** [t.UTC().Format(time.RFC3339)], which is also what [MarshalJSON]
    writes for an instant in UTC that is a whole second.  [MarshalJSON]
    fails on a year beyond 9999 or before 0. *)
Definition FormatRFC3339 (t : Time) : result string :=
  let '(y, m, d) := civil_from_days (t / 86400)%Z in
  let secs := (t mod 86400)%Z in
  if ((0 <=? y) && (y <=? 9999))%Z
  then Ok (padded 4 y EmptyString +:+ "-" +:+ padded 2 m EmptyString +:+ "-" +:+
           padded 2 d EmptyString +:+ "T" +:+
           padded 2 (secs / 3600)%Z EmptyString +:+ ":" +:+
           padded 2 ((secs / 60) mod 60)%Z EmptyString +:+ ":" +:+
           padded 2 (secs mod 60)%Z EmptyString +:+ "Z")
  else Err ErrJSON.

(** ** Decoding *)

Definition lower (c : Ascii.ascii) : Ascii.ascii :=
  if (65 <=? byte c)%N && (byte c <=? 90)%N then chr (byte c + 32) else c.

Fixpoint fold_name (s : string) : string :=
  match s with
  | EmptyString => EmptyString
  | String c s' => String (lower c) (fold_name s')
  end.

(** A key of an object names a field when it is the name of its tag, in
    whatever case its letters are. *)
Definition names (field raw_key : string) : bool :=
  match unquote raw_key with
  | Some k => String.eqb (fold_name k) field
  | None => false
  end.

(** The member a field is decoded from: of the members that name it, the
    last one. *)
Definition member (field : string) (members : list (string * json))
    : option json :=
  snd <$> last (filter (λ kv, names field kv.1 = true) members).

(** A string field; from [null] and without a member it keeps the zero
    value. *)
Definition string_member (field : string) (members : list (string * json))
    : result string :=
  match member field members with
  | Some (JStr raw) =>
      match unquote raw with
      | Some s => Ok s
      | None => Err ErrJSON
      end
  | Some JNull | None => Ok EmptyString
  | Some _ => Err ErrJSON
  end.

(** [Time.UnmarshalJSON] reads the literal as it is written. *)
Definition time_member (field : string) (members : list (string * json))
    : result Time :=
  match member field members with
  | Some (JStr raw) =>
      match ParseRFC3339 raw with
      | Some t => Ok t
      | None => Err ErrJSON
      end
  | Some JNull | None => Ok zero_time
  | Some _ => Err ErrJSON
  end.

Fixpoint decode_list {A} (decode : json → result A) (items : list json)
    : result (list A) :=
  match items with
  | [] => Ok []
  | j :: rest =>
      match decode j with
      | Ok a =>
          match decode_list decode rest with
          | Ok l => Ok (a :: l)
          | Err e => Err e
          end
      | Err e => Err e
      end
  end.

Definition list_member {A} (decode : json → result A) (field : string)
    (members : list (string * json)) : result (list A) :=
  match member field members with
  | Some (JArr items) => decode_list decode items
  | Some JNull | None => Ok []
  | Some _ => Err ErrJSON
  end.

Definition encode_string (s : string) : json := JStr (appendString s).

(** [json:"name"], [json:"arguments"] *)
Definition encode_function (f : FunctionCall) : json :=
  JObj [("name", encode_string (fn_Name f));
        ("arguments", encode_string (fn_Arguments f))].

Definition decode_function (j : json) : result FunctionCall :=
  match j with
  | JObj ms =>
      match string_member "name" ms, string_member "arguments" ms with
      | Ok n, Ok a => Ok (mkFunctionCall n a)
      | _, _ => Err ErrJSON
      end
  | _ => Err ErrJSON
  end.

(** [json:"id"], [json:"type,omitempty"], [json:"function,omitempty"] *)
Definition encode_tool_call (tc : ToolCall) : json :=
  JObj ([("id", encode_string (tc_ID tc))]
        ++ (if bool_decide (tc_Type tc = EmptyString) then []
            else [("type", encode_string (tc_Type tc))])
        ++ match tc_Function tc with
           | Some f => [("function", encode_function f)]
           | None => []
           end).

Definition decode_tool_call (j : json) : result ToolCall :=
  match j with
  | JObj ms =>
      match string_member "id" ms, string_member "type" ms with
      | Ok id, Ok ty =>
          match member "function" ms with
          | Some JNull | None => Ok (mkToolCall id ty None)
          | Some f =>
              match decode_function f with
              | Ok fc => Ok (mkToolCall id ty (Some fc))
              | Err e => Err e
              end
          end
      | _, _ => Err ErrJSON
      end
  | _ => Err ErrJSON
  end.

(** [json:"role"], [json:"content"], [json:"tool_calls,omitempty"],
    [json:"tool_call_id,omitempty"] *)
Definition encode_message (m : Message ToolCall) : json :=
  JObj ([("role", encode_string (Role m)); ("content", encode_string (Content m))]
        ++ (match ToolCalls m with
            | [] => []
            | tcs => [("tool_calls", JArr (encode_tool_call <$> tcs))]
            end)
        ++ (if bool_decide (ToolCallID m = EmptyString) then []
            else [("tool_call_id", encode_string (ToolCallID m))])).

Definition decode_message (j : json) : result (Message ToolCall) :=
  match j with
  | JObj ms =>
      match string_member "role" ms, string_member "content" ms,
            list_member decode_tool_call "tool_calls" ms,
            string_member "tool_call_id" ms with
      | Ok r, Ok c, Ok tcs, Ok id => Ok (mkMessage r c tcs id)
      | _, _, _, _ => Err ErrJSON
      end
  | _ => Err ErrJSON
  end.

(** [json:"key"], [json:"messages"], [json:"summary,omitempty"],
    [json:"created"], [json:"updated"] *)
Definition encode_session (s : jsonSession ToolCall) : result json :=
  match FormatRFC3339 (Created s), FormatRFC3339 (Updated s) with
  | Ok created, Ok updated =>
      Ok (JObj ([("key", encode_string (Key s));
                 ("messages", JArr (encode_message <$> Messages s))]
                ++ (if bool_decide (Summary s = EmptyString) then []
                    else [("summary", encode_string (Summary s))])
                ++ [("created", JStr created); ("updated", JStr updated)]))
  | _, _ => Err ErrJSON
  end.

Definition decode_session (j : json) : result (jsonSession ToolCall) :=
  match j with
  | JObj ms =>
      match string_member "key" ms, list_member decode_message "messages" ms,
            string_member "summary" ms, time_member "created" ms,
            time_member "updated" ms with
      | Ok k, Ok msgs, Ok s, Ok c, Ok u => Ok (mkJsonSession k msgs s c u)
      | _, _, _, _, _ => Err ErrJSON
      end
  | _ => Err ErrJSON
  end.

(** [json.Marshal(msg.ToolCalls)] *)
Definition Marshal (tcs : list ToolCall) : result string :=
  Ok (render (JArr (encode_tool_call <$> tcs))).

(** [json.Unmarshal([]byte(text), &msg.ToolCalls)] *)
Definition Unmarshal (s : string) : result (list ToolCall) :=
  match parse s with
  | Ok (JArr items) => decode_list decode_tool_call items
  | Ok JNull => Ok []
  | Ok _ => Err ErrJSON
  | Err e => Err e
  end.

(** [json.Unmarshal(data, &sess)] *)
Definition Unmarshal_session (s : string) : result (jsonSession ToolCall) :=
  match parse s with
  | Ok j => decode_session j
  | Err e => Err e
  end.

Global Instance reference : JSON ToolCall := {|
  json_Marshal := Marshal;
  json_Unmarshal := Unmarshal;
  json_Unmarshal_session := Unmarshal_session
|}.

(** What [writeJSONSession] of the tests puts in a file, for a record
    whose instants are whole seconds in UTC: the text of
    [json.MarshalIndent(sess, "", "  ")].  Where [MarshalIndent] fails the
    helper stops the test and there is no file; the text is then empty. *)
Definition session_text (s : jsonSession ToolCall) : string :=
  match encode_session s with
  | Ok j => render_indent 0 j
  | Err _ => EmptyString
  end.

(** What a tool call is read back as. *)
Definition coerce_function (f : FunctionCall) : FunctionCall :=
  mkFunctionCall (coerce (fn_Name f)) (coerce (fn_Arguments f)).

Definition coerce_tool_call (tc : ToolCall) : ToolCall :=
  mkToolCall (coerce (tc_ID tc)) (coerce (tc_Type tc))
    (coerce_function <$> tc_Function tc).

(** The texts of a tool call are UTF-8. *)
Definition valid_tool_call (tc : ToolCall) : bool :=
  ValidString (tc_ID tc) && ValidString (tc_Type tc) &&
  match tc_Function tc with
  | Some f => ValidString (fn_Name f) && ValidString (fn_Arguments f)
  | None => true
  end.

(** ** Texts that are read back *)

(** The rune at the head of a text that is not empty: an encoding of one
    to four bytes, whatever follows it, or a byte that starts none. *)
Inductive head_rune : string → Prop :=
| head_1 a s1 :
    (∀ t, rune_width (String a t) = 1) → (byte a < 128)%N →
    head_rune (String a s1)
| head_2 a b s2 :
    (∀ t, rune_width (String a (String b t)) = 2) →
    (128 ≤ byte a)%N → (128 ≤ byte b)%N →
    head_rune (String a (String b s2))
| head_3 a b c s3 :
    (∀ t, rune_width (String a (String b (String c t))) = 3) →
    (128 ≤ byte a)%N → (128 ≤ byte b)%N → (128 ≤ byte c)%N →
    head_rune (String a (String b (String c s3)))
| head_4 a b c d s4 :
    (∀ t, rune_width (String a (String b (String c (String d t)))) = 4) →
    (128 ≤ byte a)%N → (128 ≤ byte b)%N → (128 ≤ byte c)%N → (128 ≤ byte d)%N →
    head_rune (String a (String b (String c (String d s4))))
| head_0 a s1 :
    rune_width (String a s1) = 0 → (128 ≤ byte a)%N → head_rune (String a s1).

(** A text that the scanner reads as a whole literal when a quote closes
    it. *)
Definition literal_text (raw : string) : Prop :=
  ∀ rest, scan_string (raw +:+ String quote rest) = Some (raw, rest).

(** A value whose compact text the scanner reads back, whatever follows
    it, with fuel beyond the length of the text. *)
Definition reads_back (v : json) : Prop :=
  ∀ fuel rest,
    (String.length (render v) < fuel)%nat →
    parse_value fuel (render v +:+ rest) = Some (v, rest).

(** The values whose text opens with a quote, a bracket or a brace. *)
Definition opens (v : json) : bool :=
  match v with
  | JStr _ | JArr _ | JObj _ => true
  | _ => false
  end.

End GoJSON.


(** * Sample states *)

Module Samples.
Import GoJSON.

(** A clock that starts at the epoch and advances by one second at each
    reading. *)
Definition clock : nat → Time := λ n, Z.of_nat n.

(** A store that has just been opened, next to no legacy directory. *)
Definition fresh : World := mkWorld empty_db None [] clock 0 DirMissing.

Definition hello : Message ToolCall :=
  mkMessage "user" "hello" [] EmptyString.

Definition hi : Message ToolCall :=
  mkMessage "assistant" "hi" [] EmptyString.

Definition search_call : ToolCall :=
  mkToolCall "call_1" "function"
    (Some (mkFunctionCall "web_search" (render (JObj [("q", JStr "test")])))).

Definition lookup_call : ToolCall :=
  mkToolCall "call_2" EmptyString None.

Definition searching : Message ToolCall :=
  mkMessage "assistant" "Searching..." [search_call; lookup_call] EmptyString.

(** A call whose identifier holds a byte that is part of no UTF-8
    encoding. *)
Definition garbled_call : ToolCall :=
  mkToolCall (String (chr 255) "call_3") "function"
    (Some (mkFunctionCall "web_search" "{}")).

Definition garbled : Message ToolCall :=
  mkMessage "assistant" "Searching..." [garbled_call] EmptyString.

Definition found : Message ToolCall :=
  mkMessage "tool" "result" [] "call_1".

(** The store after three appends to session [s1]. *)
Definition chatted : World :=
  snd (add_all "s1" [hello; searching; found] fresh).

(** The store after one append to session [s1]. *)
Definition greeted : World :=
  snd (add_all "s1" [hello] fresh).

(** The engine fails the fourth call it receives. *)
Definition failing : World :=
  mkWorld empty_db None [false; false; false; true] clock 0 DirMissing.

Definition good_session : jsonSession ToolCall :=
  mkJsonSession "good" [mkMessage "user" "ok" [] EmptyString] EmptyString
    1700000000%Z 1700000000%Z.

Definition tools_session : jsonSession ToolCall :=
  mkJsonSession "telegram:123" [searching; found] "A search."
    1700000000%Z 1700000005%Z.

(** A legacy directory: two well-formed files, one of them under a name
    that differs from its key, a body that does not parse, a file that
    cannot be read, a record without a key, a file processed earlier and a
    sub-directory. *)
Definition legacy_files : list File :=
  [ mkFile "good.json" false (Some (session_text good_session)) false;
    mkFile "bad.json" false (Some "{invalid json") false;
    mkFile "telegram_123.json" false (Some (session_text tools_session)) false;
    mkFile "locked.json" false None false;
    mkFile "nokey.json" false
      (Some (session_text (mkJsonSession EmptyString [] EmptyString 0%Z 0%Z))) false;
    mkFile "old.json.migrated" false (Some (session_text good_session)) false;
    mkFile "archive" true None false ].

Definition legacy : World :=
  mkWorld empty_db None [] clock 0 (DirOf legacy_files).

(** A directory whose only file cannot be renamed. *)
Definition pinned_files : list File :=
  [ mkFile "good.json" false (Some (session_text good_session)) true ].

Definition pinned : World :=
  mkWorld empty_db None [] clock 0 (DirOf pinned_files).

End Samples.


(** * Further vocabulary *)

(** ** Invariants of the database *)

(** [I] holds of what the connection sees and of the state an open
    transaction would roll back to. *)
Definition tx_invariant (I : DB → Prop) (w : World) : Prop :=
  I (w_db w) ∧ match w_tx w with Some snapshot => I snapshot | None => True end.

(** Whatever its outcome, [m] keeps [I]. *)
Definition preserves (I : DB → Prop) {A} (m : M A) : Prop :=
  ∀ w r w', tx_invariant I w → m w = (r, w') → tx_invariant I w'.

(** The summary of a session as [GetSummary] reads it. *)
Definition summary_of (key : string) (db : DB) : string :=
  default EmptyString (select_summary key db).

(** The row of a session, if it has one. *)
Definition session_of (key : string) (db : DB) : option SessionRow :=
  head (filter (λ s, s_key s = key) (sessions db)).

(** What the store never rewrites in a session row once it exists. *)
Definition session_origin (key : string) (db : DB) : option (string * Time) :=
  (λ s, (s_summary s, s_created_at s)) <$> session_of key db.

(** ** The candidates of a directory *)

(** What [sessions_roundtrip] asks, of the files the importer reads only:
    those whose name ends in [.json]. *)
Definition candidates_roundtrip {ToolCall : Type} `{!JSON ToolCall}
    (files : list File) : Prop :=
  ∀ f sess, f ∈ files → json_name (f_name f) = true →
    file_session f = Some sess →
    Forall (λ m, json_roundtrips (ToolCalls m)) (Messages sess).

(** Every well-formed candidate that has been processed has left messages
    under its key, unless it holds none. *)
Definition candidates_stored {ToolCall : Type} `{!JSON ToolCall}
    (files : list File) (db : DB) : Prop :=
  ∀ f sess, f ∈ files → json_name (f_name f) = true →
    file_session f = Some sess →
    has_session (Key sess) db = true ∧
    (messages_of (Key sess) db ≠ [] ∨ Messages sess = []).

(** * The heartbeat service

    A shallow embedding of [pkg/heartbeat/service.go].  The service is the
    struct of the source without its mutex: every method is taken as it
    runs under the lock.  What the methods do to the machine is kept in a
    [Host]: the notes file, the log file, the records of the logger, the
    clock, the goroutines started and the calls made to the handlers. *)

Module Heartbeat.

Record ToolResult : Type := mkToolResult {
  ForLLM : string;
  ForUser : string;
  Silent : bool;
  IsError : bool;
  Async : bool;
  ToolErr : option string       (* the field [Err] *)
}.

(** [func(prompt string) *ToolResult]: a nil result is [None]. *)
Definition HeartbeatHandler : Type := string → option ToolResult.

(** [func(string) (string, error)]: the error is kept as its message. *)
Definition LegacyHandler : Type := string → string * option string.

(** A [chan struct{}] on which nothing is ever sent: all that can be
    observed of it is whether it has been closed. *)
Inductive chan : Type := chan_open | chan_closed.

Record HeartbeatService : Type := mkHeartbeatService {
  workspace : string;
  onHeartbeat : option LegacyHandler;
  onHeartbeatWithTools : option HeartbeatHandler;
  interval : Z;
  enabled : bool;
  stopChan : chan
}.

(** A call either returns or panics. *)
Inductive outcome (A : Type) : Type :=
| Returns (a : A)
| Panics.
Arguments Returns {A} a.
Arguments Panics {A}.

Inductive handler_kind : Type := legacy_handler | tools_handler.

Record Host : Type := mkHost {
  h_notes : option string;      (* memory/HEARTBEAT.md, when it can be read *)
  h_log_opens : bool;           (* memory/heartbeat.log can be opened *)
  h_log : list string;          (* what has been written to memory/heartbeat.log *)
  h_info : list (string * string * list (string * string));  (* logger.InfoCF *)
  h_clock : nat → Time;
  h_ticks : nat;
  h_format : string → Time → string;     (* [t.Format(layout)] *)
  h_loops : nat;                (* goroutines started on [runLoop] *)
  h_calls : list (handler_kind * string) (* handlers called, with the prompt *)
}.

Definition nl : string := String (Ascii.ascii_of_N 10) EmptyString.

Definition tick (h : Host) : Host :=
  mkHost (h_notes h) (h_log_opens h) (h_log h) (h_info h) (h_clock h)
    (S (h_ticks h)) (h_format h) (h_loops h) (h_calls h).

Definition write_log (line : string) (h : Host) : Host :=
  mkHost (h_notes h) (h_log_opens h) (h_log h ++ [line]) (h_info h) (h_clock h)
    (h_ticks h) (h_format h) (h_loops h) (h_calls h).

Definition InfoCF (component message : string) (fields : list (string * string))
    (h : Host) : Host :=
  mkHost (h_notes h) (h_log_opens h) (h_log h)
    (h_info h ++ [(component, message, fields)]) (h_clock h)
    (h_ticks h) (h_format h) (h_loops h) (h_calls h).

(** [go hs.runLoop()] *)
Definition go_runLoop (h : Host) : Host :=
  mkHost (h_notes h) (h_log_opens h) (h_log h) (h_info h) (h_clock h)
    (h_ticks h) (h_format h) (S (h_loops h)) (h_calls h).

Definition called (kind : handler_kind) (prompt : string) (h : Host) : Host :=
  mkHost (h_notes h) (h_log_opens h) (h_log h) (h_info h) (h_clock h)
    (h_ticks h) (h_format h) (h_loops h) (h_calls h ++ [(kind, prompt)]).

(** [time.Now().Format(layout)] *)
Definition now_formatted (layout : string) (h : Host) : string * Host :=
  (h_format h layout (h_clock h (h_ticks h)), tick h).

(** [time.Duration(intervalS) * time.Second] on 64-bit integers. *)
Definition NewHeartbeatService (workspace : string)
    (onHeartbeat : option LegacyHandler) (intervalS : Z) (enabled : bool)
    : HeartbeatService :=
  mkHeartbeatService workspace onHeartbeat None
    (wrap_int (wrap_int intervalS * 1000000000)) enabled chan_open.

Definition SetOnHeartbeatWithTools (handler : option HeartbeatHandler)
    (hs : HeartbeatService) : HeartbeatService :=
  mkHeartbeatService (workspace hs) (onHeartbeat hs) handler (interval hs)
    (enabled hs) (stopChan hs).

(** The [select] with a [default] case: a receive from a closed channel is
    ready, one from an open channel on which nobody sends is not. *)
Definition running (hs : HeartbeatService) : bool :=
  match stopChan hs with
  | chan_closed => false
  | chan_open => true
  end.

(** The result is the error: [None] is [nil]. *)
Definition Start (hs : HeartbeatService) (h : Host) : option string * Host :=
  if running hs then (None, h)
  else if negb (enabled hs) then (Some "heartbeat service is disabled", h)
  else (None, go_runLoop h).

(** [close(c)] panics on a channel that is closed. *)
Definition close (c : chan) : outcome chan :=
  match c with
  | chan_open => Returns chan_closed
  | chan_closed => Panics
  end.

Definition Stop (hs : HeartbeatService) : outcome HeartbeatService :=
  if negb (running hs) then Returns hs
  else match close (stopChan hs) with
       | Returns c =>
           Returns (mkHeartbeatService (workspace hs) (onHeartbeat hs)
                      (onHeartbeatWithTools hs) (interval hs) (enabled hs) c)
       | Panics => Panics
       end.

Definition buildPrompt (hs : HeartbeatService) (h : Host) : string * Host :=
  let notes := match h_notes h with Some data => data | None => EmptyString end in
  let '(now, h) := now_formatted "2006-01-02 15:04" h in
  ("# Heartbeat Check" +:+ nl +:+ nl +:+
   "Current time: " +:+ now +:+ nl +:+ nl +:+
   "Check if there are any tasks I should be aware of or actions I should take."
     +:+ nl +:+
   "Review the memory file for any important updates or changes." +:+ nl +:+
   "Be proactive in identifying potential issues or improvements." +:+ nl +:+ nl +:+
   notes +:+ nl, h).

Definition log (hs : HeartbeatService) (message : string) (h : Host) : Host :=
  if negb (h_log_opens h) then h
  else
    let '(timestamp, h) := now_formatted "2006-01-02 15:04:05" h in
    write_log ("[" +:+ timestamp +:+ "] " +:+ message +:+ nl) h.

(** Calling a nil function value panics. *)
Definition executeHeartbeatWithTools (hs : HeartbeatService) (prompt : string)
    (h : Host) : outcome Host :=
  match onHeartbeatWithTools hs with
  | None => Panics
  | Some handler =>
      let h := called tools_handler prompt h in
      match handler prompt with
      | None => Returns (log hs "Heartbeat handler returned nil result" h)
      | Some result =>
          if IsError result
          then Returns (log hs ("Heartbeat error: " +:+ ForLLM result) h)
          else if Async result
          then Returns
                 (InfoCF "heartbeat" "Async heartbeat task started"
                    [("message", ForLLM result)]
                    (log hs ("Async task started: " +:+ ForLLM result) h))
          else Returns (log hs ("Heartbeat completed: " +:+ ForLLM result) h)
      end
  end.

Definition ExecuteHeartbeatWithTools (hs : HeartbeatService) (prompt : string)
    : Host → outcome Host :=
  executeHeartbeatWithTools hs prompt.

Definition checkHeartbeat (hs : HeartbeatService) (h : Host) : outcome Host :=
  if negb (enabled hs) || negb (running hs) then Returns h
  else
    let '(prompt, h) := buildPrompt hs h in
    match onHeartbeatWithTools hs with
    | Some _ => executeHeartbeatWithTools hs prompt h
    | None =>
        match onHeartbeat hs with
        | Some handler =>
            let h := called legacy_handler prompt h in
            match snd (handler prompt) with
            | Some err => Returns (log hs ("Heartbeat error: " +:+ err) h)
            | None => Returns h
            end
        | None => Returns h
        end
    end.

End Heartbeat.

(** * More sample states *)

Module MoreSamples.
Import GoJSON Samples.

(** The store of [chatted] on an engine that fails the third call it
    receives. *)
Definition flaky : World := set_faults [false; false; true] chatted.

(** A store in which a row of [messages] holds a text that is no JSON. *)
Definition corrupt_row : MessageRow :=
  mkMessageRow 1%Z "s1" 1%Z "assistant" "Searching..." (Some "{oops")
    EmptyString 0%Z.

Definition corrupted : World :=
  mkWorld (mkDB [mkSessionRow "s1" EmptyString 0%Z 0%Z] [corrupt_row] 2%Z)
    None [] clock 0 DirMissing.

(** The file of the legacy directory whose name differs from its key. *)
Definition telegram_file : File :=
  mkFile "telegram_123.json" false (Some (session_text tools_session)) false.

(** The legacy directory next to a store that already holds the session
    of [telegram_file]. *)
Definition reimport : World :=
  set_fs (DirOf legacy_files) (snd (importSession tools_session fresh)).

End MoreSamples.

(** * Properties *)

(** ** The discipline of transactions *)

Ltac unfold_M :=
  repeat progress
    unfold mbind, M_bind, mret, M_ret, Errorf, defer, attempt, fail, lift,
      BeginTx, open_tx, Commit, Rollback, Exec, Query, QueryRow, run_stmt,
      read_rows, engine_call, time_Now in *.

Ltac unfold_set :=
  unfold set_db, set_tx, set_faults, set_ticks, set_fs in *.


Create HintDb tx discriminated.

Lemma tx_step_ret {A} (a : A) : tx_step (mret a).
Proof. intros w r w' [= <- <-]. done. Qed.

Lemma tx_step_fail {A} (e : error) : tx_step (@fail A e).
Proof. intros w r w' [= <- <-]. done. Qed.

Lemma tx_step_lift {A} (x : result A) : tx_step (lift x).
Proof. intros w r w' [= <- <-]. done. Qed.

Lemma tx_step_bind {A B} (m : M A) (f : A → M B) :
  tx_step m → (∀ a, tx_step (f a)) → tx_step (m ≫= f).
Proof.
  intros Hm Hf w r w'. unfold mbind, M_bind.
  destruct (m w) as [[a|e] w1] eqn:E; intros Hr.
  - rewrite (Hf _ _ _ _ Hr). eauto.
  - injection Hr as <- <-. eauto.
Qed.

Lemma tx_step_Errorf {A} (context : string) (m : M A) :
  tx_step m → tx_step (Errorf context m).
Proof.
  intros Hm w r w'. unfold Errorf.
  destruct (m w) as [[a|e] w1] eqn:E; intros [= <- <-]; eauto.
Qed.

Lemma tx_step_engine_call : tx_step engine_call.
Proof.
  intros w r w'. unfold engine_call.
  destruct (w_faults w) as [|[] fs]; intros [= <- <-]; done.
Qed.

Lemma tx_step_time_Now : tx_step time_Now.
Proof. intros w r w' [= <- <-]. done. Qed.

Lemma tx_step_run_stmt (stmt : DB → result DB) : tx_step (run_stmt stmt).
Proof.
  intros w r w'. unfold run_stmt.
  destruct (stmt (w_db w)); intros [= <- <-]; done.
Qed.

Lemma tx_step_read_rows {A} (q : DB → A) : tx_step (read_rows q).
Proof. intros w r w' [= <- <-]. done. Qed.

Lemma tx_step_Exec (stmt : DB → result DB) : tx_step (Exec stmt).
Proof.
  apply tx_step_bind; [apply tx_step_engine_call|].
  intros _. apply tx_step_run_stmt.
Qed.

Lemma tx_step_Query {A} (q : DB → A) : tx_step (Query q).
Proof.
  apply tx_step_bind; [apply tx_step_engine_call|].
  intros _. apply tx_step_read_rows.
Qed.

Global Hint Resolve tx_step_ret tx_step_fail tx_step_lift tx_step_Errorf
  tx_step_engine_call tx_step_time_Now tx_step_Exec tx_step_Query : tx.

Ltac tx_steps :=
  repeat first
    [ progress eauto with tx
    | apply tx_step_bind
    | apply tx_step_Errorf
    | match goal with
      | |- ∀ _, tx_step _ => intros ?
      | |- tx_step (if bool_decide _ then _ else _) => case_bool_decide
      | |- tx_step (match ?x with _ => _ end) => destruct x
      end ].

Lemma tx_final_Commit : tx_final Commit.
Proof.
  intros w snapshot r w' Htx. unfold Commit. rewrite Htx.
  unfold engine_call.
  destruct (w_faults w) as [|[] fs]; intros [= <- <-]; simpl; auto.
Qed.

Lemma tx_final_bind {A B} (m : M A) (f : A → M B) :
  tx_step m → (∀ a, tx_final (f a)) → tx_final (m ≫= f).
Proof.
  intros Hm Hf w snapshot r w' Htx. unfold mbind, M_bind.
  destruct (m w) as [[a|e] w1] eqn:E; intros Hr.
  - apply (Hf a w1 snapshot r w'); [|done].
    by rewrite (Hm _ _ _ E).
  - injection Hr as <- <-. left. by rewrite (Hm _ _ _ E).
Qed.

(** [defer tx.Rollback()] around a body that ends in [tx.Commit()]. *)
Lemma defer_Rollback_final {A} (body : M A) w snapshot r w' :
  tx_final body → w_tx w = Some snapshot →
  defer Rollback body w = (r, w') →
  w_tx w' = None ∧ (is_ok r = false → w_db w' = snapshot).
Proof.
  intros Hbody Htx. unfold defer.
  destruct (body w) as [r1 w1] eqn:E.
  specialize (Hbody w snapshot r1 w1 Htx E).
  unfold Rollback.
  destruct r1 as [a|e].
  - rewrite Hbody. intros [= <- <-]. done.
  - destruct Hbody as [Hopen|[Hdone Hdb]].
    + rewrite Hopen. intros [= <- <-]. done.
    + rewrite Hdone. intros [= <- <-]. done.
Qed.

Lemma BeginTx_spec w r w' :
  w_tx w = None → BeginTx w = (r, w') →
  w_db w' = w_db w ∧
  match r with
  | Ok _ => w_tx w' = Some (w_db w)
  | Err _ => w_tx w' = None
  end.
Proof.
  intros Htx. unfold BeginTx, mbind, M_bind, engine_call, open_tx.
  destruct (w_faults w) as [|[] fs]; simpl; rewrite ?Htx;
    intros [= <- <-]; done.
Qed.

(** Every mutation of the store has this shape: it leaves no transaction
    open, and an error return leaves the database as it was. *)
Lemma transaction_atomic {A} (begin : M unit) (body : M A) w r w' :
  (∀ v r1 v1, w_tx v = None → begin v = (r1, v1) →
     w_db v1 = w_db v ∧
     match r1 with Ok _ => w_tx v1 = Some (w_db v) | Err _ => w_tx v1 = None end) →
  tx_final body → w_tx w = None →
  (begin ;; defer Rollback body) w = (r, w') →
  w_tx w' = None ∧ (is_ok r = false → w_db w' = w_db w).
Proof.
  intros Hbegin Hbody Htx. unfold mbind, M_bind.
  destruct (begin w) as [[[]|e] w1] eqn:E; intros Hr.
  - destruct (Hbegin _ _ _ Htx E) as [Hdb Hopen].
    by apply (defer_Rollback_final body w1).
  - injection Hr as <- <-.
    destruct (Hbegin _ _ _ Htx E) as [Hdb Hnone]. done.
Qed.

Lemma begin_plain v r1 v1 :
  w_tx v = None → BeginTx v = (r1, v1) →
  w_db v1 = w_db v ∧
  match r1 with Ok _ => w_tx v1 = Some (w_db v) | Err _ => w_tx v1 = None end.
Proof. apply BeginTx_spec. Qed.

Lemma begin_wrapped context v r1 v1 :
  w_tx v = None → Errorf context BeginTx v = (r1, v1) →
  w_db v1 = w_db v ∧
  match r1 with Ok _ => w_tx v1 = Some (w_db v) | Err _ => w_tx v1 = None end.
Proof.
  intros Htx. unfold Errorf.
  destruct (BeginTx v) as [[a|e] v'] eqn:E; intros [= <- <-];
    apply (BeginTx_spec _ _ _ Htx E).
Qed.

Ltac tx_finals :=
  repeat first
    [ apply tx_final_Commit
    | apply tx_final_bind; [solve [tx_steps]|intros ?]
    | match goal with
      | |- tx_final (if bool_decide _ then _ else _) => case_bool_decide
      end ].

Section Atomicity.
Context {ToolCall : Type} `{!JSON ToolCall}.

Lemma tx_step_ensureSession key : tx_step (ensureSession key).
Proof. unfold ensureSession. tx_steps. Qed.

Lemma tx_step_touchSession key : tx_step (touchSession key).
Proof. unfold touchSession. tx_steps. Qed.

Lemma tx_step_nextSeq key : tx_step (nextSeq key).
Proof. unfold nextSeq. tx_steps. Qed.

Lemma tx_step_insert_history key now i (history : list (Message ToolCall)) :
  tx_step (insert_history key now i history).
Proof.
  revert i. induction history as [|msg rest IH]; intros i; simpl; tx_steps.
Qed.

Lemma tx_step_import_messages key now i (msgs : list (Message ToolCall)) :
  tx_step (import_messages key now i msgs).
Proof.
  revert i. induction msgs as [|msg rest IH]; intros i; simpl; tx_steps.
Qed.

#[local] Hint Resolve tx_step_ensureSession tx_step_touchSession
  tx_step_nextSeq tx_step_insert_history tx_step_import_messages : tx.

Lemma AddFullMessage_tx key (msg : Message ToolCall) w r w' :
  w_tx w = None → AddFullMessage key msg w = (r, w') →
  w_tx w' = None ∧ (is_ok r = false → w_db w' = w_db w).
Proof.
  apply transaction_atomic; [apply begin_wrapped|]. tx_finals.
Qed.

Lemma SetSummary_tx key summary w r w' :
  w_tx w = None → SetSummary key summary w = (r, w') →
  w_tx w' = None ∧ (is_ok r = false → w_db w' = w_db w).
Proof.
  apply transaction_atomic; [apply begin_wrapped|]. tx_finals.
Qed.

Lemma TruncateHistory_tx key keepLast w r w' :
  w_tx w = None → TruncateHistory key keepLast w = (r, w') →
  w_tx w' = None ∧ (is_ok r = false → w_db w' = w_db w).
Proof.
  apply transaction_atomic; [apply begin_wrapped|]. tx_finals.
Qed.

Lemma SetHistory_tx key (history : list (Message ToolCall)) w r w' :
  w_tx w = None → SetHistory key history w = (r, w') →
  w_tx w' = None ∧ (is_ok r = false → w_db w' = w_db w).
Proof.
  apply transaction_atomic; [apply begin_wrapped|]. tx_finals.
Qed.

Lemma importSession_tx (sess : jsonSession ToolCall) w r w' :
  w_tx w = None → importSession sess w = (r, w') →
  w_tx w' = None ∧ (is_ok r = false → w_db w' = w_db w).
Proof.
  apply transaction_atomic; [apply begin_plain|]. tx_finals.
Qed.

End Atomicity.

Global Hint Resolve tx_step_ensureSession tx_step_touchSession
  tx_step_nextSeq tx_step_insert_history tx_step_import_messages : tx.

(** ** Facts about the SQL statements *)

Global Instance seq_le_trans : Transitive seq_le.
Proof. intros a b c. unfold seq_le. lia. Qed.
Global Instance seq_le_total : Total seq_le.
Proof. intros a b. unfold seq_le. lia. Qed.
Global Instance seq_ge_trans : Transitive seq_ge.
Proof. intros a b c. unfold seq_ge. lia. Qed.
Global Instance seq_ge_total : Total seq_ge.
Proof. intros a b. unfold seq_ge. lia. Qed.

Lemma NoDup_fmap_eq {A B} (f : A → B) (l : list A) x y :
  NoDup (f <$> l) → x ∈ l → y ∈ l → f x = f y → x = y.
Proof.
  induction l as [|a l IH]; simpl; intros Hnd Hx Hy Hf.
  - by apply elem_of_nil in Hx.
  - apply NoDup_cons in Hnd as [Ha Hnd].
    apply elem_of_cons in Hx as [->|Hx], Hy as [->|Hy]; auto.
    + exfalso. apply Ha. rewrite Hf. by apply list_elem_of_fmap_2.
    + exfalso. apply Ha. rewrite <- Hf. by apply list_elem_of_fmap_2.
Qed.

(** Rows with pairwise distinct [seq] have one ascending arrangement. *)
Lemma sorted_seq_unique (R : relation MessageRow) `{!Transitive R} l1 l2 :
  (∀ a b, R a b → R b a → m_seq a = m_seq b) →
  NoDup (m_seq <$> l2) →
  Sorted R l1 → Sorted R l2 → l1 ≡ₚ l2 → l1 = l2.
Proof.
  intros Hanti Hnd H1 H2 Hp.
  apply (Sorted_unique_strong R); [|done..].
  intros x1 x2 Hx1 Hx2 Hle Hge.
  apply (NoDup_fmap_eq m_seq l2); auto.
  by rewrite <- Hp.
Qed.

Lemma seq_le_anti a b : seq_le a b → seq_le b a → m_seq a = m_seq b.
Proof. unfold seq_le. lia. Qed.

Lemma seq_ge_anti a b : seq_ge a b → seq_ge b a → m_seq a = m_seq b.
Proof. unfold seq_ge. lia. Qed.

Lemma order_asc_sorted l :
  Sorted seq_le l → NoDup (m_seq <$> l) → merge_sort seq_le l = l.
Proof.
  intros Hs Hnd.
  apply (sorted_seq_unique seq_le); auto using seq_le_anti.
  - apply (Sorted_merge_sort seq_le).
  - apply merge_sort_Permutation.
Qed.

Lemma order_desc_reverse l :
  NoDup (m_seq <$> l) →
  merge_sort seq_ge l = reverse (merge_sort seq_le l).
Proof.
  intros Hnd.
  apply (sorted_seq_unique seq_ge); auto using seq_ge_anti.
  - by rewrite fmap_reverse, reverse_Permutation,
      (merge_sort_Permutation seq_le l).
  - apply (Sorted_merge_sort seq_ge).
  - apply (Sorted_reverse seq_le), (Sorted_merge_sort seq_le).
  - rewrite reverse_Permutation.
    by rewrite (merge_sort_Permutation seq_ge), (merge_sort_Permutation seq_le).
Qed.

Lemma StronglySorted_filter {A} (R : relation A) (P : A → Prop)
    `{!∀ x, Decision (P x)} (l : list A) :
  StronglySorted R l → StronglySorted R (filter P l).
Proof.
  induction 1 as [|x l Hl IH Hx]; [constructor|].
  rewrite filter_cons. case_decide; [|done].
  constructor; [done|].
  apply Forall_forall. intros y Hy.
  apply list_elem_of_filter in Hy as [_ Hy].
  rewrite Forall_forall in Hx. auto.
Qed.

Lemma order_asc_filter (P : MessageRow → Prop) `{!∀ x, Decision (P x)} l :
  NoDup (m_seq <$> l) →
  merge_sort seq_le (filter P l) = filter P (merge_sort seq_le l).
Proof.
  intros Hnd.
  apply (sorted_seq_unique seq_le); auto using seq_le_anti.
  - apply (sublist_NoDup _ (m_seq <$> merge_sort seq_le l)).
    + by rewrite (merge_sort_Permutation seq_le l).
    + apply fmap_sublist, sublist_filter.
  - apply (Sorted_merge_sort seq_le).
  - apply StronglySorted_Sorted, StronglySorted_filter.
    apply (StronglySorted_merge_sort seq_le).
  - by rewrite !(merge_sort_Permutation seq_le).
Qed.

Lemma order_asc_snoc l x :
  NoDup (m_seq <$> l) → (∀ r, r ∈ l → (m_seq r < m_seq x)%Z) →
  merge_sort seq_le (l ++ [x]) = merge_sort seq_le l ++ [x].
Proof.
  intros Hnd Hlt.
  assert (∀ r, r ∈ merge_sort seq_le l → (m_seq r < m_seq x)%Z) as Hlt'.
  { intros r Hr. apply Hlt. by rewrite <- (merge_sort_Permutation seq_le l). }
  apply (sorted_seq_unique seq_le); auto using seq_le_anti.
  - rewrite fmap_app. apply NoDup_app. split_and!.
    + by rewrite (merge_sort_Permutation seq_le l).
    + intros s Hs [->|[]%elem_of_nil]%elem_of_cons.
      apply list_elem_of_fmap in Hs as (r & Hr & Hin).
      apply Hlt' in Hin. simpl in Hr. lia.
    + apply NoDup_singleton.
  - apply (Sorted_merge_sort seq_le).
  - apply Sorted_snoc; [apply (Sorted_merge_sort seq_le)|].
    destruct (merge_sort seq_le l) as [|a k _] using rev_ind; [constructor|].
    constructor. unfold seq_le.
    assert (m_seq a < m_seq x)%Z; [|lia].
    apply Hlt'. rewrite elem_of_app. right. by left.
  - rewrite !(merge_sort_Permutation seq_le). done.
Qed.

(** What [MAX(seq)] returns. *)
Lemma max_seq_None rows : max_seq rows = None ↔ rows = [].
Proof. destruct rows; simpl; split; done. Qed.

Lemma max_seq_Some rows m :
  max_seq rows = Some m →
  (∃ r, r ∈ rows ∧ m_seq r = m) ∧ ∀ r, r ∈ rows → (m_seq r ≤ m)%Z.
Proof.
  revert m. induction rows as [|a rows IH]; simpl; [done|].
  intros m [= <-]. destruct (max_seq rows) as [m'|] eqn:E.
  - destruct (IH m' eq_refl) as [(r & Hr & Hm) Hle]. split.
    + destruct (Z.max_spec (m_seq a) m') as [[_ ->]|[_ ->]].
      * exists r. split; [by right|done].
      * exists a. split; [by left|done].
    + intros r' [->|Hin]%elem_of_cons; [lia|].
      specialize (Hle _ Hin). lia.
  - apply max_seq_None in E as ->. split.
    + exists a. split; [by left|done].
    + intros r' [->|[]%elem_of_nil]%elem_of_cons. lia.
Qed.

Lemma messages_insert_or_ignore key s c u db :
  messages (insert_or_ignore_session key s c u db) = messages db.
Proof. unfold insert_or_ignore_session. by destruct (has_session key db). Qed.

Lemma next_id_insert_or_ignore key s c u db :
  next_id (insert_or_ignore_session key s c u db) = next_id db.
Proof. unfold insert_or_ignore_session. by destruct (has_session key db). Qed.

Lemma has_session_insert_or_ignore key s c u db :
  has_session key (insert_or_ignore_session key s c u db) = true.
Proof.
  unfold insert_or_ignore_session.
  destruct (has_session key db) eqn:E; [done|].
  unfold has_session. simpl. apply bool_decide_eq_true.
  rewrite fmap_app. apply elem_of_app. right. simpl. by left.
Qed.

Lemma touch_absent now key (ss : list SessionRow) :
  key ∉ s_key <$> ss →
  (λ s, if decide (s_key s = key)
        then mkSessionRow (s_key s) (s_summary s) (s_created_at s) now
        else s) <$> ss = ss.
Proof.
  induction ss as [|s ss IH]; csimpl; [done|].
  intros Hnot. apply not_elem_of_cons in Hnot as [Hne Hnot].
  rewrite decide_False by done. by rewrite IH.
Qed.

Lemma touch_keys now key (ss : list SessionRow) :
  s_key <$> ((λ s, if decide (s_key s = key)
                   then mkSessionRow (s_key s) (s_summary s) (s_created_at s) now
                   else s) <$> ss) = s_key <$> ss.
Proof.
  induction ss as [|s ss IH]; csimpl; [done|].
  rewrite IH. by case_decide.
Qed.

Lemma has_session_update_updated_at now key k db :
  has_session k (update_updated_at now key db) = has_session k db.
Proof. unfold has_session, update_updated_at. simpl. by rewrite touch_keys. Qed.

Lemma select_summary_absent key db :
  has_session key db = false → select_summary key db = None.
Proof.
  unfold has_session, select_summary. intros Hk%bool_decide_eq_false.
  destruct (filter _ (sessions db)) as [|s l] eqn:E; [done|].
  exfalso. apply Hk.
  assert (s ∈ filter (λ s, s_key s = key) (sessions db)) as Hin
    by (rewrite E; by left).
  apply list_elem_of_filter in Hin as [<- Hin].
  by apply list_elem_of_fmap_2.
Qed.


Lemma NoDup_fmap_filter {A B} (f : A → B) (P : A → Prop)
    `{!∀ x, Decision (P x)} (l : list A) :
  NoDup (f <$> l) → NoDup (f <$> filter P l).
Proof.
  intros Hnd. apply (sublist_NoDup _ (f <$> l)); [exact Hnd|].
  apply fmap_sublist, sublist_filter.
Qed.

Lemma consistent_ids key db :
  db_consistent db → NoDup (m_id <$> messages_of key db).
Proof. intros (_ & Hid & _). by apply NoDup_fmap_filter. Qed.

Lemma consistent_seqs key db :
  db_consistent db → NoDup (m_seq <$> messages_of key db).
Proof.
  intros (_ & _ & Hseq & _). unfold messages_of.
  apply (NoDup_fmap_filter _ (λ r, m_session_key r = key)) in Hseq.
  apply NoDup_fmap_2_strong; [|by apply NoDup_fmap_1 in Hseq].
  intros x y Hx Hy Hs.
  apply (NoDup_fmap_eq _ _ _ _ Hseq Hx Hy).
  apply list_elem_of_filter in Hx as [-> _].
  apply list_elem_of_filter in Hy as [-> _].
  by rewrite Hs.
Qed.

(** ** Runs without engine faults *)

Section Runs.
Context {ToolCall : Type} `{!JSON ToolCall}.

Lemma foldl_slice_append (l ms : list (Message ToolCall)) :
  foldl slice_append (slice_of l) ms = slice_of (l ++ ms).
Proof.
  revert l. induction ms as [|m ms IH]; intros l; simpl.
  - by rewrite app_nil_r.
  - rewrite IH. by rewrite <- app_assoc.
Qed.

Lemma scan_rows_eq rows (acc : slice (Message ToolCall)) w :
  scan_rows rows acc w =
    (match rows_messages rows with
     | Ok ms => Ok (foldl slice_append acc ms)
     | Err e => Err e
     end, w).
Proof.
  revert acc. induction rows as [|r rows IH]; intros acc; simpl; [done|].
  unfold row_message. unfold_M.
  destruct (m_tool_calls_json r) as [s|]; simpl.
  - case_bool_decide; simpl.
    + destruct (json_Unmarshal s); simpl; [|done].
      rewrite IH. by destruct (rows_messages rows).
    + rewrite IH. by destruct (rows_messages rows).
  - rewrite IH. by destruct (rows_messages rows).
Qed.

Lemma GetHistory_eq key w :
  w_faults w = [] →
  GetHistory key w =
    (match rows_messages (select_messages key (w_db w)) with
     | Ok ms => Ok (slice_of ms)
     | Err e => Err e
     end, w).
Proof.
  destruct w as [db tx fl ck tk fs]. simpl. intros ->.
  unfold GetHistory. unfold_M. simpl. rewrite scan_rows_eq.
  destruct (rows_messages _) as [ms|e]; simpl; [|done].
  destruct ms as [|m ms]; simpl; [done|].
  by rewrite foldl_slice_append.
Qed.

Lemma GetSummary_eq key w :
  w_faults w = [] →
  GetSummary key w = (Ok (default EmptyString (select_summary key (w_db w))), w).
Proof.
  destruct w as [db tx fl ck tk fs]. simpl. intros ->.
  unfold GetSummary. unfold_M. simpl.
  by destruct (select_summary key db).
Qed.

Lemma TruncateHistory_run key keepLast w :
  quiet w →
  TruncateHistory key keepLast w =
    (Ok tt,
     set_ticks (S (w_ticks w))
       (set_db (update_updated_at (w_clock w (w_ticks w)) key
                  (if bool_decide (keepLast ≤ 0)%Z
                   then delete_messages key (w_db w)
                   else delete_messages_except_last key keepLast (w_db w))) w)).
Proof.
  destruct w as [db tx fl ck tk fs]. intros [Hf Ht]; simpl in *; subst.
  unfold TruncateHistory, touchSession. unfold_M.
  case_bool_decide; done.
Qed.

Lemma AddFullMessage_run key (msg : Message ToolCall) w tcj db1 :
  quiet w →
  stored_json (ToolCalls msg) = Ok tcj →
  insert_message key (next_seq_of key (w_db w)) (Role msg) (Content msg) tcj
    (ToolCallID msg) (w_clock w (S (w_ticks w)))
    (insert_or_ignore_session key EmptyString (w_clock w (w_ticks w))
       (w_clock w (w_ticks w)) (w_db w)) = Ok db1 →
  AddFullMessage key msg w =
    (Ok tt, set_ticks (3 + w_ticks w)
              (set_db (update_updated_at (w_clock w (S (S (w_ticks w)))) key db1) w)).
Proof.
  destruct w as [db tx fl ck tk fs]. intros [Hf Ht]; simpl in *; subst.
  unfold stored_json, next_seq_of. intros Hj Hins.
  unfold AddFullMessage, ensureSession, nextSeq, touchSession.
  unfold_M. simpl.
  assert (select_max_seq key
            (insert_or_ignore_session key EmptyString (ck tk) (ck tk) db)
          = select_max_seq key db) as ->.
  { unfold select_max_seq, messages_of. by rewrite messages_insert_or_ignore. }
  destruct (select_max_seq key db) as [m|]; simpl;
    (case_bool_decide; simpl;
     [destruct (json_Marshal (ToolCalls msg)); simplify_eq; simpl|simplify_eq];
     unfold mbind, M_bind; simpl; rewrite Hins; done).
Qed.

Lemma SetSummary_run key summary w :
  quiet w →
  SetSummary key summary w =
    (Ok tt,
     set_ticks (2 + w_ticks w)
       (set_db (update_summary summary (w_clock w (S (w_ticks w))) key
                  (insert_or_ignore_session key EmptyString
                     (w_clock w (w_ticks w)) (w_clock w (w_ticks w)) (w_db w))) w)).
Proof.
  destruct w as [db tx fl ck tk fs]. intros [Hf Ht]; simpl in *; subst.
  unfold SetSummary, ensureSession. unfold_M. done.
Qed.

End Runs.

(** ** Truncation *)

Lemma filter_all {A} (P : A → Prop) `{!∀ x, Decision (P x)} (l : list A) :
  (∀ x, x ∈ l → P x) → filter P l = l.
Proof.
  induction l as [|a l IH]; intros Hall; [done|].
  rewrite filter_cons_True by (apply Hall; by left).
  rewrite IH; [done|]. intros x Hx. apply Hall. by right.
Qed.

Lemma filter_none {A} (P : A → Prop) `{!∀ x, Decision (P x)} (l : list A) :
  (∀ x, x ∈ l → ¬ P x) → filter P l = [].
Proof.
  induction l as [|a l IH]; intros Hnone; [done|].
  rewrite filter_cons_False by (apply Hnone; by left).
  apply IH. intros x Hx. apply Hnone. by right.
Qed.

(** Selecting by the identifiers of a suffix selects the suffix. *)
Lemma filter_drop_ids {A B} `{!EqDecision B} (f : A → B) (l : list A) k :
  NoDup (f <$> l) →
  filter (λ x, f x ∈ f <$> drop k l) l = drop k l.
Proof.
  intros Hnd.
  rewrite <- (take_drop k l) in Hnd. rewrite fmap_app in Hnd.
  apply NoDup_app in Hnd as (_ & Hdisj & _).
  assert (filter (λ x, f x ∈ f <$> drop k l) (take k l ++ drop k l)
          = drop k l) as Heq; [|by rewrite take_drop in Heq].
  rewrite filter_app.
  rewrite filter_none, filter_all; [done| |].
  - intros x Hx. by apply list_elem_of_fmap_2.
  - intros x Hx Hin. apply (Hdisj (f x)); [|done].
    by apply list_elem_of_fmap_2.
Qed.

Lemma truncate_rows key limit db :
  (0 < limit)%Z → db_consistent db →
  select_messages key (delete_messages_except_last key limit db)
  = last_n (Z.to_nat limit) (select_messages key db).
Proof.
  intros Hpos Hdb.
  pose proof (consistent_seqs key db Hdb) as Hseq.
  pose proof (consistent_ids key db Hdb) as Hid.
  unfold select_messages, delete_messages_except_last, select_last_ids, last_n.
  unfold messages_of at 1. simpl.
  rewrite list_filter_filter.
  rewrite (list_filter_iff _
    (λ r, m_id r ∈ m_id <$> take (Z.to_nat limit)
                      (merge_sort seq_ge (messages_of key db))
          ∧ m_session_key r = key)).
  2:{ intros r. split.
      - intros [Hk Hnot]. split; [|done].
        destruct (decide (m_id r ∈ m_id <$> take (Z.to_nat limit)
                   (merge_sort seq_ge (messages_of key db)))); [done|].
        exfalso. apply Hnot. done.
      - intros [Hin Hk]. split; [done|]. intros [_ Hnot]. done. }
  rewrite <- list_filter_filter. fold (messages_of key db).
  rewrite order_asc_filter by done.
  rewrite order_desc_reverse by done.
  rewrite take_reverse, fmap_reverse.
  rewrite (list_filter_iff _
    (λ r, m_id r ∈ m_id <$> drop (length (merge_sort seq_le (messages_of key db))
                                   - Z.to_nat limit)
                              (merge_sort seq_le (messages_of key db)))).
  2:{ intros r. by rewrite elem_of_reverse. }
  apply filter_drop_ids.
  by rewrite (merge_sort_Permutation seq_le).
Qed.

Lemma messages_of_update_updated_at now key k db :
  messages_of k (update_updated_at now key db) = messages_of k db.
Proof. done. Qed.

Lemma select_messages_update_updated_at now key k db :
  select_messages k (update_updated_at now key db) = select_messages k db.
Proof. done. Qed.

Lemma delete_rows key db :
  messages_of key (delete_messages key db) = [].
Proof.
  unfold messages_of, delete_messages. simpl.
  rewrite list_filter_filter. apply filter_none.
  intros r _ [Hk Hne]. done.
Qed.

Section Truncation.
Context {ToolCall : Type} `{!JSON ToolCall}.

Lemma rows_messages_length rows (h : list (Message ToolCall)) :
  rows_messages rows = Ok h → length h = length rows.
Proof.
  revert h. induction rows as [|r rows IH]; simpl; intros h.
  - by intros [= <-].
  - destruct (row_message r) as [m|]; [|done].
    destruct (rows_messages rows) as [ms|]; [|done].
    intros [= <-]. simpl. by rewrite (IH ms).
Qed.

Lemma rows_messages_drop k rows (h : list (Message ToolCall)) :
  rows_messages rows = Ok h → rows_messages (drop k rows) = Ok (drop k h).
Proof.
  revert rows h. induction k as [|k IH]; intros rows h; [done|].
  destruct rows as [|r rows]; simpl.
  - by intros [= <-].
  - destruct (row_message r) as [m|]; [|done].
    destruct (rows_messages rows) as [ms|] eqn:E; [|done].
    intros [= <-]. simpl. by apply IH.
Qed.

Lemma GetHistory_inv key w h w' :
  w_faults w = [] → GetHistory key w = (Ok (slice_of h), w') →
  rows_messages (select_messages key (w_db w)) = Ok h.
Proof.
  intros Hf. rewrite (GetHistory_eq key w Hf).
  destruct (rows_messages _); by intros [= <- <-].
Qed.

End Truncation.

(** ** Implicit creation of sessions *)

Lemma keeps_ret key {A} (a : A) : keeps_session key (mret a).
Proof. intros w b w' Hs [= <- <-]. done. Qed.

Lemma keeps_lift key {A} (x : result A) : keeps_session key (lift x).
Proof. intros w b w' Hs [= _ <-]. done. Qed.

Lemma keeps_bind key {A B} (m : M A) (f : A → M B) :
  keeps_session key m → (∀ a, keeps_session key (f a)) →
  keeps_session key (m ≫= f).
Proof.
  intros Hm Hf w b w' Hs. unfold mbind, M_bind.
  destruct (m w) as [[a|e] w1] eqn:E; [|done].
  intros Hr. apply (Hf a w1 b w'); [|done]. by apply (Hm w a w1).
Qed.

Lemma keeps_Errorf key {A} (context : string) (m : M A) :
  keeps_session key m → keeps_session key (Errorf context m).
Proof.
  intros Hm w b w' Hs. unfold Errorf.
  destruct (m w) as [[a|e] w1] eqn:E; [|done].
  intros [= <- <-]. by apply (Hm w a w1).
Qed.

Lemma keeps_engine_call key : keeps_session key engine_call.
Proof.
  intros w b w' Hs. unfold engine_call.
  destruct (w_faults w) as [|[] fs]; intros [= _ <-]; done.
Qed.

Lemma keeps_time_Now key : keeps_session key time_Now.
Proof. intros w b w' Hs [= _ <-]. done. Qed.

Lemma keeps_Query key {A} (q : DB → A) : keeps_session key (Query q).
Proof.
  apply keeps_bind; [apply keeps_engine_call|].
  intros _ w b w' Hs [= _ <-]. done.
Qed.

Lemma keeps_Exec key (stmt : DB → result DB) :
  (∀ db db', has_session key db = true → stmt db = Ok db' →
     has_session key db' = true) →
  keeps_session key (Exec stmt).
Proof.
  intros Hstmt. apply keeps_bind; [apply keeps_engine_call|].
  intros _ w b w' Hs. unfold run_stmt.
  destruct (stmt (w_db w)) as [db'|] eqn:E; [|done].
  intros [= _ <-]. simpl. eauto.
Qed.

Lemma keeps_Commit key : keeps_session key Commit.
Proof.
  intros w b w' Hs. unfold Commit.
  destruct (w_tx w); [|done]. unfold engine_call.
  destruct (w_faults w) as [|[] fs]; intros [= _ <-]; done.
Qed.

Lemma has_session_insert_message k key seq role content tcj tcid now db db' :
  insert_message key seq role content tcj tcid now db = Ok db' →
  has_session k db' = has_session k db.
Proof.
  unfold insert_message. destruct (negb _); [done|].
  case_bool_decide; [done|]. by intros [= <-].
Qed.


Lemma summary_keys summary now key (ss : list SessionRow) :
  s_key <$> ((λ s, if decide (s_key s = key)
                   then mkSessionRow (s_key s) summary (s_created_at s) now
                   else s) <$> ss) = s_key <$> ss.
Proof.
  induction ss as [|s ss IH]; csimpl; [done|].
  rewrite IH. by case_decide.
Qed.

Lemma has_session_update_summary summary now key k db :
  has_session k (update_summary summary now key db) = has_session k db.
Proof. unfold has_session, update_summary. simpl. by rewrite summary_keys. Qed.

Lemma has_session_insert_or_ignore_mono k key s c u db :
  has_session k db = true →
  has_session k (insert_or_ignore_session key s c u db) = true.
Proof.
  unfold insert_or_ignore_session. destruct (has_session key db); [done|].
  unfold has_session. simpl. rewrite !bool_decide_eq_true.
  rewrite fmap_app, elem_of_app. auto.
Qed.

Section Creation.
Context {ToolCall : Type} `{!JSON ToolCall}.

Lemma ensureSession_creates key w a w' :
  ensureSession key w = (Ok a, w') → has_session key (w_db w') = true.
Proof.
  destruct w as [db tx fl ck tk fs].
  unfold ensureSession. unfold_M. simpl.
  destruct fl as [|[] fl]; simpl; intros ?; simplify_eq/=;
    apply has_session_insert_or_ignore.
Qed.

Lemma keeps_touchSession key k : keeps_session k (touchSession key).
Proof.
  unfold touchSession. apply keeps_bind; [apply keeps_time_Now|].
  intros now. apply keeps_Exec. intros db db' Hs [= <-].
  by rewrite has_session_update_updated_at.
Qed.

Lemma keeps_nextSeq key k : keeps_session k (nextSeq key).
Proof.
  unfold nextSeq. apply keeps_bind; [apply keeps_Query|].
  intros [m|]; apply keeps_ret.
Qed.

Lemma keeps_marshal k (msg : Message ToolCall) context :
  keeps_session k
    (if bool_decide (0 < length (ToolCalls msg))
     then data ← Errorf context (lift (json_Marshal (ToolCalls msg)));
          mret (Some data)
     else mret None).
Proof.
  case_bool_decide; [|apply keeps_ret].
  apply keeps_bind; [apply keeps_Errorf, keeps_lift|].
  intros data. apply keeps_ret.
Qed.

Lemma keeps_insert k key seq role content tcj tcid now :
  keeps_session k (Exec (insert_message key seq role content tcj tcid now)).
Proof.
  apply keeps_Exec. intros db db' Hs Hins.
  by rewrite (has_session_insert_message _ _ _ _ _ _ _ _ _ _ Hins).
Qed.

Lemma keeps_insert_history k key now i (history : list (Message ToolCall)) :
  keeps_session k (insert_history key now i history).
Proof.
  revert i. induction history as [|msg rest IH]; intros i; simpl.
  - apply keeps_ret.
  - apply keeps_bind; [apply keeps_marshal|]. intros tcj.
    apply keeps_bind; [apply keeps_Errorf, keeps_insert|]. intros _. apply IH.
Qed.

(** A transaction that starts by ensuring the session row has it on every
    normal return. *)
Lemma transaction_creates key {A} (context : string) (rest : M A) w a w' :
  tx_step (Errorf context (ensureSession key)) →
  tx_final rest → keeps_session key rest → w_tx w = None →
  (Errorf "memory: begin tx" BeginTx ;;
   defer Rollback (Errorf context (ensureSession key) ;; rest)) w = (Ok a, w') →
  has_session key (w_db w') = true.
Proof.
  intros Hstep Hfinal Hkeeps Htx. unfold mbind at 1, M_bind at 1.
  destruct (Errorf "memory: begin tx" BeginTx w) as [[[]|e] w1] eqn:Eb; [|done].
  destruct (begin_wrapped _ _ _ _ Htx Eb) as [_ Hopen].
  unfold defer.
  destruct ((Errorf context (ensureSession key) ;; rest) w1) as [r w2] eqn:Ebody.
  assert (tx_final (Errorf context (ensureSession key) ;; rest)) as Hbody
    by (apply tx_final_bind; auto).
  specialize (Hbody w1 _ r w2 Hopen Ebody).
  destruct r as [b|e].
  - unfold Rollback. rewrite Hbody. intros [= _ <-].
    revert Ebody. unfold mbind, M_bind, Errorf.
    destruct (ensureSession key w1) as [[[]|e] w3] eqn:Ee; [|done].
    intros Hrest. apply (Hkeeps w3 b w2); [|done].
    by apply (ensureSession_creates key w1 ()).
  - destruct (Rollback w2) as [? ?]. done.
Qed.

End Creation.

(** ** Appending rows *)

Lemma wrap_int_small z : (- 2 ^ 63 ≤ z < 2 ^ 63)%Z → wrap_int z = z.
Proof. intros Hz. unfold wrap_int. rewrite Z.mod_small; lia. Qed.

Lemma sorted_consecutive rows a k :
  m_seq <$> rows = seqZ a (Z.of_nat k) → Sorted seq_le rows.
Proof.
  revert a k. induction rows as [|r rows IH]; intros a k Hs; [constructor|].
  destruct k as [|k].
  { rewrite seqZ_nil in Hs by lia. done. }
  rewrite seqZ_cons in Hs by lia. csimpl in Hs.
  injection Hs as Hr Hrest.
  replace (Z.pred (Z.of_nat (S k))) with (Z.of_nat k) in Hrest by lia.
  constructor; [by apply (IH (Z.succ a) k)|].
  destruct rows as [|r' rows]; [constructor|]. constructor.
  destruct k as [|k].
  { rewrite seqZ_nil in Hrest by lia. done. }
  rewrite seqZ_cons in Hrest by lia. csimpl in Hrest.
  injection Hrest as Hr' _. unfold seq_le. lia.
Qed.

Lemma select_consecutive key db k :
  m_seq <$> messages_of key db = seqZ 1 (Z.of_nat k) →
  select_messages key db = messages_of key db.
Proof.
  intros Hs. unfold select_messages. apply order_asc_sorted.
  - by apply (sorted_consecutive _ 1 k).
  - rewrite Hs. apply NoDup_seqZ.
Qed.

Lemma next_seq_fresh key db :
  seq_room key db →
  ∀ r, r ∈ messages_of key db → (m_seq r < next_seq_of key db)%Z.
Proof.
  intros Hroom r Hr. unfold next_seq_of, select_max_seq.
  destruct (max_seq (messages_of key db)) as [m|] eqn:E.
  - apply max_seq_Some in E as [(r0 & Hr0 & Hm) Hle].
    unfold seq_room in Hroom. rewrite Forall_forall in Hroom.
    pose proof (Hroom r0 Hr0) as Hrange. unfold max_int in Hrange.
    rewrite wrap_int_small by lia. specialize (Hle r Hr). lia.
  - apply max_seq_None in E. rewrite E in Hr. by apply elem_of_nil in Hr.
Qed.


Lemma insert_message_appends key seq role content tcj tcid now db :
  has_session key db = true →
  (∀ r, r ∈ messages_of key db → m_seq r ≠ seq) →
  insert_message key seq role content tcj tcid now db
  = Ok (mkDB (sessions db)
             (messages db ++
                [mkMessageRow (next_id db) key seq role content tcj tcid now])
             (next_id db + 1)%Z).
Proof.
  intros Hs Hfresh. unfold insert_message. rewrite Hs. simpl.
  rewrite bool_decide_eq_false_2; [done|].
  intros (r & Hr & Hk & Hseq)%Exists_exists.
  apply (Hfresh r); [|done]. by apply list_elem_of_filter.
Qed.

Lemma messages_of_snoc key ss ms n row :
  m_session_key row = key →
  messages_of key (mkDB ss (ms ++ [row]) n)
  = messages_of key (mkDB ss ms n) ++ [row].
Proof.
  intros Hk. unfold messages_of. simpl.
  by rewrite filter_app, filter_cons_True.
Qed.

Section Appending.
Context {ToolCall : Type} `{!JSON ToolCall}.

Lemma rows_messages_snoc rows row (h : list (Message ToolCall)) m :
  rows_messages rows = Ok h → row_message row = Ok m →
  rows_messages (rows ++ [row]) = Ok (h ++ [m]).
Proof.
  revert h. induction rows as [|r rows IH]; simpl; intros h.
  - intros [= <-] ->. done.
  - destruct (row_message r) as [m'|]; [|done].
    destruct (rows_messages rows) as [ms|]; [|done].
    intros [= <-] Hrow. by rewrite (IH ms eq_refl Hrow).
Qed.

(** A list that round-trips is stored in a form that loads back. *)
Lemma roundtrip_row (msg : Message ToolCall) :
  json_roundtrips (ToolCalls msg) →
  ∃ tcj, stored_json (ToolCalls msg) = Ok tcj ∧
    ∀ id key seq now,
      row_message (mkMessageRow id key seq (Role msg) (Content msg) tcj
                     (ToolCallID msg) now) = Ok msg.
Proof.
  destruct msg as [role content tcs tcid]. simpl.
  unfold stored_json, row_message. intros Hrt.
  case_bool_decide as Hlen.
  - destruct Hrt as [->|(s & Hm & Hne & Hu)]; [simpl in Hlen; lia|].
    rewrite Hm. exists (Some s). split; [done|]. intros. simpl.
    rewrite bool_decide_eq_true_2 by done. by rewrite Hu.
  - exists None. split; [done|]. intros. simpl.
    destruct tcs; [done|]. simpl in Hlen. lia.
Qed.

(** One [AddFullMessage] on a consistent session appends one row whose
    [seq] is above all the others. *)
Lemma AddFullMessage_appends key (msg : Message ToolCall) w tcj :
  quiet w → seq_room key (w_db w) →
  stored_json (ToolCalls msg) = Ok tcj →
  ∃ w1 id now,
    AddFullMessage key msg w = (Ok tt, w1) ∧ quiet w1 ∧
    messages_of key (w_db w1)
    = messages_of key (w_db w) ++
        [mkMessageRow id key (next_seq_of key (w_db w)) (Role msg)
           (Content msg) tcj (ToolCallID msg) now].
Proof.
  intros Hq Hroom Hj.
  pose proof (next_seq_fresh key (w_db w) Hroom) as Hfresh.
  eexists _, _, _. split; [|split].
  - apply (AddFullMessage_run key msg w tcj); [done..|].
    apply insert_message_appends.
    + apply has_session_insert_or_ignore.
    + intros r Hr. unfold messages_of in Hr.
      rewrite messages_insert_or_ignore in Hr.
      specialize (Hfresh r Hr). lia.
  - destruct Hq. done.
  - simpl. rewrite messages_of_update_updated_at.
    rewrite messages_of_snoc by done. f_equal.
    unfold messages_of. simpl. by rewrite messages_insert_or_ignore.
Qed.


End Appending.

(** ** Replacing a history *)

Section Replacing.
Context {ToolCall : Type} `{!JSON ToolCall}.

Lemma marshal_run (tcs : list ToolCall) context tcj w :
  stored_json tcs = Ok tcj →
  (if bool_decide (0 < length tcs)
   then data ← Errorf context (lift (json_Marshal tcs)); mret (Some data)
   else mret None) w = (Ok tcj, w).
Proof.
  unfold stored_json. case_bool_decide.
  - unfold_M. destruct (json_Marshal tcs); by intros [= <-].
  - by intros [= <-].
Qed.

Lemma Exec_run stmt w db' :
  w_faults w = [] → stmt (w_db w) = Ok db' → Exec stmt w = (Ok tt, set_db db' w).
Proof.
  intros Hf Hs. unfold Exec, engine_call, run_stmt, mbind, M_bind.
  by rewrite Hf, Hs.
Qed.

Lemma insert_history_run key now (history : list (Message ToolCall)) :
  ∀ i w prefix,
    w_faults w = [] →
    has_session key (w_db w) = true →
    m_seq <$> messages_of key (w_db w) = seqZ 1 (Z.of_nat i) →
    rows_messages (messages_of key (w_db w)) = Ok prefix →
    Forall (λ m, json_roundtrips (ToolCalls m)) history →
    ∃ db',
      insert_history key now i history w = (Ok tt, set_db db' w) ∧
      sessions db' = sessions (w_db w) ∧
      m_seq <$> messages_of key db' = seqZ 1 (Z.of_nat (i + length history)) ∧
      rows_messages (messages_of key db') = Ok (prefix ++ history).
Proof.
  induction history as [|msg rest IH]; intros i w prefix Hf Hs Hseq Hrows Hrt.
  - exists (w_db w). simpl. rewrite Nat.add_0_r, app_nil_r.
    split_and!; try done. by destruct w.
  - apply Forall_cons in Hrt as [Hmsg Hrt].
    destruct (roundtrip_row msg Hmsg) as (tcj & Hj & Hrow).
    pose (row := mkMessageRow (next_id (w_db w)) key (Z.of_nat i + 1)
                   (Role msg) (Content msg) tcj (ToolCallID msg) now).
    pose (db1 := mkDB (sessions (w_db w)) (messages (w_db w) ++ [row])
                   (next_id (w_db w) + 1)%Z).
    assert (messages_of key db1 = messages_of key (w_db w) ++ [row]) as Hms
      by (by apply messages_of_snoc).
    destruct (IH (S i) (set_db db1 w) (prefix ++ [msg]))
      as (db' & Hrun & Hsess & Hseq' & Hrows').
    + done.
    + done.
    + change (w_db (set_db db1 w)) with db1.
      rewrite Hms, fmap_app, Hseq, seqZ_S. csimpl. do 2 f_equal. lia.
    + change (w_db (set_db db1 w)) with db1.
      rewrite Hms. apply rows_messages_snoc; [done|]. apply Hrow.
    + done.
    + exists db'. split_and!.
      * simpl. unfold mbind at 1, M_bind at 1.
        rewrite (marshal_run _ _ tcj) by done.
        unfold mbind, M_bind, Errorf.
        rewrite (Exec_run _ w db1); [by rewrite Hrun|done|].
        apply insert_message_appends; [done|].
        intros r Hr.
        assert (m_seq r ∈ seqZ 1 (Z.of_nat i)) as Hin
          by (rewrite <- Hseq; by apply list_elem_of_fmap_2).
        apply elem_of_seqZ in Hin. lia.
      * done.
      * by replace (i + length (msg :: rest)) with (S i + length rest)
          by (simpl; lia).
      * by rewrite <- app_assoc in Hrows'.
Qed.


End Replacing.

(** ** Importing one legacy record *)

Section Importing.
Context {ToolCall : Type} `{!JSON ToolCall}.

(** The loop of [importSession] is the loop of [SetHistory] without the
    error contexts. *)
Lemma import_messages_ok key now (msgs : list (Message ToolCall)) :
  ∀ i w w',
    insert_history key now i msgs w = (Ok tt, w') →
    import_messages key now i msgs w = (Ok tt, w').
Proof.
  induction msgs as [|msg rest IH]; intros i w w'; simpl; [done|].
  destruct w as [db tx fl ck tk fs]. unfold_M. simpl.
  case_bool_decide; simpl;
    [destruct (json_Marshal (ToolCalls msg)) as [data|]; simpl; [|done]|];
    (destruct fl as [|[] fl]; simpl; [|done|];
     (destruct (insert_message _ _ _ _ _ _ _ _) as [db1|]; simpl; [|done]);
     apply IH).
Qed.

Lemma importSession_run (sess : jsonSession ToolCall) w :
  quiet w →
  Forall (λ m, json_roundtrips (ToolCalls m)) (Messages sess) →
  ∃ w1,
    importSession sess w = (Ok tt, w1) ∧ quiet w1 ∧ w_fs w1 = w_fs w ∧
    has_session (Key sess) (w_db w1) = true ∧
    (∀ k, has_session k (w_db w) = true → has_session k (w_db w1) = true) ∧
    (messages_of (Key sess) (w_db w) ≠ [] →
       w_db w1 = insert_or_ignore_session (Key sess) (Summary sess)
                   (Created sess) (Updated sess) (w_db w) ∧
       w_ticks w1 = w_ticks w) ∧
    (messages_of (Key sess) (w_db w) = [] →
       m_seq <$> messages_of (Key sess) (w_db w1)
         = seqZ 1 (Z.of_nat (length (Messages sess))) ∧
       rows_messages (messages_of (Key sess) (w_db w1)) = Ok (Messages sess)).
Proof.
  destruct w as [db tx fl ck tk fs]. intros [Hf Ht] Hrt; simpl in *; subst.
  pose (db0 := insert_or_ignore_session (Key sess) (Summary sess)
                 (Created sess) (Updated sess) db).
  assert (messages_of (Key sess) db0 = messages_of (Key sess) db) as Hms0.
  { unfold messages_of, db0. by rewrite messages_insert_or_ignore. }
  unfold importSession. unfold_M. unfold_set. simpl. fold db0.
  unfold select_count. rewrite Hms0.
  case_bool_decide as Hcount.
  - simpl. eexists. split; [done|]. simpl.
    split_and!; try done.
    + apply has_session_insert_or_ignore.
    + intros k. apply has_session_insert_or_ignore_mono.
    + intros Hnone. rewrite Hnone in Hcount. simpl in Hcount. lia.
  - assert (messages_of (Key sess) db = []) as Hnone.
    { destruct (messages_of (Key sess) db); [done|]. simpl in Hcount. lia. }
    destruct (insert_history_run (Key sess) (ck tk) (Messages sess) 0
                (mkWorld db0 (Some db) [] ck (S tk) fs) [])
      as (db' & Hrun & Hsess & Hseq & Hrows); simpl.
    + done.
    + apply has_session_insert_or_ignore.
    + by rewrite Hms0, Hnone.
    + by rewrite Hms0, Hnone.
    + done.
    + apply import_messages_ok in Hrun. unfold_set. simpl in *.
      rewrite Hrun. simpl.
      eexists. split; [done|]. simpl.
      assert (∀ k, has_session k db' = has_session k db0) as Hhas.
      { intros k. unfold has_session. by rewrite Hsess. }
      split_and!; try done.
      * rewrite Hhas. apply has_session_insert_or_ignore.
      * intros k Hk. rewrite Hhas.
        by apply has_session_insert_or_ignore_mono.
Qed.

(** A record whose session already has messages is committed without a
    single change. *)
Lemma importSession_again (sess : jsonSession ToolCall) w :
  quiet w → db_consistent (w_db w) →
  messages_of (Key sess) (w_db w) ≠ [] →
  importSession sess w = (Ok tt, w).
Proof.
  destruct w as [db tx fl ck tk fs]. intros [Hf Ht] Hdb Hsome; simpl in *; subst.
  assert (has_session (Key sess) db = true) as Hhas.
  { destruct (messages_of (Key sess) db) as [|r l] eqn:E; [done|].
    assert (r ∈ messages_of (Key sess) db) as Hr by (rewrite E; by left).
    apply list_elem_of_filter in Hr as [Hk Hr].
    destruct Hdb as (_ & _ & _ & Hfk & _).
    rewrite Forall_forall in Hfk. rewrite <- Hk. by apply Hfk. }
  unfold importSession. unfold_M. unfold_set. simpl.
  unfold insert_or_ignore_session. rewrite Hhas.
  unfold select_count. rewrite bool_decide_eq_true_2; [done|].
  destruct (messages_of (Key sess) db); [done|]. simpl. lia.
Qed.

End Importing.

(** ** File names and the directory *)

Ltac case_eqb E :=
  match goal with
  | |- context [String.eqb ?x ?y] => destruct (String.eqb x y) eqn:E
  end.

Lemma append_cons a s t : String a s +:+ t = String a (s +:+ t).
Proof. done. Qed.

Lemma append_nil t : EmptyString +:+ t = t.
Proof. done. Qed.

Lemma HasSuffix_cons a s t :
  HasSuffix (String a s) t
  = if String.eqb (String a s) t then true else HasSuffix s t.
Proof. done. Qed.

Lemma HasSuffix_nil t :
  HasSuffix EmptyString t = if String.eqb EmptyString t then true else false.
Proof. done. Qed.

Lemma HasSuffix_refl s : HasSuffix s s = true.
Proof.
  destruct s; [done|]. by rewrite HasSuffix_cons, String.eqb_refl.
Qed.

Lemma HasSuffix_app s t : HasSuffix (s +:+ t) t = true.
Proof.
  induction s as [|a s IH]; [apply HasSuffix_refl|].
  rewrite append_cons, HasSuffix_cons, IH. by case_eqb E.
Qed.

Lemma length_app_string s t :
  String.length (s +:+ t) = (String.length s + String.length t)%nat.
Proof.
  induction s as [|a s IH]; [done|].
  rewrite append_cons. simpl. by rewrite IH.
Qed.

Lemma HasSuffix_length s t :
  HasSuffix s t = true → (String.length t ≤ String.length s)%nat.
Proof.
  induction s as [|a s IH]; rewrite ?HasSuffix_cons, ?HasSuffix_nil.
  - case_eqb E; [|done].
    apply String.eqb_eq in E as <-. done.
  - case_eqb E.
    + apply String.eqb_eq in E as <-. done.
    + intros Hs. specialize (IH Hs). simpl. lia.
Qed.

(** A tail of [s +:+ t] is a tail of [t] or ends in the whole of [t]. *)
Lemma HasSuffix_app_inv s t u :
  HasSuffix (s +:+ t) u = true →
  (String.length u ≤ String.length t)%nat ∨ ∃ v, u = v +:+ t.
Proof.
  induction s as [|a s IH]; rewrite ?append_cons, ?append_nil, ?HasSuffix_cons.
  - intros Hs%HasSuffix_length. by left.
  - case_eqb E.
    + apply String.eqb_eq in E as <-. intros _. right. by exists (String a s).
    + apply IH.
Qed.

Lemma migrated_not_json name : json_name (name +:+ ".migrated") = false.
Proof.
  unfold json_name. rewrite HasSuffix_app. simpl. apply andb_false_r.
Qed.

Lemma migrated_fresh name : name ≠ name +:+ ".migrated".
Proof.
  intros Heq. apply (f_equal String.length) in Heq.
  rewrite length_app_string in Heq. simpl in Heq. lia.
Qed.

Lemma json_not_migrated name :
  json_name name = true → ∀ other, name ≠ other +:+ ".migrated".
Proof.
  intros Hj other ->. by rewrite migrated_not_json in Hj.
Qed.

Lemma find_file_Some name files f :
  find_file name files = Some f → f ∈ files ∧ f_name f = name.
Proof.
  unfold find_file. intros Hh.
  apply head_Some_elem_of in Hh. apply list_elem_of_filter in Hh. tauto.
Qed.

Lemma find_file_None name files :
  find_file name files = None → ∀ f, f ∈ files → f_name f ≠ name.
Proof.
  unfold find_file. intros Hh%head_None f Hf Hn.
  assert (f ∈ filter (λ f, f_name f = name) files) as Hin
    by (by apply list_elem_of_filter).
  rewrite Hh in Hin. by apply elem_of_nil in Hin.
Qed.

Lemma find_file_unique name files f :
  NoDup (f_name <$> files) → f ∈ files → f_name f = name →
  find_file name files = Some f.
Proof.
  intros Hnd Hf Hn.
  destruct (find_file name files) as [g|] eqn:E.
  - apply find_file_Some in E as [Hg Hgn]. f_equal.
    apply (NoDup_fmap_eq f_name files); auto. congruence.
  - exfalso. by apply (find_file_None _ _ E f).
Qed.

Lemma elem_of_move_file oldname newname files g :
  g ∈ move_file oldname newname files ↔
  (g ∈ files ∧ f_name g ≠ newname ∧ f_name g ≠ oldname) ∨
  (∃ h, h ∈ files ∧ f_name h = oldname ∧ f_name h ≠ newname ∧
        g = mkFile newname (f_is_dir h) (f_data h) (f_pinned h)).
Proof.
  unfold move_file. rewrite list_elem_of_fmap. split.
  - intros (h & -> & Hh). apply list_elem_of_filter in Hh as [Hne Hh].
    case_decide; [right; by exists h|left; done].
  - intros [(Hg & Hnew & Hold)|(h & Hh & Hold & Hnew & ->)].
    + exists g. rewrite decide_False by done.
      split; [done|]. by apply list_elem_of_filter.
    + exists h. rewrite decide_True by done.
      split; [done|]. by apply list_elem_of_filter.
Qed.

Lemma find_file_move_file oldname newname files name :
  name ≠ oldname → name ≠ newname →
  find_file name (move_file oldname newname files) = find_file name files.
Proof.
  intros Hold Hnew. unfold find_file, move_file. f_equal.
  induction files as [|h files IH]; [done|].
  rewrite (filter_cons (λ h, f_name h ≠ newname)).
  destruct (decide (f_name h ≠ newname)) as [Hn|Hn].
  - rewrite fmap_cons, !filter_cons, IH.
    destruct (decide (f_name h = oldname)) as [Ho|Ho]; simpl.
    + rewrite !decide_False by congruence. done.
    + done.
  - rewrite filter_cons, IH.
    apply dec_stable in Hn. by rewrite decide_False by congruence.
Qed.

Lemma NoDup_move_file oldname newname files :
  NoDup (f_name <$> files) →
  NoDup (f_name <$> move_file oldname newname files).
Proof.
  intros Hnd. unfold move_file.
  assert (NoDup (f_name <$> filter (λ h, f_name h ≠ newname) files)) as Hnd'
    by (by apply NoDup_fmap_filter).
  assert (∀ h, h ∈ filter (λ h, f_name h ≠ newname) files → f_name h ≠ newname)
    as Hne by (intros h Hh; by apply list_elem_of_filter in Hh as [? _]).
  revert Hnd' Hne. generalize (filter (λ h, f_name h ≠ newname) files) as l.
  clear. intros l. induction l as [|h l IH]; csimpl; [constructor|].
  rewrite !NoDup_cons. intros [Hh Hnd] Hne. split.
  - rewrite list_elem_of_fmap. intros (g & Hg & Hin).
    apply list_elem_of_fmap in Hin as (g0 & -> & Hin).
    assert (f_name g0 ≠ newname) by (apply Hne; by right).
    assert (f_name h ≠ newname) by (apply Hne; by left).
    apply Hh. apply list_elem_of_fmap. exists g0. split; [|done].
    repeat case_decide; simpl in *; congruence.
  - apply IH; [done|]. intros g Hg. apply Hne. by right.
Qed.

Lemma find_file_absent name files :
  (∀ g, g ∈ files → f_name g ≠ name) → find_file name files = None.
Proof.
  intros Hall. unfold find_file. rewrite filter_none; [done|].
  intros g Hg. by apply Hall.
Qed.

Lemma append_inj_suffix s1 s2 t : s1 +:+ t = s2 +:+ t → s1 = s2.
Proof.
  revert s2. induction s1 as [|a s1 IH]; intros [|b s2];
    rewrite ?append_cons, ?append_nil; [done| | |].
  - intros Heq. apply (f_equal String.length) in Heq.
    simpl in Heq. rewrite length_app_string in Heq. lia.
  - intros Heq. apply (f_equal String.length) in Heq.
    simpl in Heq. rewrite length_app_string in Heq. lia.
  - intros [= -> Heq]. f_equal. by apply IH.
Qed.

Lemma os_ReadFile_eq name w files :
  w_fs w = DirOf files →
  os_ReadFile name w
  = (match find_file name files with
     | Some f =>
         if f_is_dir f then Err ErrIO
         else match f_data f with
              | Some data => Ok data
              | None => Err ErrIO
              end
     | None => Err ErrNotExist
     end, w).
Proof.
  intros Hfs. unfold os_ReadFile. rewrite Hfs.
  destruct (find_file name files) as [f|]; [|done].
  destruct (f_is_dir f); [done|]. by destruct (f_data f).
Qed.

Lemma os_Rename_spec oldname newname w files r w' :
  w_fs w = DirOf files → os_Rename oldname newname w = (r, w') →
  w_db w' = w_db w ∧ w_tx w' = w_tx w ∧ w_faults w' = w_faults w ∧
  (w_fs w' = DirOf files ∨ w_fs w' = DirOf (move_file oldname newname files)).
Proof.
  intros Hfs. unfold os_Rename. rewrite Hfs.
  destruct (find_file oldname files) as [f|]; [|intros [= <- <-]; auto].
  destruct (f_pinned f); [intros [= <- <-]; auto|].
  case_bool_decide; [intros [= <- <-]; auto|].
  destruct (find_file newname files) as [g|].
  - destruct (f_is_dir g); intros [= <- <-]; simpl; auto.
  - intros [= <- <-]; simpl; auto.
Qed.

Lemma os_Rename_free oldname newname w files f :
  w_fs w = DirOf files → find_file oldname files = Some f →
  f_pinned f = false → oldname ≠ newname →
  (∀ g, find_file newname files = Some g → f_is_dir g = false) →
  os_Rename oldname newname w
  = (Ok tt, set_fs (DirOf (move_file oldname newname files)) w).
Proof.
  intros Hfs Hf Hpin Hne Hdir. unfold os_Rename. rewrite Hfs, Hf, Hpin.
  rewrite bool_decide_eq_false_2 by done.
  destruct (find_file newname files) as [g|]; [|done].
  by rewrite (Hdir g eq_refl).
Qed.

(** ** The loop of the importer *)

Section Migrating.
Context {ToolCall : Type} `{!JSON ToolCall}.

Lemma file_session_Some f (sess : jsonSession ToolCall) :
  file_session f = Some sess →
  f_is_dir f = false ∧
  ∃ data, f_data f = Some data ∧ json_Unmarshal_session data = Ok sess ∧
          Key sess ≠ EmptyString.
Proof.
  unfold file_session. destruct (f_is_dir f); [done|].
  destruct (f_data f) as [data|]; [|done].
  destruct (json_Unmarshal_session data) as [s|] eqn:E; [|done].
  case_bool_decide; [done|]. intros [= <-]. split; [done|]. by exists data.
Qed.

(** An entry that is not a well-formed candidate is passed over: nothing
    changes, whatever the state of the engine. *)
Lemma migrate_entry_skip migrated e w files :
  w_fs w = DirOf files → entry_importable (ToolCall:=ToolCall) files e = false →
  migrate_entry (ToolCall:=ToolCall) migrated e w = (Ok migrated, w).
Proof.
  intros Hfs. unfold entry_importable, json_name, migrate_entry.
  destruct (e_is_dir e); [done|].
  destruct (HasSuffix (e_name e) ".json"); [|done].
  destruct (HasSuffix (e_name e) ".migrated"); [done|]. simpl.
  unfold mbind, M_bind, attempt. rewrite (os_ReadFile_eq _ _ _ Hfs).
  unfold file_session.
  destruct (find_file (e_name e) files) as [f|]; [|done].
  destruct (f_is_dir f); [done|].
  destruct (f_data f) as [data|]; [|done].
  destruct (json_Unmarshal_session data) as [sess|]; [|done].
  destruct (bool_decide (Key sess = EmptyString)); [done|].
  rewrite bool_decide_eq_true_2 by eauto. done.
Qed.

(** A well-formed candidate is imported and counted; the rename that
    follows is attempted and its outcome ignored. *)
Lemma migrate_entry_import migrated e w files f (sess : jsonSession ToolCall) :
  w_fs w = DirOf files → e_is_dir e = false → json_name (e_name e) = true →
  find_file (e_name e) files = Some f → file_session f = Some sess →
  ∀ w1, importSession sess w = (Ok tt, w1) →
  migrate_entry migrated e w
  = (Ok (migrated + 1)%Z,
     snd (os_Rename (e_name e) (e_name e +:+ ".migrated") w1)).
Proof.
  intros Hfs Hdir Hname Hf Hsess w1 Himp.
  apply file_session_Some in Hsess as (Hfdir & data & Hdata & Hparse & Hkey).
  unfold json_name in Hname. apply andb_true_iff in Hname as [Hj Hm].
  apply negb_true_iff in Hm.
  unfold migrate_entry. rewrite Hdir, Hj, Hm. simpl.
  unfold mbind, M_bind, attempt. rewrite (os_ReadFile_eq _ _ _ Hfs).
  rewrite Hf, Hfdir, Hdata, Hparse.
  rewrite bool_decide_eq_false_2 by done. rewrite Himp.
  by destruct (os_Rename _ _ w1).
Qed.

Lemma entry_importable_pending files files0 e :
  (json_name (e_name e) = true →
   find_file (e_name e) files = find_file (e_name e) files0) →
  entry_importable (ToolCall:=ToolCall) files e = entry_importable files0 e.
Proof.
  intros Hsame. unfold entry_importable.
  destruct (negb (e_is_dir e)); [|done].
  destruct (json_name (e_name e)); [|done].
  by rewrite Hsame.
Qed.

Lemma entry_importable_true files e :
  entry_importable (ToolCall:=ToolCall) files e = true →
  e_is_dir e = false ∧ json_name (e_name e) = true ∧
  ∃ f sess, find_file (e_name e) files = Some f ∧ file_session f = Some sess.
Proof.
  unfold entry_importable.
  destruct (e_is_dir e); [done|].
  destruct (json_name (e_name e)); [|done]. simpl.
  destruct (find_file (e_name e) files) as [f|]; [|done].
  intros [sess Hs]%bool_decide_eq_true. split_and!; eauto.
Qed.

Lemma migrate_step files0 done migrated e w :
  candidates_roundtrip (ToolCall:=ToolCall) files0 →
  e_name e ∉ e_name <$> done →
  migrating files0 done migrated w →
  ∃ migrated' w',
    migrate_entry migrated e w = (Ok migrated', w') ∧
    migrating files0 (done ++ [e]) migrated' w'.
Proof.
  intros Hrt Hfresh
    (Hq & files & Hfs & Hnd & Hcount & Hsess & Hpend & Horig & Hfree).
  assert (entry_importable files e = entry_importable files0 e) as Hsame.
  { apply entry_importable_pending. intros Hj. by apply Hpend. }
  destruct (entry_importable files0 e) eqn:Himp.
  - (* a well-formed candidate *)
    destruct (entry_importable_true _ _ Himp) as (Hdir & Hj & f & sess & Hf0 & Hs).
    assert (find_file (e_name e) files = Some f) as Hf
      by (by rewrite Hpend).
    destruct (find_file_Some _ _ _ Hf0) as [Hin0 Hname].
    destruct (find_file_Some _ _ _ Hf) as [Hin _].
    destruct (file_session_Some _ _ Hs) as (Hfdir & _).
    assert (json_name (f_name f) = true) as Hjf by (by rewrite Hname).
    destruct (importSession_run sess w Hq (Hrt f sess Hin0 Hjf Hs))
      as (w1 & Himport & [Hf1 Htx1] & Hfs1 & Hhas & Hmono & _).
    rewrite Hfs in Hfs1.
    pose proof (migrate_entry_import migrated e w files f sess
                  Hfs Hdir Hj Hf Hs w1 Himport) as Hrun.
    destruct (os_Rename (e_name e) (e_name e +:+ ".migrated") w1)
      as [r w2] eqn:Er.
    destruct (os_Rename_spec _ _ _ _ _ _ Hfs1 Er) as (Hdb2 & Htx2 & Hf2 & Hfs2).
    simpl in Hrun.
    assert (∃ files2, w_fs w2 = DirOf files2 ∧
              (files2 = files ∨
               files2 = move_file (e_name e) (e_name e +:+ ".migrated") files) ∧
              (renames_free files →
               files2 = move_file (e_name e) (e_name e +:+ ".migrated") files))
      as (files2 & Hfs2' & Hcases & Hmoved).
    { destruct Hfs2 as [Hsame2|Hmove2].
      - exists files. split_and!; [done|by left|].
        intros Hrf. unfold renames_free in Hrf. rewrite Forall_forall in Hrf.
        rewrite (os_Rename_free _ _ w1 files f) in Er.
        + injection Er as _ <-. simpl in Hsame2. by injection Hsame2.
        + done.
        + done.
        + by apply Hrf.
        + apply migrated_fresh.
        + intros g [Hg Hgn]%find_file_Some. apply Hrf; [done|].
          rewrite Hgn. apply HasSuffix_app.
      - eexists. split_and!; [done|by right|done]. }
    exists (migrated + 1)%Z, w2. split; [done|].
    split; [split; congruence|].
    exists files2. split_and!.
    + done.
    + destruct Hcases as [->| ->]; [done|by apply NoDup_move_file].
    + rewrite filter_app, length_app, filter_cons_True by done.
      simpl. lia.
    + intros e0 f' sess' [He0| ->%list_elem_of_singleton]%elem_of_app Hi0 Hf' Hs'.
      * rewrite Hdb2. apply Hmono. by apply (Hsess e0 f' sess').
      * rewrite Hdb2. by simplify_eq.
    + intros name Hjn Hnot. rewrite fmap_app, not_elem_of_app in Hnot.
      destruct Hnot as [Hnot Hne]. simpl in Hne.
      rewrite not_elem_of_cons in Hne. destruct Hne as [Hne _].
      destruct Hcases as [->| ->]; [by apply Hpend|].
      rewrite find_file_move_file; [by apply Hpend|done|].
      by apply json_not_migrated.
    + intros g Hg Hjg. destruct Hcases as [->| ->]; [by apply Horig|].
      apply elem_of_move_file in Hg as [(Hg & _)|(h & _ & _ & _ & ->)].
      * by apply Horig.
      * simpl in Hjg. by rewrite migrated_not_json in Hjg.
    + intros Hrf0. destruct (Hfree Hrf0) as [Hrf HG].
      rewrite (Hmoved Hrf). split.
      * unfold renames_free in *. rewrite Forall_forall in *.
        intros g [(Hg & _)|(h & Hh & Hhn & _ & ->)]%elem_of_move_file.
        -- by apply Hrf.
        -- simpl. split; [by apply Hrf|]. intros _.
           assert (h = f) as ->; [|done].
           apply (NoDup_fmap_eq f_name files); auto. congruence.
      * intros e0 f' [He0| ->%list_elem_of_singleton]%elem_of_app Hi0 Hf'.
        -- destruct (HG e0 f' He0 Hi0 Hf') as [Hthere Hgone].
           destruct (entry_importable_true _ _ Hi0) as (_ & Hj0 & _).
           assert (e_name e0 ≠ e_name e) as Hne.
           { intros Heq. apply Hfresh. rewrite <- Heq.
             by apply list_elem_of_fmap_2. }
           split.
           ++ apply elem_of_move_file. left. split_and!; [done| |]; simpl.
              ** intros Heq%append_inj_suffix. done.
              ** intros Heq. symmetry in Heq. by apply json_not_migrated in Heq.
           ++ rewrite find_file_move_file; [done|done|].
              by apply json_not_migrated.
        -- assert (f' = f) as -> by congruence. split.
           ++ apply elem_of_move_file. right. exists f.
              split_and!; [done|done| |done].
              rewrite Hname. apply migrated_fresh.
           ++ apply find_file_absent.
              intros g [(_ & _ & Hg)|(h & _ & _ & _ & ->)]%elem_of_move_file;
                [done|]. simpl. intros Heq. symmetry in Heq.
              by apply migrated_fresh in Heq.
  - (* anything else *)
    exists migrated, w. split; [by apply (migrate_entry_skip _ _ _ files)|].
    split; [done|]. exists files. split_and!; try done.
    + rewrite filter_app, length_app, filter_cons_False by congruence.
      simpl. lia.
    + intros e0 f' sess' [He0| ->%list_elem_of_singleton]%elem_of_app Hi0;
        [by apply Hsess|congruence].
    + intros name Hjn Hnot. rewrite fmap_app, not_elem_of_app in Hnot.
      apply Hpend; tauto.
    + intros Hrf0. destruct (Hfree Hrf0) as [Hrf HG]. split; [done|].
      intros e0 f' [He0| ->%list_elem_of_singleton]%elem_of_app Hi0;
        [by apply HG|congruence].
Qed.

Lemma migrate_loop files0 :
  candidates_roundtrip (ToolCall:=ToolCall) files0 →
  ∀ rest done migrated w,
    NoDup (e_name <$> done ++ rest) →
    migrating files0 done migrated w →
    ∃ migrated' w',
      migrate_entries rest migrated w = (Ok migrated', w') ∧
      migrating files0 (done ++ rest) migrated' w'.
Proof.
  intros Hrt. induction rest as [|e rest IH]; intros done migrated w Hnd Hinv.
  - exists migrated, w. by rewrite app_nil_r.
  - destruct (migrate_step files0 done migrated e w Hrt) as (m1 & w1 & Hstep & Hinv1).
    + rewrite fmap_app in Hnd. apply NoDup_app in Hnd as (_ & Hdisj & _).
      intros Hin. apply (Hdisj _ Hin). csimpl. by left.
    + done.
    + destruct (IH (done ++ [e]) m1 w1) as (m2 & w2 & Hrest & Hinv2).
      * by rewrite <- app_assoc.
      * done.
      * exists m2, w2. rewrite <- app_assoc in Hinv2. split; [|done].
        simpl. unfold mbind, M_bind. by rewrite Hstep.
Qed.

Lemma os_ReadFile_world name w r w' : os_ReadFile name w = (r, w') → w' = w.
Proof.
  unfold os_ReadFile.
  destruct (w_fs w) as [| |files]; try by intros [= _ <-].
  destruct (find_file name files) as [f|]; [|by intros [= _ <-]].
  destruct (f_is_dir f); [by intros [= _ <-]|].
  destruct (f_data f); by intros [= _ <-].
Qed.

(** One iteration never fails, and it counts the entry exactly when the
    entry is a candidate that is read, parses, has a key and is imported. *)
Lemma migrate_entry_counts migrated e w :
  ∃ migrated' w',
    migrate_entry (ToolCall:=ToolCall) migrated e w = (Ok migrated', w') ∧
    (migrated' = migrated ∨ migrated' = (migrated + 1)%Z) ∧
    (migrated' = (migrated + 1)%Z ↔
       ∃ data sess w1,
         e_is_dir e = false ∧ json_name (e_name e) = true ∧
         os_ReadFile (e_name e) w = (Ok data, w) ∧
         json_Unmarshal_session data = Ok sess ∧
         Key sess ≠ EmptyString ∧
         importSession sess w = (Ok tt, w1) ∧
         w' = snd (os_Rename (e_name e) (e_name e +:+ ".migrated") w1)).
Proof.
  unfold migrate_entry, json_name.
  destruct (e_is_dir e) eqn:Hdir.
  { exists migrated, w. split_and!; [done|by left|].
    split; [lia|]. by intros (? & ? & ? & ? & _). }
  destruct (HasSuffix (e_name e) ".json") eqn:Hj; simpl.
  2:{ exists migrated, w. split_and!; [done|by left|].
      split; [lia|]. by intros (? & ? & ? & _ & ? & _). }
  destruct (HasSuffix (e_name e) ".migrated") eqn:Hm; simpl.
  { exists migrated, w. split_and!; [done|by left|].
    split; [lia|]. by intros (? & ? & ? & _ & ? & _). }
  unfold mbind, M_bind, attempt.
  destruct (os_ReadFile (e_name e) w) as [[data|err] w0] eqn:Er;
    pose proof (os_ReadFile_world _ _ _ _ Er) as ->.
  2:{ exists migrated, w. split_and!; [done|by left|].
      split; [lia|]. intros (? & ? & ? & _ & _ & ? & _). congruence. }
  destruct (json_Unmarshal_session data) as [sess|err] eqn:Ep.
  2:{ exists migrated, w. split_and!; [done|by left|].
      split; [lia|]. intros (? & ? & ? & _ & _ & ? & ? & _). congruence. }
  case_bool_decide as Hkey.
  { exists migrated, w. split_and!; [done|by left|].
    split; [lia|]. intros (? & ? & ? & _ & _ & ? & ? & ? & _). congruence. }
  destruct (importSession sess w) as [[[]|err] w1] eqn:Ei.
  2:{ exists migrated, w1. split_and!; [done|by left|].
      split; [lia|]. intros (? & ? & ? & _ & _ & ? & ? & _ & ? & _). congruence. }
  destruct (os_Rename (e_name e) (e_name e +:+ ".migrated") w1) as [r w2] eqn:En.
  exists (migrated + 1)%Z, w2. split_and!; [done|by right|].
  split; [|done]. intros _. exists data, sess, w1. by rewrite En.
Qed.

Lemma migrate_entries_total entries :
  ∀ migrated w,
    ∃ migrated' w',
      migrate_entries (ToolCall:=ToolCall) entries migrated w = (Ok migrated', w').
Proof.
  induction entries as [|e rest IH]; intros migrated w; simpl; [eauto|].
  destruct (migrate_entry_counts migrated e w) as (m1 & w1 & Hstep & _).
  unfold mbind, M_bind. rewrite Hstep. apply IH.
Qed.

Lemma migrate_entries_skip files entries :
  ∀ migrated w,
    w_fs w = DirOf files →
    (∀ e, e ∈ entries → entry_importable (ToolCall:=ToolCall) files e = false) →
    migrate_entries (ToolCall:=ToolCall) entries migrated w = (Ok migrated, w).
Proof.
  induction entries as [|e rest IH]; intros migrated w Hfs Hall; simpl; [done|].
  unfold mbind, M_bind.
  rewrite (migrate_entry_skip _ _ _ files) by (done || apply Hall; by left).
  apply IH; [done|]. intros e' He'. apply Hall. by right.
Qed.

Lemma MigrateFromJSON_listing w files :
  w_fs w = DirOf files →
  MigrateFromJSON (ToolCall:=ToolCall) w = migrate_entries (listing files) 0%Z w.
Proof.
  intros Hfs. unfold MigrateFromJSON, os_ReadDir, mbind, M_bind, attempt.
  by rewrite Hfs.
Qed.

Lemma listing_names files :
  e_name <$> listing files ≡ₚ f_name <$> files.
Proof.
  unfold listing. rewrite (merge_sort_Permutation name_le).
  by rewrite <- list_fmap_compose.
Qed.

Lemma elem_of_listing files e :
  e ∈ listing files ↔ ∃ f, f ∈ files ∧ e = mkDirEntry (f_name f) (f_is_dir f).
Proof.
  unfold listing. rewrite (merge_sort_Permutation name_le).
  rewrite list_elem_of_fmap.
  split; intros (f & ? & ?); by exists f.
Qed.

Lemma importable_entry files f :
  NoDup (f_name <$> files) → f ∈ files →
  entry_importable (ToolCall:=ToolCall) files
    (mkDirEntry (f_name f) (f_is_dir f)) = importable f.
Proof.
  intros Hnd Hf. unfold entry_importable, importable. simpl.
  rewrite (find_file_unique _ _ f) by done.
  destruct (json_name (f_name f)); [|by rewrite andb_false_r].
  rewrite andb_true_r. simpl.
  destruct (f_is_dir f) eqn:Hdir; [|done]. simpl.
  symmetry. apply bool_decide_eq_false. intros [sess Hs].
  apply file_session_Some in Hs as [Hd _]. congruence.
Qed.

Lemma length_filter_fmap {A B} (g : A → B) (P : B → Prop)
    `{!∀ y, Decision (P y)} (l : list A) :
  length (filter P (g <$> l)) = length (filter (λ x, P (g x)) l).
Proof.
  induction l as [|a l IH]; csimpl; [done|].
  rewrite !filter_cons. case_decide; simpl; by rewrite IH.
Qed.

Lemma filter_ext_elem {A} (P Q : A → Prop) `{!∀ x, Decision (P x)}
    `{!∀ x, Decision (Q x)} (l : list A) :
  (∀ x, x ∈ l → P x ↔ Q x) → filter P l = filter Q l.
Proof.
  induction l as [|a l IH]; intros Hext; [done|].
  rewrite !filter_cons.
  rewrite IH by (intros x Hx; apply Hext; by right).
  destruct (decide (P a)) as [Hp|Hp], (decide (Q a)) as [Hq|Hq]; try done.
  - exfalso. apply Hq, (Hext a); [by left|done].
  - exfalso. apply Hp, (Hext a); [by left|done].
Qed.

Lemma listing_count files :
  NoDup (f_name <$> files) →
  length (filter (λ e, entry_importable (ToolCall:=ToolCall) files e = true)
            (listing files))
  = length (filter (λ f, importable (ToolCall:=ToolCall) f = true) files).
Proof.
  intros Hnd. unfold listing.
  rewrite (merge_sort_Permutation name_le).
  rewrite length_filter_fmap. f_equal.
  apply filter_ext_elem. intros f Hf.
  by rewrite importable_entry.
Qed.

(** The first run over a directory, without faults. *)
Lemma MigrateFromJSON_run files w :
  quiet w → w_fs w = DirOf files → NoDup (f_name <$> files) →
  candidates_roundtrip (ToolCall:=ToolCall) files →
  ∃ n w',
    MigrateFromJSON (ToolCall:=ToolCall) w = (Ok n, w') ∧
    migrating files (listing files) n w'.
Proof.
  intros Hq Hfs Hnd Hrt.
  destruct (migrate_loop files Hrt (listing files) [] 0%Z w)
    as (n & w' & Hrun & Hinv).
  - simpl. by rewrite listing_names.
  - split; [done|]. exists files. split_and!; try done.
    + intros e f sess He. by apply elem_of_nil in He.
    + intros Hrf. split; [done|]. intros e f He. by apply elem_of_nil in He.
  - exists n, w'. split; [|done]. by rewrite (MigrateFromJSON_listing w files).
Qed.

End Migrating.

(** * The claims *)

Section Claims.
Context {ToolCall : Type} `{!JSON ToolCall}.

Lemma nextSeq_run key w :
  w_faults w = [] → nextSeq key w = (Ok (next_seq_of key (w_db w)), w).
Proof.
  destruct w as [db tx fl ck tk fs]. simpl. intros ->.
  unfold nextSeq, next_seq_of. unfold_M. simpl.
  by destruct (select_max_seq key db).
Qed.



(** C8. A read of a session that does not exist or has no messages is not an
    error and does not return a nil slice: as long as the engine itself
    answers, [GetHistory] returns an allocated empty slice for a key without
    messages (in particular for a key without a session row, which under the
    foreign key has no messages), and [GetSummary] returns the empty string
    for a key without a session row. *)
Theorem C8_reads_of_absent_session (key : string) (w : World) :
  w_faults w = [] →
  db_consistent (w_db w) →
  has_session key (w_db w) = false ∨ messages_of key (w_db w) = [] →
  GetHistory (ToolCall:=ToolCall) key w = (Ok (slice_of []), w) ∧
  slice_is_nil (slice_of ([] : list (Message ToolCall))) = false ∧
  (has_session key (w_db w) = false →
     GetSummary key w = (Ok EmptyString, w)).
Proof.
  intros Hf Hdb Hcase.
  assert (messages_of key (w_db w) = []) as Hnone.
  { destruct Hcase as [Hno|]; [|done].
    destruct Hdb as (_ & _ & _ & Hfk & _).
    apply filter_none. intros r Hr Hk.
    rewrite Forall_forall in Hfk. specialize (Hfk r Hr).
    rewrite Hk in Hfk. congruence. }
  split_and!; [|done|].
  - rewrite (GetHistory_eq key w Hf). unfold select_messages.
    by rewrite Hnone.
  - intros Hno. rewrite (GetSummary_eq key w Hf).
    by rewrite (select_summary_absent key _ Hno).
Qed.

(** C9. [AddFullMessage] is atomic: whenever it returns an error, whichever
    call failed (beginning the transaction, ensuring the session row,
    computing the next seq, marshalling the tool calls, inserting the row,
    refreshing [updated_at] or committing), the two tables are exactly what
    they were before the call and no transaction is left open. *)
Theorem C9_AddFullMessage_atomic (key : string) (msg : Message ToolCall)
    (w w' : World) (e : error) :
  w_tx w = None →
  AddFullMessage key msg w = (Err e, w') →
  w_db w' = w_db w ∧ w_tx w' = None.
Proof.
  intros Htx Hrun.
  destruct (AddFullMessage_tx key msg w _ w' Htx Hrun) as [Hclosed Hdb].
  split; [by apply Hdb|done].
Qed.

(** C3. [TruncateHistory] with [keepLast <= 0] deletes every message of the
    session; with [keepLast = N > 0] the rows that remain are the last [N]
    rows of the session in ascending [seq] order (all of them when there are
    at most [N]), and a later [GetHistory] returns the corresponding suffix
    of what it returned before, in the same order. *)
Theorem C3_TruncateHistory_keeps_last (key : string) (keepLast : Z) (w : World) :
  quiet w →
  db_consistent (w_db w) →
  ∃ w1,
    TruncateHistory key keepLast w = (Ok tt, w1) ∧
    quiet w1 ∧
    ((keepLast ≤ 0)%Z → messages_of key (w_db w1) = []) ∧
    select_messages key (w_db w1)
      = last_n (keep_count keepLast) (select_messages key (w_db w)) ∧
    length (select_messages key (w_db w1))
      = keep_count keepLast `min` length (select_messages key (w_db w)) ∧
    (∀ (h : list (Message ToolCall)) w',
       GetHistory key w = (Ok (slice_of h), w') →
       GetHistory key w1
         = (Ok (slice_of (last_n (keep_count keepLast) h)), w1)).
Proof.
  intros Hq Hdb. eexists. split; [by apply TruncateHistory_run|].
  destruct Hq as [Hf Htx].
  assert (select_messages key
            (update_updated_at (w_clock w (w_ticks w)) key
               (if bool_decide (keepLast ≤ 0)%Z
                then delete_messages key (w_db w)
                else delete_messages_except_last key keepLast (w_db w)))
          = last_n (keep_count keepLast) (select_messages key (w_db w))) as Hrows.
  { rewrite select_messages_update_updated_at.
    unfold keep_count. case_bool_decide.
    - unfold select_messages at 1. rewrite delete_rows. unfold last_n.
      by rewrite Nat.sub_0_r, drop_all.
    - by rewrite <- truncate_rows by (done || lia). }
  split_and!.
  - done.
  - intros Hle. simpl. rewrite bool_decide_eq_true_2 by done.
    rewrite messages_of_update_updated_at. apply delete_rows.
  - exact Hrows.
  - simpl. rewrite Hrows. unfold last_n. rewrite length_drop. lia.
  - intros h w' Hh.
    apply (GetHistory_inv key w h w' Hf) in Hh.
    rewrite GetHistory_eq by done. simpl. rewrite Hrows.
    unfold last_n. rewrite (rows_messages_drop _ _ h Hh).
    by rewrite (rows_messages_length _ _ Hh).
Qed.

(** C10. On a key that has no session row, [TruncateHistory] succeeds for
    every [keepLast] and creates none: the sessions table is unchanged and
    [GetSummary] still finds no row.  The three writers that start with
    [ensureSession] do leave a row on every normal return. *)
Theorem C10_TruncateHistory_creates_no_session (key : string) (keepLast : Z)
    (w : World) :
  quiet w →
  has_session key (w_db w) = false →
  ∃ w1,
    TruncateHistory key keepLast w = (Ok tt, w1) ∧
    sessions (w_db w1) = sessions (w_db w) ∧
    has_session key (w_db w1) = false ∧
    select_summary key (w_db w1) = None ∧
    GetSummary key w1 = (Ok EmptyString, w1) ∧
    (∀ (msg : Message ToolCall) w2,
       AddFullMessage key msg w = (Ok tt, w2) →
       has_session key (w_db w2) = true) ∧
    (∀ summary w2,
       SetSummary key summary w = (Ok tt, w2) →
       has_session key (w_db w2) = true) ∧
    (∀ (history : list (Message ToolCall)) w2,
       SetHistory key history w = (Ok tt, w2) →
       has_session key (w_db w2) = true).
Proof.
  intros Hq Hno. eexists. split; [by apply TruncateHistory_run|].
  destruct Hq as [Hf Htx].
  assert (sessions
            (update_updated_at (w_clock w (w_ticks w)) key
               (if bool_decide (keepLast ≤ 0)%Z
                then delete_messages key (w_db w)
                else delete_messages_except_last key keepLast (w_db w)))
          = sessions (w_db w)) as Hsess.
  { unfold update_updated_at. simpl.
    assert (sessions (if bool_decide (keepLast ≤ 0)%Z
                      then delete_messages key (w_db w)
                      else delete_messages_except_last key keepLast (w_db w))
            = sessions (w_db w)) as -> by (by case_bool_decide).
    apply touch_absent. unfold has_session in Hno.
    by apply bool_decide_eq_false in Hno. }
  assert (has_session key
            (update_updated_at (w_clock w (w_ticks w)) key
               (if bool_decide (keepLast ≤ 0)%Z
                then delete_messages key (w_db w)
                else delete_messages_except_last key keepLast (w_db w)))
          = false) as Hno1.
  { unfold has_session in *. by rewrite Hsess. }
  split_and!; simpl.
  - exact Hsess.
  - exact Hno1.
  - by apply select_summary_absent.
  - rewrite GetSummary_eq by done. simpl.
    by rewrite select_summary_absent.
  - intros msg w2. apply transaction_creates; [tx_steps|tx_finals| |done].
    apply keeps_bind; [apply keeps_Errorf, keeps_nextSeq|]. intros seq.
    apply keeps_bind; [apply keeps_marshal|]. intros tcj.
    apply keeps_bind; [apply keeps_time_Now|]. intros now.
    apply keeps_bind; [apply keeps_Errorf, keeps_insert|]. intros _.
    apply keeps_bind; [apply keeps_Errorf, keeps_touchSession|]. intros _.
    apply keeps_Commit.
  - intros summary w2. apply transaction_creates; [tx_steps|tx_finals| |done].
    apply keeps_bind; [apply keeps_time_Now|]. intros now.
    apply keeps_bind; [|intros _; apply keeps_Commit].
    apply keeps_Errorf, keeps_Exec. intros db db' Hs [= <-].
    by rewrite has_session_update_summary.
  - intros history w2. apply transaction_creates; [tx_steps|tx_finals| |done].
    apply keeps_bind.
    { apply keeps_Errorf, keeps_Exec. by intros db db' Hs [= <-]. }
    intros _. apply keeps_bind; [apply keeps_time_Now|]. intros now.
    apply keeps_bind; [apply keeps_insert_history|]. intros _.
    apply keeps_bind; [apply keeps_Errorf, keeps_touchSession|]. intros _.
    apply keeps_Commit.
Qed.

(** C2, as the code has it.  The counter is incremented exactly when the
    entry is a candidate that is read, parses, has a key and whose
    transaction commits; the rename comes afterwards and its outcome does
    not enter the count.  An iteration never fails. *)
Theorem C2_counter_follows_commit (migrated : Z) (e : DirEntry) (w : World) :
  ∃ migrated' w',
    migrate_entry (ToolCall:=ToolCall) migrated e w = (Ok migrated', w') ∧
    (migrated' = migrated ∨ migrated' = (migrated + 1)%Z) ∧
    (migrated' = (migrated + 1)%Z ↔
       ∃ data sess w1,
         e_is_dir e = false ∧ json_name (e_name e) = true ∧
         os_ReadFile (e_name e) w = (Ok data, w) ∧
         json_Unmarshal_session data = Ok sess ∧
         Key sess ≠ EmptyString ∧
         importSession sess w = (Ok tt, w1) ∧
         w' = snd (os_Rename (e_name e) (e_name e +:+ ".migrated") w1)).
Proof. apply migrate_entry_counts. Qed.

End Claims.


(** * Further properties of the store and of the importer *)

(** ** Invariants kept under every schedule of faults *)

Lemma preserves_ret I {A} (a : A) : preserves I (mret a).
Proof. by intros w r w' Hw [= _ <-]. Qed.

Lemma preserves_fail I {A} (e : error) : preserves I (@fail A e).
Proof. by intros w r w' Hw [= _ <-]. Qed.

Lemma preserves_lift I {A} (x : result A) : preserves I (lift x).
Proof. by intros w r w' Hw [= _ <-]. Qed.

Lemma preserves_bind I {A B} (m : M A) (f : A → M B) :
  preserves I m → (∀ a, preserves I (f a)) → preserves I (m ≫= f).
Proof.
  intros Hm Hf w r w' Hw. unfold mbind, M_bind.
  destruct (m w) as [[a|e] w1] eqn:E.
  - apply (Hf a). by apply (Hm w (Ok a)).
  - intros [= _ <-]. by apply (Hm w (Err e)).
Qed.

Lemma preserves_Errorf I {A} (context : string) (m : M A) :
  preserves I m → preserves I (Errorf context m).
Proof.
  intros Hm w r w' Hw. unfold Errorf.
  destruct (m w) as [[a|e] w1] eqn:E; intros [= _ <-].
  - by apply (Hm w (Ok a)).
  - by apply (Hm w (Err e)).
Qed.

Lemma preserves_attempt I {A} (m : M A) :
  preserves I m → preserves I (attempt m).
Proof.
  intros Hm w r w' Hw. unfold attempt.
  destruct (m w) as [r1 w1] eqn:E. intros [= _ <-]. by apply (Hm w r1).
Qed.

Lemma preserves_defer I {A} (cleanup : M unit) (body : M A) :
  preserves I cleanup → preserves I body → preserves I (defer cleanup body).
Proof.
  intros Hc Hb w r w' Hw. unfold defer.
  destruct (body w) as [r1 w1] eqn:Eb.
  destruct (cleanup w1) as [r2 w2] eqn:Ec. intros [= _ <-].
  apply (Hc w1 r2); [|done]. by apply (Hb w r1).
Qed.

Lemma preserves_engine_call I : preserves I engine_call.
Proof.
  intros w r w' Hw. unfold engine_call.
  destruct (w_faults w) as [|[] fs]; by intros [= _ <-].
Qed.

Lemma preserves_time_Now I : preserves I time_Now.
Proof. by intros w r w' Hw [= _ <-]. Qed.

Lemma preserves_open_tx I : preserves I open_tx.
Proof.
  intros w r w' [Hdb Htx]. unfold open_tx.
  destruct (w_tx w) as [snapshot|] eqn:E; intros [= _ <-];
    (split; simpl; rewrite ?E; done).
Qed.

Lemma preserves_BeginTx I : preserves I BeginTx.
Proof.
  apply preserves_bind; [apply preserves_engine_call|].
  intros _. apply preserves_open_tx.
Qed.

Lemma preserves_Commit I : preserves I Commit.
Proof.
  intros w r w' [Hdb Htx]. unfold Commit, engine_call.
  destruct (w_tx w) as [snapshot|] eqn:E.
  - destruct (w_faults w) as [|[] fs]; intros [= _ <-]; by split.
  - intros [= _ <-]. split; simpl; rewrite ?E; done.
Qed.

Lemma preserves_Rollback I : preserves I Rollback.
Proof.
  intros w r w' [Hdb Htx]. unfold Rollback.
  destruct (w_tx w) as [snapshot|] eqn:E; intros [= _ <-].
  - by split.
  - split; simpl; rewrite ?E; done.
Qed.

Lemma preserves_Exec I (stmt : DB → result DB) :
  (∀ db db', I db → stmt db = Ok db' → I db') → preserves I (Exec stmt).
Proof.
  intros Hstmt. apply preserves_bind; [apply preserves_engine_call|].
  intros _ w r w' [Hdb Htx]. unfold run_stmt.
  destruct (stmt (w_db w)) as [db'|e] eqn:E; intros [= _ <-]; [|done].
  split; [by apply (Hstmt (w_db w))|done].
Qed.

Lemma preserves_Query I {A} (q : DB → A) : preserves I (Query q).
Proof.
  apply preserves_bind; [apply preserves_engine_call|].
  by intros _ w r w' Hw [= _ <-].
Qed.

Lemma preserves_QueryRow I {A} (q : DB → option A) : preserves I (QueryRow q).
Proof.
  apply preserves_bind; [apply preserves_Query|].
  intros [a|]; [apply preserves_ret|apply preserves_fail].
Qed.

Lemma preserves_os_ReadDir I : preserves I os_ReadDir.
Proof.
  intros w r w' Hw. unfold os_ReadDir.
  destruct (w_fs w); by intros [= _ <-].
Qed.

Lemma preserves_os_ReadFile I name : preserves I (os_ReadFile name).
Proof. intros w r w' Hw Hr. by rewrite (os_ReadFile_world _ _ _ _ Hr). Qed.

Lemma preserves_os_Rename I oldname newname :
  preserves I (os_Rename oldname newname).
Proof.
  intros w r w' Hw. unfold os_Rename.
  destruct (w_fs w) as [| |files]; try by intros [= _ <-].
  destruct (find_file oldname files) as [f|]; [|by intros [= _ <-]].
  destruct (f_pinned f); [by intros [= _ <-]|].
  case_bool_decide; [by intros [= _ <-]|].
  destruct (find_file newname files) as [g|]; [|by intros [= _ <-]].
  destruct (f_is_dir g); by intros [= _ <-].
Qed.

(** A whole operation: from a state without an open transaction. *)
Lemma preserves_closed I {A} (m : M A) w r w' :
  preserves I m → w_tx w = None → I (w_db w) → m w = (r, w') → I (w_db w').
Proof.
  intros Hm Htx Hdb Hrun.
  apply (Hm w r w'); [|done]. split; [done|]. by rewrite Htx.
Qed.

Section Preserving.
Context {ToolCall : Type} `{!JSON ToolCall}.

Lemma preserves_ensureSession I key :
  (∀ now db, I db → I (insert_or_ignore_session key EmptyString now now db)) →
  preserves I (ensureSession key).
Proof.
  intros Hins. unfold ensureSession.
  apply preserves_bind; [apply preserves_time_Now|]. intros now.
  apply preserves_Exec. intros db db' Hdb [= <-]. by apply Hins.
Qed.

Lemma preserves_touchSession I key :
  (∀ now db, I db → I (update_updated_at now key db)) →
  preserves I (touchSession key).
Proof.
  intros Hupd. unfold touchSession.
  apply preserves_bind; [apply preserves_time_Now|]. intros now.
  apply preserves_Exec. intros db db' Hdb [= <-]. by apply Hupd.
Qed.

Lemma preserves_nextSeq I key : preserves I (nextSeq key).
Proof.
  unfold nextSeq. apply preserves_bind; [apply preserves_Query|].
  intros [m|]; apply preserves_ret.
Qed.

Lemma preserves_marshal I (msg : Message ToolCall) context :
  preserves I
    (if bool_decide (0 < length (ToolCalls msg))
     then data ← Errorf context (lift (json_Marshal (ToolCalls msg)));
          mret (Some data)
     else mret None).
Proof.
  case_bool_decide; [|apply preserves_ret].
  apply preserves_bind; [apply preserves_Errorf, preserves_lift|].
  intros data. apply preserves_ret.
Qed.

Lemma preserves_marshal_plain I (msg : Message ToolCall) :
  preserves I
    (if bool_decide (0 < length (ToolCalls msg))
     then data ← lift (json_Marshal (ToolCalls msg)); mret (Some data)
     else mret None).
Proof.
  case_bool_decide; [|apply preserves_ret].
  apply preserves_bind; [apply preserves_lift|].
  intros data. apply preserves_ret.
Qed.

Lemma preserves_AddFullMessage I key (msg : Message ToolCall) :
  (∀ now db, I db → I (insert_or_ignore_session key EmptyString now now db)) →
  (∀ seq role content tcj tcid now db db',
     I db → insert_message key seq role content tcj tcid now db = Ok db' →
     I db') →
  (∀ now db, I db → I (update_updated_at now key db)) →
  preserves I (AddFullMessage key msg).
Proof.
  intros Hins Hmsg Hupd. unfold AddFullMessage.
  apply preserves_bind; [apply preserves_Errorf, preserves_BeginTx|]. intros _.
  apply preserves_defer; [apply preserves_Rollback|].
  apply preserves_bind; [by apply preserves_Errorf, preserves_ensureSession|].
  intros _.
  apply preserves_bind; [apply preserves_Errorf, preserves_nextSeq|]. intros seq.
  apply preserves_bind; [apply preserves_marshal|]. intros tcj.
  apply preserves_bind; [apply preserves_time_Now|]. intros now.
  apply preserves_bind.
  { apply preserves_Errorf, preserves_Exec. intros db db'. apply Hmsg. }
  intros _.
  apply preserves_bind; [by apply preserves_Errorf, preserves_touchSession|].
  intros _. apply preserves_Commit.
Qed.

Lemma preserves_SetSummary I key summary :
  (∀ now db, I db → I (insert_or_ignore_session key EmptyString now now db)) →
  (∀ now db, I db → I (update_summary summary now key db)) →
  preserves I (SetSummary key summary).
Proof.
  intros Hins Hsum. unfold SetSummary.
  apply preserves_bind; [apply preserves_Errorf, preserves_BeginTx|]. intros _.
  apply preserves_defer; [apply preserves_Rollback|].
  apply preserves_bind; [by apply preserves_Errorf, preserves_ensureSession|].
  intros _.
  apply preserves_bind; [apply preserves_time_Now|]. intros now.
  apply preserves_bind; [|intros _; apply preserves_Commit].
  apply preserves_Errorf, preserves_Exec. intros db db' Hdb [= <-]. by apply Hsum.
Qed.

Lemma preserves_TruncateHistory I key keepLast :
  (∀ db, I db → I (delete_messages key db)) →
  (∀ db, I db → I (delete_messages_except_last key keepLast db)) →
  (∀ now db, I db → I (update_updated_at now key db)) →
  preserves I (TruncateHistory key keepLast).
Proof.
  intros Hdel Hkeep Hupd. unfold TruncateHistory.
  apply preserves_bind; [apply preserves_Errorf, preserves_BeginTx|]. intros _.
  apply preserves_defer; [apply preserves_Rollback|].
  apply preserves_bind.
  { apply preserves_Errorf. case_bool_decide; apply preserves_Exec;
      intros db db' Hdb [= <-]; auto. }
  intros _.
  apply preserves_bind; [by apply preserves_Errorf, preserves_touchSession|].
  intros _. apply preserves_Commit.
Qed.

Lemma preserves_insert_history I key now i (history : list (Message ToolCall)) :
  (∀ seq role content tcj tcid now db db',
     I db → insert_message key seq role content tcj tcid now db = Ok db' →
     I db') →
  preserves I (insert_history key now i history).
Proof.
  intros Hmsg. revert i.
  induction history as [|msg rest IH]; intros i; simpl; [apply preserves_ret|].
  apply preserves_bind; [apply preserves_marshal|]. intros tcj.
  apply preserves_bind; [|intros _; apply IH].
  apply preserves_Errorf, preserves_Exec. intros db db'. apply Hmsg.
Qed.

Lemma preserves_import_messages I key now i (msgs : list (Message ToolCall)) :
  (∀ seq role content tcj tcid now db db',
     I db → insert_message key seq role content tcj tcid now db = Ok db' →
     I db') →
  preserves I (import_messages key now i msgs).
Proof.
  intros Hmsg. revert i.
  induction msgs as [|msg rest IH]; intros i; simpl; [apply preserves_ret|].
  apply preserves_bind; [apply preserves_marshal_plain|]. intros tcj.
  apply preserves_bind; [|intros _; apply IH].
  apply preserves_Exec. intros db db'. apply Hmsg.
Qed.

Lemma preserves_SetHistory I key (history : list (Message ToolCall)) :
  (∀ now db, I db → I (insert_or_ignore_session key EmptyString now now db)) →
  (∀ db, I db → I (delete_messages key db)) →
  (∀ seq role content tcj tcid now db db',
     I db → insert_message key seq role content tcj tcid now db = Ok db' →
     I db') →
  (∀ now db, I db → I (update_updated_at now key db)) →
  preserves I (SetHistory key history).
Proof.
  intros Hins Hdel Hmsg Hupd. unfold SetHistory.
  apply preserves_bind; [apply preserves_Errorf, preserves_BeginTx|]. intros _.
  apply preserves_defer; [apply preserves_Rollback|].
  apply preserves_bind; [by apply preserves_Errorf, preserves_ensureSession|].
  intros _.
  apply preserves_bind.
  { apply preserves_Errorf, preserves_Exec. intros db db' Hdb [= <-]. auto. }
  intros _.
  apply preserves_bind; [apply preserves_time_Now|]. intros now.
  apply preserves_bind; [by apply preserves_insert_history|]. intros _.
  apply preserves_bind; [by apply preserves_Errorf, preserves_touchSession|].
  intros _. apply preserves_Commit.
Qed.

Lemma preserves_importSession I (sess : jsonSession ToolCall) :
  (∀ db, I db → I (insert_or_ignore_session (Key sess) (Summary sess)
                      (Created sess) (Updated sess) db)) →
  (∀ seq role content tcj tcid now db db',
     I db → insert_message (Key sess) seq role content tcj tcid now db = Ok db' →
     I db') →
  preserves I (importSession sess).
Proof.
  intros Hins Hmsg. unfold importSession.
  apply preserves_bind; [apply preserves_BeginTx|]. intros _.
  apply preserves_defer; [apply preserves_Rollback|]. simpl.
  apply preserves_bind.
  { apply preserves_Exec. intros db db' Hdb [= <-]. auto. }
  intros _.
  apply preserves_bind; [apply preserves_Query|]. intros count.
  case_bool_decide; [apply preserves_Commit|].
  apply preserves_bind; [apply preserves_time_Now|]. intros now.
  apply preserves_bind; [by apply preserves_import_messages|]. intros _.
  apply preserves_Commit.
Qed.

Lemma preserves_migrate_entry I migrated e :
  (∀ sess : jsonSession ToolCall, preserves I (importSession sess)) →
  preserves I (migrate_entry (ToolCall:=ToolCall) migrated e).
Proof.
  intros Himp. unfold migrate_entry.
  destruct (e_is_dir e); [apply preserves_ret|].
  destruct (negb _); [apply preserves_ret|].
  destruct (HasSuffix (e_name e) ".migrated"); [apply preserves_ret|].
  apply preserves_bind; [apply preserves_attempt, preserves_os_ReadFile|].
  intros [data|]; [|apply preserves_ret].
  destruct (json_Unmarshal_session data) as [sess|]; [|apply preserves_ret].
  case_bool_decide; [apply preserves_ret|].
  apply preserves_bind; [apply preserves_attempt, Himp|].
  intros [[]|]; [|apply preserves_ret].
  apply preserves_bind; [apply preserves_attempt, preserves_os_Rename|].
  intros _. apply preserves_ret.
Qed.

Lemma preserves_migrate_entries I entries :
  (∀ sess : jsonSession ToolCall, preserves I (importSession sess)) →
  ∀ migrated, preserves I (migrate_entries (ToolCall:=ToolCall) entries migrated).
Proof.
  intros Himp. induction entries as [|e rest IH]; intros migrated; simpl.
  - apply preserves_ret.
  - apply preserves_bind; [by apply preserves_migrate_entry|]. intros m. apply IH.
Qed.

Lemma preserves_MigrateFromJSON I :
  (∀ sess : jsonSession ToolCall, preserves I (importSession sess)) →
  preserves I (MigrateFromJSON (ToolCall:=ToolCall)).
Proof.
  intros Himp. unfold MigrateFromJSON.
  apply preserves_bind; [apply preserves_attempt, preserves_os_ReadDir|].
  intros [entries|e]; [by apply preserves_migrate_entries|].
  destruct (IsNotExist e); [apply preserves_ret|apply preserves_fail].
Qed.

End Preserving.

(** ** The constraints of the schema are kept *)

Lemma consistent_sessions ss' db :
  s_key <$> ss' = s_key <$> sessions db →
  db_consistent db → db_consistent (mkDB ss' (messages db) (next_id db)).
Proof.
  intros Hkeys (Hpk & Hid & Hseq & Hfk & Hbelow).
  unfold db_consistent, has_session in *. simpl. rewrite Hkeys. done.
Qed.

Lemma consistent_filter (P : MessageRow → Prop) `{!∀ r, Decision (P r)} db :
  db_consistent db →
  db_consistent (mkDB (sessions db) (filter P (messages db)) (next_id db)).
Proof.
  intros (Hpk & Hid & Hseq & Hfk & Hbelow).
  unfold db_consistent, has_session in *. simpl. split_and!.
  - done.
  - by apply NoDup_fmap_filter.
  - by apply NoDup_fmap_filter.
  - apply Forall_forall. intros r [_ Hr]%list_elem_of_filter.
    rewrite Forall_forall in Hfk. by apply Hfk.
  - apply Forall_forall. intros r [_ Hr]%list_elem_of_filter.
    rewrite Forall_forall in Hbelow. by apply Hbelow.
Qed.

Lemma consistent_insert_or_ignore key summary created updated db :
  db_consistent db →
  db_consistent (insert_or_ignore_session key summary created updated db).
Proof.
  intros Hdb. unfold insert_or_ignore_session.
  destruct (has_session key db) eqn:Hhas; [done|].
  destruct Hdb as (Hpk & Hid & Hseq & Hfk & Hbelow).
  unfold db_consistent. simpl. split_and!; try done.
  - rewrite fmap_app. apply NoDup_app. split_and!; [done| |apply NoDup_singleton].
    intros k Hk [->|[]%elem_of_nil]%elem_of_cons.
    unfold has_session in Hhas. by apply bool_decide_eq_false in Hhas.
  - apply Forall_forall. intros r Hr. rewrite Forall_forall in Hfk.
    specialize (Hfk r Hr). unfold has_session in *. simpl.
    apply bool_decide_eq_true. apply bool_decide_eq_true in Hfk.
    rewrite fmap_app. apply elem_of_app. by left.
Qed.

Lemma consistent_update_updated_at now key db :
  db_consistent db → db_consistent (update_updated_at now key db).
Proof. apply consistent_sessions. apply touch_keys. Qed.

Lemma consistent_update_summary summary now key db :
  db_consistent db → db_consistent (update_summary summary now key db).
Proof. apply consistent_sessions. apply summary_keys. Qed.

Lemma consistent_delete_messages key db :
  db_consistent db → db_consistent (delete_messages key db).
Proof. apply (consistent_filter (λ r, m_session_key r ≠ key)). Qed.

Lemma consistent_delete_except key limit db :
  db_consistent db → db_consistent (delete_messages_except_last key limit db).
Proof.
  apply (consistent_filter
           (λ r, ¬ (m_session_key r = key ∧ m_id r ∉ select_last_ids key limit db))).
Qed.

Lemma consistent_insert_message key seq role content tcj tcid now db db' :
  db_consistent db →
  insert_message key seq role content tcj tcid now db = Ok db' →
  db_consistent db'.
Proof.
  intros (Hpk & Hid & Hseq & Hfk & Hbelow). unfold insert_message.
  destruct (has_session key db) eqn:Hhas; [|done]. simpl.
  case_bool_decide as Hdup; [done|]. intros [= <-].
  unfold db_consistent. simpl. split_and!.
  - done.
  - rewrite fmap_app. apply NoDup_app. split_and!; [done| |apply NoDup_singleton].
    intros id Hin [->|[]%elem_of_nil]%elem_of_cons.
    apply list_elem_of_fmap in Hin as (r & Hr & Hin).
    rewrite Forall_forall in Hbelow. specialize (Hbelow r Hin).
    simpl in Hr. lia.
  - rewrite fmap_app. apply NoDup_app. split_and!; [done| |apply NoDup_singleton].
    intros p Hin [->|[]%elem_of_nil]%elem_of_cons.
    apply list_elem_of_fmap in Hin as (r & Hr & Hin). simpl in Hr.
    injection Hr as Hk Hs.
    apply Hdup. apply Exists_exists. by exists r.
  - apply Forall_app. split; [done|].
    apply Forall_singleton. done.
  - apply Forall_app. split.
    + eapply Forall_impl; [exact Hbelow|]. simpl. intros r Hr. lia.
    + apply Forall_singleton. simpl. lia.
Qed.

Section Consistency.
Context {ToolCall : Type} `{!JSON ToolCall}.

(** X1. Whatever the engine does, a store operation that is called without
    an open transaction leaves a database that satisfies the constraints of
    the schema if it found one: the primary keys, [UNIQUE(session_key,
    seq)], the foreign key and the AUTOINCREMENT counter. *)
Theorem store_keeps_schema (w w' : World) :
  w_tx w = None →
  db_consistent (w_db w) →
  (∀ key (msg : Message ToolCall) r,
     AddFullMessage key msg w = (r, w') → db_consistent (w_db w')) ∧
  (∀ key role content r,
     AddMessage (ToolCall:=ToolCall) key role content w = (r, w') →
     db_consistent (w_db w')) ∧
  (∀ key summary r,
     SetSummary key summary w = (r, w') → db_consistent (w_db w')) ∧
  (∀ key keepLast r,
     TruncateHistory key keepLast w = (r, w') → db_consistent (w_db w')) ∧
  (∀ key (history : list (Message ToolCall)) r,
     SetHistory key history w = (r, w') → db_consistent (w_db w')).
Proof.
  intros Htx Hdb.
  assert (∀ key (msg : Message ToolCall),
            preserves db_consistent (AddFullMessage key msg)) as Hadd.
  { intros key msg. apply preserves_AddFullMessage.
    - intros. by apply consistent_insert_or_ignore.
    - intros. by eapply consistent_insert_message.
    - intros. by apply consistent_update_updated_at. }
  split_and!.
  - intros key msg r. by apply preserves_closed.
  - intros key role content r. unfold AddMessage. by apply preserves_closed.
  - intros key summary r. apply preserves_closed; [|done..].
    apply preserves_SetSummary.
    + intros. by apply consistent_insert_or_ignore.
    + intros. by apply consistent_update_summary.
  - intros key keepLast r. apply preserves_closed; [|done..].
    apply preserves_TruncateHistory.
    + intros. by apply consistent_delete_messages.
    + intros. by apply consistent_delete_except.
    + intros. by apply consistent_update_updated_at.
  - intros key history r. apply preserves_closed; [|done..].
    apply preserves_SetHistory.
    + intros. by apply consistent_insert_or_ignore.
    + intros. by apply consistent_delete_messages.
    + intros. by eapply consistent_insert_message.
    + intros. by apply consistent_update_updated_at.
Qed.

Lemma importSession_consistent (sess : jsonSession ToolCall) :
  preserves db_consistent (importSession sess).
Proof.
  apply preserves_importSession.
  - intros. by apply consistent_insert_or_ignore.
  - intros. by eapply consistent_insert_message.
Qed.

(** X2. The importer keeps the constraints of the schema as well, for one
    record and for a whole directory, whatever fails on the way. *)
Theorem importer_keeps_schema (w w' : World) :
  w_tx w = None →
  db_consistent (w_db w) →
  (∀ (sess : jsonSession ToolCall) r,
     importSession sess w = (r, w') → db_consistent (w_db w')) ∧
  (∀ r, MigrateFromJSON (ToolCall:=ToolCall) w = (r, w') →
        db_consistent (w_db w')).
Proof.
  intros Htx Hdb. split.
  - intros sess r. apply preserves_closed; [|done..].
    apply importSession_consistent.
  - intros r. apply preserves_closed; [|done..].
    apply preserves_MigrateFromJSON. apply importSession_consistent.
Qed.

End Consistency.

(** ** What an operation leaves alone *)

Lemma messages_of_insert_other k key seq role content tcj tcid now db db' :
  k ≠ key →
  insert_message key seq role content tcj tcid now db = Ok db' →
  messages_of k db' = messages_of k db.
Proof.
  intros Hne. unfold insert_message. destruct (negb _); [done|].
  case_bool_decide; [done|]. intros [= <-].
  unfold messages_of. simpl. rewrite filter_app, filter_cons_False by (simpl; congruence).
  by rewrite filter_nil, app_nil_r.
Qed.

Lemma messages_of_delete_other k key db :
  k ≠ key → messages_of k (delete_messages key db) = messages_of k db.
Proof.
  intros Hne. unfold messages_of, delete_messages. simpl.
  rewrite list_filter_filter. apply list_filter_iff.
  intros r. split; [tauto|]. intros Hk. split; [done|]. congruence.
Qed.

Lemma messages_of_delete_except_other k key limit db :
  k ≠ key →
  messages_of k (delete_messages_except_last key limit db) = messages_of k db.
Proof.
  intros Hne. unfold messages_of, delete_messages_except_last. simpl.
  rewrite list_filter_filter. apply list_filter_iff.
  intros r. split; [tauto|]. intros Hk. split; [done|].
  intros [Hkey _]. congruence.
Qed.

Lemma session_of_insert_or_ignore k key summary created updated db :
  session_of k db ≠ None →
  session_of k (insert_or_ignore_session key summary created updated db)
  = session_of k db.
Proof.
  intros Hsome. unfold insert_or_ignore_session.
  destruct (has_session key db); [done|].
  unfold session_of in *. simpl. rewrite filter_app.
  destruct (filter (λ s, s_key s = k) (sessions db)); [done|done].
Qed.

Lemma select_summary_insert_or_ignore k key created updated db :
  summary_of k (insert_or_ignore_session key EmptyString created updated db)
  = summary_of k db.
Proof.
  unfold insert_or_ignore_session.
  destruct (has_session key db); [done|].
  unfold summary_of, select_summary. simpl. rewrite filter_app.
  destruct (filter (λ s, s_key s = k) (sessions db)) as [|s l]; [|done].
  simpl. rewrite filter_cons. case_decide; [done|]. done.
Qed.

Lemma session_origin_touch k now key (ss : list SessionRow) n ms :
  session_origin k
    (mkDB ((λ s, if decide (s_key s = key)
                 then mkSessionRow (s_key s) (s_summary s) (s_created_at s) now
                 else s) <$> ss) ms n)
  = session_origin k (mkDB ss ms n).
Proof.
  unfold session_origin, session_of. simpl.
  induction ss as [|s ss IH]; [done|]. csimpl.
  rewrite !filter_cons.
  destruct (decide (s_key s = key)) as [Hk|Hk]; simpl.
  - destruct (decide (s_key s = k)); [done|apply IH].
  - destruct (decide (s_key s = k)); [done|apply IH].
Qed.

Lemma session_origin_update_updated_at k now key db :
  session_origin k (update_updated_at now key db) = session_origin k db.
Proof. destruct db. apply session_origin_touch. Qed.

Lemma summary_of_origin k db :
  summary_of k db = default EmptyString (fst <$> session_origin k db).
Proof.
  unfold summary_of, select_summary, session_origin, session_of.
  by destruct (head _).
Qed.

Lemma summary_of_update_updated_at k now key db :
  summary_of k (update_updated_at now key db) = summary_of k db.
Proof. by rewrite !summary_of_origin, session_origin_update_updated_at. Qed.

Lemma session_of_update_summary_other k summary now key db :
  k ≠ key →
  session_of k (update_summary summary now key db) = session_of k db.
Proof.
  intros Hne. unfold session_of, update_summary. simpl.
  induction (sessions db) as [|s ss IH]; [done|]. csimpl.
  rewrite !filter_cons.
  destruct (decide (s_key s = key)) as [Hk|Hk]; simpl.
  - rewrite !decide_False by congruence. apply IH.
  - destruct (decide (s_key s = k)); [done|apply IH].
Qed.

Lemma created_at_update_summary k summary now key db :
  (s_created_at <$> session_of k (update_summary summary now key db))
  = (s_created_at <$> session_of k db).
Proof.
  unfold session_of, update_summary. simpl.
  induction (sessions db) as [|s ss IH]; [done|]. csimpl.
  rewrite !filter_cons.
  destruct (decide (s_key s = key)) as [Hk|Hk]; simpl.
  - destruct (decide (s_key s = k)); [done|apply IH].
  - destruct (decide (s_key s = k)); [done|apply IH].
Qed.

Lemma sessions_insert_message key seq role content tcj tcid now db db' :
  insert_message key seq role content tcj tcid now db = Ok db' →
  sessions db' = sessions db.
Proof.
  unfold insert_message. destruct (negb _); [done|].
  case_bool_decide; [done|]. by intros [= <-].
Qed.

Section Frames.
Context {ToolCall : Type} `{!JSON ToolCall}.

(** X3. Under every schedule of faults, an operation on one session leaves
    the rows of every other session as they are; [SetSummary] leaves all
    rows of [messages] as they are. *)
Theorem other_sessions_untouched (key other : string) (w w' : World) :
  w_tx w = None →
  other ≠ key →
  (∀ (msg : Message ToolCall) r,
     AddFullMessage key msg w = (r, w') →
     messages_of other (w_db w') = messages_of other (w_db w)) ∧
  (∀ keepLast r,
     TruncateHistory key keepLast w = (r, w') →
     messages_of other (w_db w') = messages_of other (w_db w)) ∧
  (∀ (history : list (Message ToolCall)) r,
     SetHistory key history w = (r, w') →
     messages_of other (w_db w') = messages_of other (w_db w)) ∧
  (∀ (sess : jsonSession ToolCall) r,
     Key sess = key → importSession sess w = (r, w') →
     messages_of other (w_db w') = messages_of other (w_db w)) ∧
  (∀ summary r,
     SetSummary key summary w = (r, w') →
     messages (w_db w') = messages (w_db w)).
Proof.
  intros Htx Hne.
  pose (I := λ db, messages_of other db = messages_of other (w_db w)).
  assert (∀ k s c u db, I db → I (insert_or_ignore_session k s c u db)) as Hins.
  { intros k s c u db. unfold I, messages_of.
    by rewrite messages_insert_or_ignore. }
  assert (∀ seq role content tcj tcid now db db',
            I db → insert_message key seq role content tcj tcid now db = Ok db' →
            I db') as Hmsg.
  { intros seq role content tcj tcid now db db' Hdb Hi. unfold I.
    by rewrite (messages_of_insert_other _ _ _ _ _ _ _ _ _ _ Hne Hi). }
  assert (∀ now db, I db → I (update_updated_at now key db)) as Hupd by done.
  assert (∀ db, I db → I (delete_messages key db)) as Hdel.
  { intros db Hdb. unfold I. by rewrite messages_of_delete_other. }
  split_and!.
  - intros msg r. apply (preserves_closed I); [|done..].
    apply preserves_AddFullMessage; [intros; by apply Hins|exact Hmsg|exact Hupd].
  - intros keepLast r. apply (preserves_closed I); [|done..].
    apply preserves_TruncateHistory.
    + exact Hdel.
    + intros db Hdb. unfold I. by rewrite messages_of_delete_except_other.
    + exact Hupd.
  - intros history r. apply (preserves_closed I); [|done..].
    apply preserves_SetHistory;
      [intros; by apply Hins|exact Hdel|exact Hmsg|exact Hupd].
  - intros sess r <-. apply (preserves_closed I); [|done..].
    apply preserves_importSession; [intros; by apply Hins|exact Hmsg].
  - intros summary r.
    apply (preserves_closed (λ db, messages db = messages (w_db w))); [|done..].
    apply preserves_SetSummary; [|done].
    intros now db Hdb. by rewrite messages_insert_or_ignore.
Qed.

(** X4. Under every schedule of faults, appending to, truncating or
    replacing a history changes the summary of no session, and changes
    neither the summary nor [created_at] of a session row that exists;
    [SetSummary] changes the summary of no other session and [created_at]
    of none. *)
Theorem summaries_and_creation_kept (key any : string) (w w' : World) :
  w_tx w = None →
  (∀ (msg : Message ToolCall) r,
     AddFullMessage key msg w = (r, w') →
     summary_of any (w_db w') = summary_of any (w_db w) ∧
     (session_of any (w_db w) ≠ None →
      session_origin any (w_db w') = session_origin any (w_db w))) ∧
  (∀ keepLast r,
     TruncateHistory key keepLast w = (r, w') →
     summary_of any (w_db w') = summary_of any (w_db w) ∧
     session_origin any (w_db w') = session_origin any (w_db w)) ∧
  (∀ (history : list (Message ToolCall)) r,
     SetHistory key history w = (r, w') →
     summary_of any (w_db w') = summary_of any (w_db w) ∧
     (session_of any (w_db w) ≠ None →
      session_origin any (w_db w') = session_origin any (w_db w))) ∧
  (∀ summary r,
     SetSummary key summary w = (r, w') →
     (any ≠ key → summary_of any (w_db w') = summary_of any (w_db w)) ∧
     (session_of any (w_db w) ≠ None →
      s_created_at <$> session_of any (w_db w')
      = s_created_at <$> session_of any (w_db w))).
Proof.
  intros Htx.
  pose (I := λ db, summary_of any db = summary_of any (w_db w)).
  pose (J := λ db, session_of any (w_db w) ≠ None →
                   session_origin any db = session_origin any (w_db w)).
  assert (∀ now db, I db → I (insert_or_ignore_session key EmptyString now now db))
    as HinsI.
  { intros now db Hdb. unfold I. by rewrite select_summary_insert_or_ignore. }
  assert (∀ now db, J db → J (insert_or_ignore_session key EmptyString now now db))
    as HinsJ.
  { intros now db Hdb Hsome. unfold session_origin.
    rewrite session_of_insert_or_ignore; [by apply Hdb|].
    specialize (Hdb Hsome). unfold session_origin in Hdb.
    destruct (session_of any db); [done|].
    by destruct (session_of any (w_db w)). }
  assert (∀ seq role content tcj tcid now db db',
            I db → insert_message key seq role content tcj tcid now db = Ok db' →
            I db') as HmsgI.
  { intros seq role content tcj tcid now db db' Hdb Hi. unfold I.
    unfold summary_of, select_summary.
    by rewrite (sessions_insert_message _ _ _ _ _ _ _ _ _ Hi). }
  assert (∀ seq role content tcj tcid now db db',
            J db → insert_message key seq role content tcj tcid now db = Ok db' →
            J db') as HmsgJ.
  { intros seq role content tcj tcid now db db' Hdb Hi Hsome.
    unfold session_origin, session_of.
    rewrite (sessions_insert_message _ _ _ _ _ _ _ _ _ Hi). by apply Hdb. }
  assert (∀ now db, I db → I (update_updated_at now key db)) as HupdI.
  { intros now db Hdb. unfold I. by rewrite summary_of_update_updated_at. }
  assert (∀ now db, J db → J (update_updated_at now key db)) as HupdJ.
  { intros now db Hdb Hsome. rewrite session_origin_update_updated_at.
    by apply Hdb. }
  assert (∀ db, I db → I (delete_messages key db)) as HdelI by done.
  assert (∀ db, J db → J (delete_messages key db)) as HdelJ by done.
  split_and!.
  - intros msg r Hrun. split.
    + revert Hrun. apply (preserves_closed I); [|done..].
      apply preserves_AddFullMessage; [exact HinsI|exact HmsgI|exact HupdI].
    + revert Hrun. apply (preserves_closed J); [|done|by intros _].
      apply preserves_AddFullMessage; [exact HinsJ|exact HmsgJ|exact HupdJ].
  - intros keepLast r Hrun. split.
    + revert Hrun. apply (preserves_closed I); [|done..].
      apply preserves_TruncateHistory; [exact HdelI|done|exact HupdI].
    + revert Hrun.
      apply (preserves_closed
               (λ db, session_origin any db = session_origin any (w_db w)));
        [|done..].
      apply preserves_TruncateHistory; [done|done|].
      intros now db Hdb. by rewrite session_origin_update_updated_at.
  - intros history r Hrun. split.
    + revert Hrun. apply (preserves_closed I); [|done..].
      apply preserves_SetHistory; [exact HinsI|exact HdelI|exact HmsgI|exact HupdI].
    + revert Hrun. apply (preserves_closed J); [|done|by intros _].
      apply preserves_SetHistory; [exact HinsJ|exact HdelJ|exact HmsgJ|exact HupdJ].
  - intros summary r Hrun. split.
    + intros Hne. revert Hrun. apply (preserves_closed I); [|done..].
      apply preserves_SetSummary; [exact HinsI|].
      intros now db Hdb. unfold I, summary_of, select_summary.
      fold (session_of any (update_summary summary now key db)).
      rewrite session_of_update_summary_other by done. exact Hdb.
    + revert Hrun.
      apply (preserves_closed
               (λ db, session_of any (w_db w) ≠ None →
                      s_created_at <$> session_of any db
                      = s_created_at <$> session_of any (w_db w)));
        [|done|by intros _].
      apply preserves_SetSummary.
      * intros now db Hdb Hsome.
        rewrite session_of_insert_or_ignore; [by apply Hdb|].
        specialize (Hdb Hsome).
        destruct (session_of any db); [done|].
        by destruct (session_of any (w_db w)).
      * intros now db Hdb Hsome. rewrite created_at_update_summary.
        by apply Hdb.
Qed.

End Frames.

(** ** Summaries *)

Lemma session_of_update_summary summary now key db :
  session_of key db ≠ None →
  s_summary <$> session_of key (update_summary summary now key db) = Some summary.
Proof.
  unfold session_of, update_summary. simpl.
  induction (sessions db) as [|s ss IH]; [done|]. csimpl.
  rewrite !filter_cons.
  destruct (decide (s_key s = key)) as [Hk|Hk]; simpl.
  - by rewrite decide_True.
  - rewrite decide_False by done. apply IH.
Qed.

Lemma session_of_has key db :
  has_session key db = true ↔ session_of key db ≠ None.
Proof.
  unfold has_session, session_of. rewrite bool_decide_eq_true.
  rewrite list_elem_of_fmap. split.
  - intros (s & -> & Hs).
    assert (s ∈ filter (λ s0, s_key s0 = s_key s) (sessions db)) as Hin
      by (by apply list_elem_of_filter).
    destruct (filter _ _); [by apply elem_of_nil in Hin|done].
  - destruct (filter _ _) as [|s l] eqn:E; [done|]. intros _.
    assert (s ∈ filter (λ s0, s_key s0 = key) (sessions db)) as Hin
      by (rewrite E; by left).
    apply list_elem_of_filter in Hin as [Hk Hin]. by exists s.
Qed.

Section Summaries.
Context {ToolCall : Type} `{!JSON ToolCall}.

(** X5. On a store without faults, [SetSummary] succeeds for any key
    (creating the session when it is missing), [GetSummary] then returns
    the summary just set, a later [SetSummary] overwrites it, and neither
    the messages nor the summary of any other session change. *)
Theorem SetSummary_then_GetSummary (key summary : string) (w : World) :
  quiet w →
  ∃ w1,
    SetSummary key summary w = (Ok tt, w1) ∧
    GetSummary key w1 = (Ok summary, w1) ∧
    messages (w_db w1) = messages (w_db w) ∧
    (∀ other, other ≠ key →
       GetSummary other w1 = (Ok (summary_of other (w_db w)), w1)) ∧
    ∀ summary', ∃ w2,
      SetSummary key summary' w1 = (Ok tt, w2) ∧
      GetSummary key w2 = (Ok summary', w2).
Proof.
  assert (∀ s v, quiet v → ∃ v1,
            SetSummary key s v = (Ok tt, v1) ∧ quiet v1 ∧
            GetSummary key v1 = (Ok s, v1) ∧
            messages (w_db v1) = messages (w_db v) ∧
            ∀ other, other ≠ key →
              summary_of other (w_db v1) = summary_of other (w_db v)) as Hset.
  { intros s v Hq. eexists. split; [by apply SetSummary_run|].
    destruct Hq as [Hf Htx].
    split; [by split|]. split_and!.
    - rewrite GetSummary_eq by done. simpl.
      pose proof (session_of_update_summary s (w_clock v (S (w_ticks v))) key
        (insert_or_ignore_session key EmptyString (w_clock v (w_ticks v))
           (w_clock v (w_ticks v)) (w_db v))) as Hs.
      unfold select_summary. unfold session_of in Hs. rewrite Hs; [done|].
      apply session_of_has, has_session_insert_or_ignore.
    - simpl. apply messages_insert_or_ignore.
    - intros other Hne. simpl. unfold summary_of at 1, select_summary.
      fold (session_of other
              (update_summary s (w_clock v (S (w_ticks v))) key
                 (insert_or_ignore_session key EmptyString (w_clock v (w_ticks v))
                    (w_clock v (w_ticks v)) (w_db v)))).
      rewrite session_of_update_summary_other by done.
      apply select_summary_insert_or_ignore. }
  intros Hq. destruct (Hset summary w Hq) as (w1 & Hrun & Hq1 & Hget & Hm & Ho).
  exists w1. split; [done|]. split; [done|]. split; [done|]. split.
  - intros other Hne. rewrite GetSummary_eq by apply Hq1.
    fold (summary_of other (w_db w1)). by rewrite Ho.
  - intros s'. destruct (Hset s' w1 Hq1) as (w2 & Hrun2 & _ & Hget2 & _).
    by exists w2.
Qed.
End Summaries.

(** ** Reads and failures *)

Section Reads.
Context {ToolCall : Type} `{!JSON ToolCall}.

Lemma rows_messages_Err rows :
  is_ok (rows_messages (ToolCall:=ToolCall) rows) = false ↔
  ∃ r s, r ∈ rows ∧ m_tool_calls_json r = Some s ∧ s ≠ EmptyString ∧
         is_ok (json_Unmarshal (ToolCall:=ToolCall) s) = false.
Proof.
  induction rows as [|r rows IH]; simpl.
  - split; [done|]. intros (r & s & Hin & _). by apply elem_of_nil in Hin.
  - unfold row_message at 1.
    destruct (m_tool_calls_json r) as [s|] eqn:Ej.
    + case_bool_decide as Hs.
      * destruct (json_Unmarshal s) as [tcs|e] eqn:Eu.
        -- destruct (rows_messages rows) as [ms|e'] eqn:Er; simpl in *.
           ++ split; [done|].
              intros (r' & s' & [->|Hin]%elem_of_cons & Hj & Hne & Hbad).
              ** rewrite Ej in Hj. injection Hj as <-. by rewrite Eu in Hbad.
              ** apply IH. by exists r', s'.
           ++ split; [|done]. intros _.
              destruct (proj1 IH eq_refl) as (r' & s' & Hin & Hrest).
              exists r', s'. split; [by right|done].
        -- simpl. split; [|done]. intros _. exists r, s.
           split; [by left|]. by rewrite Eu.
      * destruct (rows_messages rows) as [ms|e'] eqn:Er; simpl in *.
        -- split; [done|].
           intros (r' & s' & [->|Hin]%elem_of_cons & Hj & Hne & Hbad).
           ++ rewrite Ej in Hj. injection Hj as <-. by destruct (Hne Hs).
           ++ apply IH. by exists r', s'.
        -- split; [|done]. intros _.
           destruct (proj1 IH eq_refl) as (r' & s' & Hin & Hrest).
           exists r', s'. split; [by right|done].
    + destruct (rows_messages rows) as [ms|e'] eqn:Er; simpl in *.
      * split; [done|].
        intros (r' & s' & [->|Hin]%elem_of_cons & Hj & Hne & Hbad).
        -- congruence.
        -- apply IH. by exists r', s'.
      * split; [|done]. intros _.
        destruct (proj1 IH eq_refl) as (r' & s' & Hin & Hrest).
        exists r', s'. split; [by right|done].
Qed.

Lemma rows_messages_Err_wrapped rows e :
  rows_messages (ToolCall:=ToolCall) rows = Err e →
  ∃ cause, e = ErrWrap "memory: unmarshal tool calls" cause.
Proof.
  induction rows as [|r rows IH]; simpl; [done|].
  unfold row_message at 1.
  destruct (m_tool_calls_json r) as [s|].
  - case_bool_decide.
    + destruct (json_Unmarshal s) as [tcs|e'].
      * destruct (rows_messages rows); [done|]. intros [= <-]. by apply IH.
      * intros [= <-]. by eexists.
    + destruct (rows_messages rows); [done|]. intros [= <-]. by apply IH.
  - destruct (rows_messages rows); [done|]. intros [= <-]. by apply IH.
Qed.

(** X6. [GetHistory] and [GetSummary] never change the database, open no
    transaction, touch neither the file system nor the clock, whatever the
    engine does; the only trace of a read is the engine calls it consumed. *)
Theorem reads_change_nothing (key : string) (w w' : World) :
  (∀ r, GetHistory (ToolCall:=ToolCall) key w = (r, w') →
        w_db w' = w_db w ∧ w_tx w' = w_tx w ∧ w_fs w' = w_fs w ∧
        w_ticks w' = w_ticks w ∧
        ∃ n, w_faults w' = drop n (w_faults w)) ∧
  (∀ r, GetSummary key w = (r, w') →
        w_db w' = w_db w ∧ w_tx w' = w_tx w ∧ w_fs w' = w_fs w ∧
        w_ticks w' = w_ticks w ∧
        ∃ n, w_faults w' = drop n (w_faults w)).
Proof.
  destruct w as [db tx fl ck tk fs]. split.
  - intros r. unfold GetHistory. unfold_M. simpl.
    destruct fl as [|[] fl]; simpl.
    + rewrite scan_rows_eq. destruct (rows_messages _); simpl.
      * intros [= <- <-]. split_and!; try done. by exists 0.
      * intros [= <- <-]. split_and!; try done. by exists 0.
    + intros [= <- <-]. split_and!; try done. by exists 1.
    + rewrite scan_rows_eq. destruct (rows_messages _); simpl.
      * destruct fl as [|[] fl]; simpl; intros [= <- <-];
          (split_and!; try done); [by exists 1|by exists 2|by exists 2].
      * intros [= <- <-]. split_and!; try done. by exists 1.
  - intros r. unfold GetSummary. unfold_M. simpl.
    destruct fl as [|[] fl]; simpl.
    + destruct (select_summary key db); intros [= <- <-];
        (split_and!; try done); by exists 0.
    + intros [= <- <-]. split_and!; try done. by exists 1.
    + destruct (select_summary key db); intros [= <- <-];
        (split_and!; try done); by exists 1.
Qed.

(** X7. Without engine faults, [GetHistory] fails exactly when some row of
    the session holds a non-empty [tool_calls_json] that does not parse; the
    error is then the wrapped parse error and no partial history is
    returned.  A row whose column is NULL or the empty string never makes
    the read fail. *)
Theorem GetHistory_fails_on_corrupt_row (key : string) (w : World) :
  w_faults w = [] →
  ((∃ e, GetHistory (ToolCall:=ToolCall) key w = (Err e, w)) ↔
   ∃ r s, r ∈ messages_of key (w_db w) ∧ m_tool_calls_json r = Some s ∧
          s ≠ EmptyString ∧
          is_ok (json_Unmarshal (ToolCall:=ToolCall) s) = false) ∧
  (∀ e w', GetHistory (ToolCall:=ToolCall) key w = (Err e, w') →
     ∃ cause, e = ErrWrap "memory: unmarshal tool calls" cause).
Proof.
  intros Hf. rewrite GetHistory_eq by done. split_and!.
  - assert (∀ r, r ∈ select_messages key (w_db w) ↔ r ∈ messages_of key (w_db w))
      as Hperm.
    { intros r. unfold select_messages. by rewrite merge_sort_Permutation. }
    split.
    + intros [e He].
      destruct (rows_messages (select_messages key (w_db w))) as [ms|e'] eqn:Er;
        [done|].
      destruct (proj1 (rows_messages_Err (select_messages key (w_db w))))
        as (r & s & Hin & Hrest); [by rewrite Er|].
      exists r, s. split; [by apply Hperm|done].
    + intros (r & s & Hin & Hrest).
      destruct (rows_messages (select_messages key (w_db w))) as [ms|e'] eqn:Er.
      * assert (is_ok (rows_messages (ToolCall:=ToolCall)
                        (select_messages key (w_db w))) = false) as Hbad.
        { apply rows_messages_Err. exists r, s. split; [by apply Hperm|done]. }
        by rewrite Er in Hbad.
      * by exists e'.
  - intros e w'.
    destruct (rows_messages (select_messages key (w_db w))) as [ms|e'] eqn:Er;
      [done|].
    intros [= <- _]. by apply (rows_messages_Err_wrapped _ _ Er).
Qed.

(** X8. Whatever the engine does, a failure of [SetSummary],
    [TruncateHistory], [SetHistory] or [importSession] leaves the database
    as it was, and none of them leaves a transaction open, failed or not. *)
Theorem writers_all_or_nothing (key : string) (w w' : World) :
  w_tx w = None →
  (∀ summary r, SetSummary key summary w = (r, w') →
     w_tx w' = None ∧ (is_ok r = false → w_db w' = w_db w)) ∧
  (∀ keepLast r, TruncateHistory key keepLast w = (r, w') →
     w_tx w' = None ∧ (is_ok r = false → w_db w' = w_db w)) ∧
  (∀ (history : list (Message ToolCall)) r, SetHistory key history w = (r, w') →
     w_tx w' = None ∧ (is_ok r = false → w_db w' = w_db w)) ∧
  (∀ (sess : jsonSession ToolCall) r, importSession sess w = (r, w') →
     w_tx w' = None ∧ (is_ok r = false → w_db w' = w_db w)).
Proof.
  intros Htx. split_and!.
  - intros summary r. by apply SetSummary_tx.
  - intros keepLast r. by apply TruncateHistory_tx.
  - intros history r. by apply SetHistory_tx.
  - intros sess r. by apply importSession_tx.
Qed.

End Reads.

(** ** Appending and truncating *)

Lemma last_n_last_n {A} (a b : nat) (l : list A) :
  last_n b (last_n a l) = last_n (a `min` b) l.
Proof.
  unfold last_n. rewrite length_drop, drop_drop. f_equal. lia.
Qed.

Lemma max_seq_char rows m :
  (∃ r, r ∈ rows ∧ m_seq r = m) → (∀ r, r ∈ rows → (m_seq r ≤ m)%Z) →
  max_seq rows = Some m.
Proof.
  intros (r & Hr & Hm) Hmax.
  destruct (max_seq rows) as [m'|] eqn:E.
  - apply max_seq_Some in E as [(r' & Hr' & Hm') Hmax'].
    f_equal. specialize (Hmax r' Hr'). specialize (Hmax' r Hr). lia.
  - apply max_seq_None in E. subst. by apply elem_of_nil in Hr.
Qed.

Lemma max_seq_perm rows rows' :
  (∀ r, r ∈ rows ↔ r ∈ rows') → max_seq rows = max_seq rows'.
Proof.
  intros Hiff. destruct (max_seq rows') as [m|] eqn:E.
  - apply max_seq_Some in E as [(r & Hr & Hm) Hmax].
    apply max_seq_char; [exists r; split; [by apply Hiff|done]|].
    intros r' Hr'. by apply Hmax, Hiff.
  - apply max_seq_None in E. subst. apply max_seq_None.
    destruct rows as [|r rows]; [done|].
    assert (r ∈ []) as Hin by (apply Hiff; by left). by apply elem_of_nil in Hin.
Qed.

Lemma sorted_last_max (l : list MessageRow) x :
  StronglySorted seq_le l → last l = Some x →
  ∀ r, r ∈ l → (m_seq r ≤ m_seq x)%Z.
Proof.
  induction 1 as [|y l Hs IH Hall]; [done|].
  destruct l as [|z l].
  - intros [= <-] r Hr%list_elem_of_singleton. by subst.
  - intros Hlast r [->|Hr]%elem_of_cons.
    + rewrite Forall_forall in Hall. apply (Hall x).
      by apply last_Some_elem_of.
    + by apply IH.
Qed.

Lemma max_seq_last_n n (l : list MessageRow) :
  StronglySorted seq_le l → 0 < n → max_seq (last_n n l) = max_seq l.
Proof.
  intros Hs Hn.
  destruct (last l) as [x|] eqn:El.
  - assert (last (last_n n l) = Some x) as El'.
    { unfold last_n. apply last_Some in El as (l' & ->).
      rewrite drop_app_le by (rewrite length_app; simpl; lia).
      apply last_snoc. }
    assert (∀ r, r ∈ last_n n l → r ∈ l) as Hsub.
    { intros r Hr. unfold last_n in Hr.
      apply (elem_of_sublist _ _ _ Hr), sublist_drop. }
    rewrite (max_seq_char (last_n n l) (m_seq x)).
    + symmetry. apply max_seq_char.
      * exists x. split; [by apply last_Some_elem_of|done].
      * by apply sorted_last_max.
    + exists x. split; [by apply last_Some_elem_of|done].
    + intros r Hr. by apply (sorted_last_max l), Hsub.
  - apply last_None in El. by subst.
Qed.

Section Appending.
Context {ToolCall : Type} `{!JSON ToolCall}.

Lemma TruncateHistory_rows key keepLast w :
  quiet w → db_consistent (w_db w) →
  ∃ w1,
    TruncateHistory key keepLast w = (Ok tt, w1) ∧ quiet w1 ∧
    db_consistent (w_db w1) ∧
    select_messages key (w_db w1)
    = last_n (keep_count keepLast) (select_messages key (w_db w)).
Proof.
  intros Hq Hdb. eexists. split; [by apply TruncateHistory_run|].
  destruct Hq as [Hf Htx]. split; [by split|]. split.
  - simpl. apply consistent_update_updated_at.
    case_bool_decide;
      [by apply consistent_delete_messages|by apply consistent_delete_except].
  - simpl. rewrite select_messages_update_updated_at.
    unfold keep_count. case_bool_decide.
    + unfold select_messages at 1. rewrite delete_rows. unfold last_n.
      by rewrite Nat.sub_0_r, drop_all.
    + by rewrite <- truncate_rows by (done || lia).
Qed.

(** X9. [AddMessage] appends a message that has neither tool calls nor a
    tool call id, whatever the JSON codec is: the history read afterwards
    is the one read before followed by that message. *)
Theorem AddMessage_appends_plain (key role content : string) (w w0 : World)
    (h : list (Message ToolCall)) :
  quiet w →
  db_consistent (w_db w) →
  seq_room key (w_db w) →
  GetHistory key w = (Ok (slice_of h), w0) →
  ∃ w1,
    AddMessage key role content w = (Ok tt, w1) ∧
    GetHistory key w1
    = (Ok (slice_of (h ++ [mkMessage role content [] EmptyString])), w1) ∧
    ∃ row, last (select_messages key (w_db w1)) = Some row ∧
           m_tool_calls_json row = None ∧ m_seq row = next_seq_of key (w_db w).
Proof.
  intros Hq Hdb Hroom Hh. unfold AddMessage.
  destruct (AddFullMessage_appends key
              (mkMessage role content [] EmptyString) w None Hq Hroom eq_refl)
    as (w1 & id & now & Hadd & Hq1 & Hms).
  apply (GetHistory_inv key w h w0 (proj1 Hq)) in Hh.
  assert (select_messages key (w_db w1)
          = select_messages key (w_db w) ++
              [mkMessageRow id key (next_seq_of key (w_db w)) role content None
                 EmptyString now]) as Hsel.
  { unfold select_messages. rewrite Hms. simpl. rewrite order_asc_snoc; [done| |].
    - by apply consistent_seqs.
    - intros r Hr. simpl. by apply next_seq_fresh. }
  exists w1. split_and!.
  - done.
  - rewrite GetHistory_eq by apply Hq1. rewrite Hsel.
    by rewrite (rows_messages_snoc _ _ h (mkMessage role content [] EmptyString) Hh).
  - eexists. rewrite Hsel, last_snoc. done.
Qed.

(** X10. Two truncations in a row keep what the stricter of the two keeps:
    the last [min] of the two counts.  Truncating again with the same count
    changes no row. *)
Theorem TruncateHistory_twice (key : string) (first second : Z) (w : World) :
  quiet w →
  db_consistent (w_db w) →
  ∃ w1 w2,
    TruncateHistory key first w = (Ok tt, w1) ∧
    TruncateHistory key second w1 = (Ok tt, w2) ∧
    select_messages key (w_db w2)
    = last_n (keep_count first `min` keep_count second)
        (select_messages key (w_db w)) ∧
    (first = second →
     select_messages key (w_db w2) = select_messages key (w_db w1)).
Proof.
  intros Hq Hdb.
  destruct (TruncateHistory_rows key first w Hq Hdb) as (w1 & Hrun1 & Hq1 & Hdb1 & Hr1).
  destruct (TruncateHistory_rows key second w1 Hq1 Hdb1) as (w2 & Hrun2 & _ & _ & Hr2).
  exists w1, w2. split_and!; [done|done| |].
  - by rewrite Hr2, Hr1, last_n_last_n.
  - intros <-. rewrite Hr2, Hr1, last_n_last_n, Nat.min_id. done.
Qed.

(** X11. Truncation that keeps at least one message never changes the
    sequence number the next message gets, so numbers are not reused and do
    not restart; truncation to nothing makes the numbering start again
    at 1. *)
Theorem numbering_after_truncation (key : string) (keepLast : Z) (w : World) :
  quiet w →
  db_consistent (w_db w) →
  ∃ w1,
    TruncateHistory key keepLast w = (Ok tt, w1) ∧
    ((0 < keepLast)%Z →
       nextSeq key w1 = (Ok (next_seq_of key (w_db w)), w1)) ∧
    ((keepLast ≤ 0)%Z → nextSeq key w1 = (Ok 1%Z, w1)).
Proof.
  intros Hq Hdb.
  destruct (TruncateHistory_rows key keepLast w Hq Hdb)
    as (w1 & Hrun1 & Hq1 & Hdb1 & Hr1).
  assert (∀ db, max_seq (messages_of key db) = max_seq (select_messages key db))
    as Hsel.
  { intros db. apply max_seq_perm. intros r. unfold select_messages.
    by rewrite merge_sort_Permutation. }
  exists w1. split; [done|]. split.
  - intros Hpos. rewrite nextSeq_run by apply Hq1. do 2 f_equal.
    unfold next_seq_of, select_max_seq. rewrite !Hsel, Hr1.
    rewrite max_seq_last_n; [done| |].
    + apply (StronglySorted_merge_sort seq_le).
    + unfold keep_count. rewrite bool_decide_eq_false_2 by lia. lia.
  - intros Hle. rewrite nextSeq_run by apply Hq1. do 2 f_equal.
    unfold next_seq_of, select_max_seq. rewrite Hsel, Hr1.
    unfold keep_count. rewrite bool_decide_eq_true_2 by done.
    unfold last_n. by rewrite Nat.sub_0_r, drop_all.
Qed.

End Appending.

(** ** The importer and the sessions it writes *)

Lemma session_of_insert_or_ignore_other k key summary created updated db :
  k ≠ key →
  session_of k (insert_or_ignore_session key summary created updated db)
  = session_of k db.
Proof.
  intros Hne. unfold insert_or_ignore_session.
  destruct (has_session key db); [done|].
  unfold session_of. simpl. rewrite filter_app, filter_cons_False by (simpl; congruence).
  by rewrite filter_nil, app_nil_r.
Qed.

Lemma session_of_insert_or_ignore_new key summary created updated db :
  session_of key db = None →
  session_of key (insert_or_ignore_session key summary created updated db)
  = Some (mkSessionRow key summary created updated).
Proof.
  intros Hnone. unfold insert_or_ignore_session.
  destruct (has_session key db) eqn:E.
  - apply session_of_has in E. done.
  - unfold session_of in *. simpl. rewrite filter_app.
    apply head_None in Hnone. rewrite Hnone. simpl.
    by rewrite filter_cons_True, filter_nil.
Qed.

Lemma session_of_insert_message k key seq role content tcj tcid now db db' :
  insert_message key seq role content tcj tcid now db = Ok db' →
  session_of k db' = session_of k db.
Proof.
  intros Hi. unfold session_of.
  by rewrite (sessions_insert_message _ _ _ _ _ _ _ _ _ Hi).
Qed.

Lemma select_summary_session_of key db :
  select_summary key db = s_summary <$> session_of key db.
Proof. done. Qed.

Section Importing.
Context {ToolCall : Type} `{!JSON ToolCall}.

Lemma importSession_frame (sess : jsonSession ToolCall) other w r w' :
  w_tx w = None → Key sess ≠ other → importSession sess w = (r, w') →
  messages_of other (w_db w') = messages_of other (w_db w) ∧
  session_of other (w_db w') = session_of other (w_db w).
Proof.
  intros Htx Hne.
  apply (preserves_closed
           (λ db, messages_of other db = messages_of other (w_db w) ∧
                  session_of other db = session_of other (w_db w)));
    [|done|done].
  apply preserves_importSession.
  - intros db [Hm Hs]. split.
    + unfold messages_of. by rewrite messages_insert_or_ignore.
    + by rewrite session_of_insert_or_ignore_other.
  - intros seq role content tcj tcid now db db' [Hm Hs] Hi. split.
    + rewrite (messages_of_insert_other other (Key sess) _ _ _ _ _ _ _ _) by done.
      done.
    + by rewrite (session_of_insert_message _ _ _ _ _ _ _ _ _ _ Hi).
Qed.

Lemma importSession_kept_rows (sess : jsonSession ToolCall) k w r w' :
  w_tx w = None → session_of k (w_db w) ≠ None →
  importSession sess w = (r, w') →
  session_of k (w_db w') = session_of k (w_db w).
Proof.
  intros Htx Hsome.
  apply (preserves_closed
           (λ db, session_of k db = session_of k (w_db w))); [|done|done].
  apply preserves_importSession.
  - intros db Hdb. rewrite session_of_insert_or_ignore; [done|].
    by rewrite Hdb.
  - intros seq role content tcj tcid now db db' Hdb Hi.
    by rewrite (session_of_insert_message _ _ _ _ _ _ _ _ _ _ Hi).
Qed.

Lemma importSession_new_row (sess : jsonSession ToolCall) w r w' :
  w_tx w = None → session_of (Key sess) (w_db w) = None →
  importSession sess w = (r, w') →
  session_of (Key sess) (w_db w') = None ∨
  session_of (Key sess) (w_db w')
  = Some (mkSessionRow (Key sess) (Summary sess) (Created sess) (Updated sess)).
Proof.
  intros Htx Hnone.
  apply (preserves_closed
           (λ db, session_of (Key sess) db = None ∨
                  session_of (Key sess) db
                  = Some (mkSessionRow (Key sess) (Summary sess)
                            (Created sess) (Updated sess))));
    [|done|by left].
  apply preserves_importSession.
  - intros db [Hdb|Hdb].
    + right. by apply session_of_insert_or_ignore_new.
    + right. rewrite session_of_insert_or_ignore; [done|]. by rewrite Hdb.
  - intros seq role content tcj tcid now db db' Hdb Hi.
    by rewrite (session_of_insert_message _ _ _ _ _ _ _ _ _ _ Hi).
Qed.

(** X12. [importSession] never rewrites a session row that exists, not
    even its [updated_at], whatever the engine does; a session that had no
    row gets none or the row of the file: its key, summary and the two
    timestamps of the record.  Without faults the import succeeds and the
    row is there. *)
Theorem importSession_session_row (sess : jsonSession ToolCall)
    (w w' : World) (r : result unit) :
  w_tx w = None →
  importSession sess w = (r, w') →
  (∀ k, session_of k (w_db w) ≠ None →
     session_of k (w_db w') = session_of k (w_db w)) ∧
  (session_of (Key sess) (w_db w) = None →
     session_of (Key sess) (w_db w') = None ∨
     session_of (Key sess) (w_db w')
     = Some (mkSessionRow (Key sess) (Summary sess) (Created sess) (Updated sess))) ∧
  (w_faults w = [] →
   Forall (λ m, json_roundtrips (ToolCalls m)) (Messages sess) →
   r = Ok tt ∧
   (session_of (Key sess) (w_db w) = None →
    session_of (Key sess) (w_db w')
    = Some (mkSessionRow (Key sess) (Summary sess) (Created sess) (Updated sess)))).
Proof.
  intros Htx Hrun. split_and!.
  - intros k Hk. by apply (importSession_kept_rows sess k w r w').
  - intros Hnone. by apply (importSession_new_row sess w r w').
  - intros Hf Hrt.
    destruct (importSession_run sess w (conj Hf Htx) Hrt)
      as (w1 & Hrun1 & _ & _ & Hhas & _).
    rewrite Hrun in Hrun1. injection Hrun1 as -> ->.
    split; [done|]. intros Hnone.
    destruct (importSession_new_row sess w (Ok tt) w1 Htx Hnone Hrun)
      as [Hbad|Hok]; [|done].
    apply session_of_has in Hhas. done.
Qed.

Lemma roundtrip_candidates (files : list File) :
  sessions_roundtrip (ToolCall:=ToolCall) files →
  candidates_roundtrip (ToolCall:=ToolCall) files.
Proof. intros Hrt f sess Hf _ Hs. by apply (Hrt f sess). Qed.

Lemma migrate_entries_app (l1 l2 : list DirEntry) :
  ∀ migrated w m1 w1,
    migrate_entries (ToolCall:=ToolCall) l1 migrated w = (Ok m1, w1) →
    migrate_entries (l1 ++ l2) migrated w = migrate_entries l2 m1 w1.
Proof.
  induction l1 as [|e l1 IH]; intros migrated w m1 w1; simpl.
  - by intros [= <- <-].
  - unfold mbind, M_bind.
    destruct (migrate_entry migrated e w) as [[m|err] w0]; [|done].
    apply IH.
Qed.

Lemma migrate_step_db files0 done migrated e w :
  candidates_roundtrip (ToolCall:=ToolCall) files0 →
  e_name e ∉ e_name <$> done →
  migrating files0 done migrated w →
  ∃ migrated' w',
    migrate_entry migrated e w = (Ok migrated', w') ∧
    migrating files0 (done ++ [e]) migrated' w' ∧
    (entry_importable files0 e = false → w_db w' = w_db w) ∧
    (∀ f sess,
       entry_importable files0 e = true →
       find_file (e_name e) files0 = Some f → file_session f = Some sess →
       ∃ w1, importSession sess w = (Ok tt, w1) ∧ w_db w' = w_db w1).
Proof.
  intros Hrt Hfresh Hinv.
  destruct (migrate_step files0 done migrated e w Hrt Hfresh Hinv)
    as (m' & w' & Hstep & Hinv').
  exists m', w'. split; [done|]. split; [done|].
  destruct Hinv as (Hq & files & Hfs & Hnd & Hcount & Hsess & Hpend & Horig & Hfree).
  assert (entry_importable files e = entry_importable files0 e) as Hsame.
  { apply entry_importable_pending. intros Hj. by apply Hpend. }
  split.
  - intros Himp. rewrite <- Hsame in Himp.
    rewrite (migrate_entry_skip migrated e w files Hfs Himp) in Hstep.
    by injection Hstep as _ <-.
  - intros f sess Himp Hf0 Hs.
    destruct (entry_importable_true _ _ Himp) as (Hdir & Hj & _).
    assert (find_file (e_name e) files = Some f) as Hf by (by rewrite Hpend).
    destruct (find_file_Some _ _ _ Hf0) as [Hin0 Hname].
    assert (json_name (f_name f) = true) as Hjf by (by rewrite Hname).
    destruct (importSession_run sess w Hq (Hrt f sess Hin0 Hjf Hs))
      as (w1 & Himport & _ & Hfs1 & _).
    exists w1. split; [done|].
    rewrite (migrate_entry_import migrated e w files f sess
               Hfs Hdir Hj Hf Hs w1 Himport) in Hstep.
    injection Hstep as _ <-.
    destruct (os_Rename (e_name e) (e_name e +:+ ".migrated") w1)
      as [r2 w2] eqn:Er.
    rewrite Hfs in Hfs1.
    destruct (os_Rename_spec _ _ _ _ _ _ Hfs1 Er) as (Hdb2 & _). done.
Qed.

Lemma migrate_loop_frame files0 k :
  candidates_roundtrip (ToolCall:=ToolCall) files0 →
  ∀ rest done migrated w,
    NoDup (e_name <$> done ++ rest) →
    migrating files0 done migrated w →
    (∀ e f sess,
       e ∈ rest → entry_importable files0 e = true →
       find_file (e_name e) files0 = Some f → file_session f = Some sess →
       Key sess ≠ k) →
    ∃ migrated' w',
      migrate_entries rest migrated w = (Ok migrated', w') ∧
      migrating files0 (done ++ rest) migrated' w' ∧
      messages_of k (w_db w') = messages_of k (w_db w) ∧
      session_of k (w_db w') = session_of k (w_db w).
Proof.
  intros Hrt. induction rest as [|e rest IH]; intros done migrated w Hnd Hinv Hkeys.
  - exists migrated, w. by rewrite app_nil_r.
  - destruct (migrate_step_db files0 done migrated e w Hrt)
      as (m1 & w1 & Hstep & Hinv1 & Hskip & Himp).
    + rewrite fmap_app in Hnd. apply NoDup_app in Hnd as (_ & Hdisj & _).
      intros Hin. apply (Hdisj _ Hin). csimpl. by left.
    + done.
    + assert (messages_of k (w_db w1) = messages_of k (w_db w) ∧
              session_of k (w_db w1) = session_of k (w_db w)) as [Hm1 Hs1].
      { destruct (entry_importable files0 e) eqn:Ei.
        - destruct (entry_importable_true _ _ Ei) as (_ & _ & f & sess & Hf & Hs).
          destruct (Himp f sess eq_refl Hf Hs) as (v & Hrun & ->).
          apply (importSession_frame sess k w (Ok tt) v); [apply Hinv| |done].
          apply (Hkeys e f sess); [by left|done..].
        - by rewrite Hskip. }
      destruct (IH (done ++ [e]) m1 w1) as (m2 & w2 & Hrest & Hinv2 & Hm2 & Hs2).
      * by rewrite <- app_assoc.
      * done.
      * intros e' f sess He'. apply Hkeys. by right.
      * exists m2, w2. rewrite <- app_assoc in Hinv2. split_and!.
        -- simpl. unfold mbind, M_bind. by rewrite Hstep.
        -- done.
        -- congruence.
        -- congruence.
Qed.

(** X13. The importer touches only the sessions whose keys are written
    inside well-formed candidate files: a session that no such file names
    keeps its rows and its session row, so reads of it return what they
    returned before.  In particular the name of a file is not a key. *)
Theorem importer_leaves_unnamed_sessions (k : string) (w : World)
    (files : list File) :
  quiet w →
  w_fs w = DirOf files →
  NoDup (f_name <$> files) →
  sessions_roundtrip (ToolCall:=ToolCall) files →
  (∀ f sess, f ∈ files → importable f = true → file_session f = Some sess →
     Key sess ≠ k) →
  ∃ n w',
    MigrateFromJSON (ToolCall:=ToolCall) w = (Ok n, w') ∧
    messages_of k (w_db w') = messages_of k (w_db w) ∧
    session_of k (w_db w') = session_of k (w_db w) ∧
    fst (GetHistory (ToolCall:=ToolCall) k w') = fst (GetHistory k w) ∧
    fst (GetSummary k w') = fst (GetSummary k w).
Proof.
  intros Hq Hfs Hnd Hrt Hkeys.
  destruct (migrate_loop_frame files k (roundtrip_candidates files Hrt)
              (listing files) [] 0%Z w)
    as (n & w' & Hrun & Hinv & Hm & Hs).
  - simpl. by rewrite listing_names.
  - split; [done|]. exists files. split_and!; try done.
    + intros e f sess He. by apply elem_of_nil in He.
    + intros Hrf. split; [done|]. intros e f He. by apply elem_of_nil in He.
  - intros e f sess He Hi Hf Hsess.
    destruct (find_file_Some _ _ _ Hf) as [Hin Hname].
    apply (Hkeys f sess Hin); [|done].
    destruct (entry_importable_true _ _ Hi) as (_ & Hj & _).
    unfold importable. rewrite Hname, Hj, Hsess. reflexivity.
  - exists n, w'. rewrite (MigrateFromJSON_listing w files Hfs).
    split; [done|]. split; [done|]. split; [done|].
    destruct Hinv as ([Hf' Htx'] & _).
    rewrite !GetHistory_eq, !GetSummary_eq by (done || apply Hq). simpl.
    unfold select_messages. rewrite Hm.
    by rewrite !select_summary_session_of, Hs.
Qed.

End Importing.

(** ** What the importer stores and reports *)

Section Imported.
Context {ToolCall : Type} `{!JSON ToolCall}.

(** What a run stores for a candidate that is alone with its key. *)
Lemma migrate_stores (w : World) (files : list File) (f : File)
    (sess : jsonSession ToolCall) :
  quiet w →
  w_fs w = DirOf files →
  NoDup (f_name <$> files) →
  candidates_roundtrip (ToolCall:=ToolCall) files →
  f ∈ files → importable f = true → file_session f = Some sess →
  (∀ g other, g ∈ files → importable g = true → file_session g = Some other →
     Key other = Key sess → g = f) →
  messages_of (Key sess) (w_db w) = [] →
  ∃ n w',
    MigrateFromJSON (ToolCall:=ToolCall) w = (Ok n, w') ∧
    migrating files (listing files) n w' ∧
    GetHistory (Key sess) w' = (Ok (slice_of (Messages sess)), w') ∧
    m_seq <$> select_messages (Key sess) (w_db w')
      = seqZ 1 (Z.of_nat (length (Messages sess))) ∧
    (session_of (Key sess) (w_db w) = None →
     GetSummary (Key sess) w' = (Ok (Summary sess), w')).
Proof.
  intros Hq Hfs Hnd Hrt Hin Himp Hsess Huniq Hempty.
  set (ef := mkDirEntry (f_name f) (f_is_dir f)).
  assert (ef ∈ listing files) as Hef by (apply elem_of_listing; by exists f).
  apply list_elem_of_split in Hef as (before & after & Hsplit).
  assert (NoDup (e_name <$> before ++ ef :: after)) as Hndl.
  { rewrite <- Hsplit. by rewrite listing_names. }
  assert (entry_importable (ToolCall:=ToolCall) files ef = true) as Hief.
  { unfold ef. by rewrite importable_entry. }
  assert (find_file (e_name ef) files = Some f) as Hfind
    by (by apply find_file_unique).
  assert (∀ e g other,
            e ∈ before ++ after → entry_importable files e = true →
            find_file (e_name e) files = Some g → file_session g = Some other →
            Key other ≠ Key sess) as Hothers.
  { intros e g other He Hi Hg Ho Heq.
    destruct (find_file_Some _ _ _ Hg) as [Hgin Hgname].
    destruct (entry_importable_true _ _ Hi) as (_ & Hj & _).
    assert (g = f) as ->.
    { apply (Huniq g other); [done| |done|done].
      unfold importable. rewrite Hgname, Hj, Ho. reflexivity. }
    assert (e_name e = e_name ef) as Hsame by (by rewrite <- Hgname).
    rewrite fmap_app, fmap_cons in Hndl.
    apply NoDup_app in Hndl as (_ & Hdisj & Hnd2).
    apply NoDup_cons in Hnd2 as [Hnot _].
    apply elem_of_app in He as [He|He].
    - apply (Hdisj (e_name e)); [by apply list_elem_of_fmap_2|].
      rewrite Hsame. by left.
    - apply Hnot. rewrite <- Hsame. by apply list_elem_of_fmap_2. }
  (* the entries listed before the file *)
  destruct (migrate_loop_frame files (Key sess) Hrt
              before [] 0%Z w)
    as (n1 & w1 & Hrun1 & Hinv1 & Hm1 & Hs1).
  { simpl. rewrite fmap_app in Hndl. by apply NoDup_app in Hndl as (? & _). }
  { split; [done|]. exists files. split_and!; try done.
    - intros e g s He. by apply elem_of_nil in He.
    - intros Hrf. split; [done|]. intros e g He. by apply elem_of_nil in He. }
  { intros e g other He. apply Hothers. apply elem_of_app. by left. }
  simpl in Hinv1.
  (* the file itself *)
  destruct (migrate_step_db files before n1 ef w1 Hrt)
    as (n2 & w2 & Hstep & Hinv2 & _ & Himport).
  { rewrite fmap_app, fmap_cons in Hndl.
    apply NoDup_app in Hndl as (_ & Hdisj & _).
    intros Hin'. apply (Hdisj _ Hin'). by left. }
  { done. }
  destruct (Himport f sess Hief Hfind Hsess) as (v & Hrunv & Hdb2).
  assert (quiet w1) as Hq1 by apply Hinv1.
  assert (json_name (f_name f) = true) as Hjf.
  { unfold importable in Himp. by apply andb_true_iff in Himp as [? _]. }
  destruct (importSession_run sess w1 Hq1 (Hrt f sess Hin Hjf Hsess))
    as (v' & Hrunv' & _ & _ & Hhas & _ & _ & Hfill).
  rewrite Hrunv in Hrunv'. injection Hrunv' as <-.
  destruct Hfill as [Hseq Hrows]; [by rewrite Hm1|].
  (* the entries listed after it *)
  destruct (migrate_loop_frame files (Key sess) Hrt
              after (before ++ [ef]) n2 w2)
    as (n3 & w3 & Hrun3 & Hinv3 & Hm3 & Hs3).
  { by rewrite <- app_assoc. }
  { done. }
  { intros e g other He. apply Hothers. apply elem_of_app. by right. }
  exists n3, w3.
  assert (quiet w3) as [Hf3 Htx3] by apply Hinv3.
  split_and!.
  - rewrite (MigrateFromJSON_listing w files Hfs), Hsplit.
    rewrite (migrate_entries_app before (ef :: after) 0%Z w n1 w1 Hrun1).
    simpl. unfold mbind, M_bind. by rewrite Hstep.
  - rewrite Hsplit. rewrite <- app_assoc in Hinv3. exact Hinv3.
  - rewrite GetHistory_eq by done.
    rewrite (select_consecutive _ _ (length (Messages sess)))
      by (by rewrite Hm3, Hdb2).
    by rewrite Hm3, Hdb2, Hrows.
  - rewrite (select_consecutive _ _ (length (Messages sess)))
      by (by rewrite Hm3, Hdb2).
    by rewrite Hm3, Hdb2.
  - intros Hnone. rewrite GetSummary_eq by done.
    rewrite select_summary_session_of, Hs3, Hdb2.
    destruct (importSession_new_row sess w1 (Ok tt) v) as [Hbad|Hrow].
    + apply Hq1.
    + by rewrite Hs1.
    + done.
    + apply session_of_has in Hhas. done.
    + by rewrite Hrow.
Qed.

(** X14. A well-formed candidate file whose key no other candidate shares
    and for which the store holds no message is imported whole: after the
    run the history of that key is the list of messages of the file, in
    the order of the file and numbered from 1, and when the session had no
    row its summary is the one of the file.  The key is the one written
    inside the file, whatever the file is called. *)
Theorem importer_stores_under_key (w : World) (files : list File) (f : File)
    (sess : jsonSession ToolCall) :
  quiet w →
  w_fs w = DirOf files →
  NoDup (f_name <$> files) →
  sessions_roundtrip (ToolCall:=ToolCall) files →
  f ∈ files → importable f = true → file_session f = Some sess →
  (∀ g other, g ∈ files → importable g = true → file_session g = Some other →
     Key other = Key sess → g = f) →
  messages_of (Key sess) (w_db w) = [] →
  ∃ n w',
    MigrateFromJSON (ToolCall:=ToolCall) w = (Ok n, w') ∧
    GetHistory (Key sess) w' = (Ok (slice_of (Messages sess)), w') ∧
    m_seq <$> select_messages (Key sess) (w_db w')
      = seqZ 1 (Z.of_nat (length (Messages sess))) ∧
    (session_of (Key sess) (w_db w) = None →
     GetSummary (Key sess) w' = (Ok (Summary sess), w')).
Proof.
  intros Hq Hfs Hnd Hrt Hin Himp Hsess Huniq Hempty.
  destruct (migrate_stores w files f sess Hq Hfs Hnd
              (roundtrip_candidates files Hrt) Hin Himp Hsess Huniq Hempty)
    as (n & w' & Hrun & _ & Hrest).
  by exists n, w'.
Qed.

(** X15. The importer reports an error in one case only: the directory
    exists and cannot be listed.  It then returns the wrapped error and has
    done nothing.  No failure of the store or of a file is ever reported. *)
Theorem importer_error_only_from_listing (w : World) :
  ((∃ e w', MigrateFromJSON (ToolCall:=ToolCall) w = (Err e, w')) ↔
   w_fs w = DirDenied) ∧
  (w_fs w = DirDenied →
   MigrateFromJSON (ToolCall:=ToolCall) w
   = (Err (ErrWrap "memory: read sessions dir" ErrIO), w)).
Proof.
  assert (w_fs w = DirDenied →
          MigrateFromJSON (ToolCall:=ToolCall) w
          = (Err (ErrWrap "memory: read sessions dir" ErrIO), w)) as Hdenied.
  { intros Hfs. unfold MigrateFromJSON, os_ReadDir. unfold_M. by rewrite Hfs. }
  split; [|done]. split.
  - intros (e & w' & Hrun). destruct (w_fs w) as [| |files] eqn:Hfs; [|done|].
    + unfold MigrateFromJSON, os_ReadDir in Hrun. unfold_M.
      by rewrite Hfs in Hrun.
    + rewrite (MigrateFromJSON_listing w files Hfs) in Hrun.
      destruct (migrate_entries_total (ToolCall:=ToolCall) (listing files) 0%Z w)
        as (n & v & Hok).
      by rewrite Hok in Hrun.
  - intros Hfs. eexists _, _. by apply Hdenied.
Qed.

End Imported.

(** ** Two runs of the importer *)

Section Twice.
Context {ToolCall : Type} `{!JSON ToolCall}.

(** An import never empties a session. *)
Lemma importSession_keeps_rows (sess : jsonSession ToolCall) k w w1 :
  quiet w →
  Forall (λ m, json_roundtrips (ToolCalls m)) (Messages sess) →
  importSession sess w = (Ok tt, w1) →
  messages_of k (w_db w) ≠ [] → messages_of k (w_db w1) ≠ [].
Proof.
  intros Hq Hrt Hrun Hk.
  destruct (decide (Key sess = k)) as [<-|Hne].
  - destruct (importSession_run sess w Hq Hrt) as (v & Hv & _ & _ & _ & _ & Hsome & _).
    rewrite Hrun in Hv. injection Hv as <-.
    destruct (Hsome Hk) as [-> _].
    unfold messages_of. by rewrite messages_insert_or_ignore.
  - destruct (importSession_frame sess k w (Ok tt) w1) as [-> _]; try done.
    apply Hq.
Qed.

(** After an import the session has rows, unless the record has none. *)
Lemma importSession_stored (sess : jsonSession ToolCall) w w1 :
  quiet w →
  Forall (λ m, json_roundtrips (ToolCalls m)) (Messages sess) →
  importSession sess w = (Ok tt, w1) →
  messages_of (Key sess) (w_db w1) ≠ [] ∨ Messages sess = [].
Proof.
  intros Hq Hrt Hrun.
  destruct (importSession_run sess w Hq Hrt)
    as (v & Hv & _ & _ & _ & _ & Hsome & Hnone).
  rewrite Hrun in Hv. injection Hv as <-.
  destruct (messages_of (Key sess) (w_db w)) as [|r rows] eqn:E.
  - destruct (Hnone eq_refl) as [_ Hrows].
    destruct (messages_of (Key sess) (w_db w1)) as [|r1 rows1]; [|by left].
    right. simpl in Hrows. by injection Hrows.
  - left. destruct Hsome as [-> _]; [done|].
    unfold messages_of. rewrite messages_insert_or_ignore.
    unfold messages_of in E. by rewrite E.
Qed.

(** A record without messages, imported into a session that is there and
    has no rows, changes nothing in the store. *)
Lemma importSession_nothing (sess : jsonSession ToolCall) w :
  quiet w →
  has_session (Key sess) (w_db w) = true →
  Messages sess = [] →
  ∃ w1, importSession sess w = (Ok tt, w1) ∧ w_db w1 = w_db w.
Proof.
  intros Hq Hhas Hnil.
  assert (Forall (λ m, json_roundtrips (ToolCalls m)) (Messages sess)) as Hrt
    by (rewrite Hnil; constructor).
  destruct (importSession_run sess w Hq Hrt)
    as (w1 & Hrun & Hq1 & _ & _ & _ & Hsome & Hnone).
  exists w1. split; [done|].
  destruct w as [db tx fl ck tk fs]. destruct Hq as [Hf Ht]. simpl in *. subst.
  revert Hrun. unfold importSession. unfold_M. unfold_set. simpl.
  unfold insert_or_ignore_session. rewrite Hhas.
  unfold select_count. case_bool_decide as Hc.
  - by intros [= <-].
  - rewrite Hnil. simpl. by intros [= <-].
Qed.

(** The loop with an invariant of the store: passing over an entry keeps
    it, and so does the import of a candidate. *)
Lemma migrate_loop_inv files0 (Inv : list DirEntry → DB → Prop) :
  candidates_roundtrip (ToolCall:=ToolCall) files0 →
  (∀ done e db,
     entry_importable (ToolCall:=ToolCall) files0 e = false →
     Inv done db → Inv (done ++ [e]) db) →
  (∀ done e f sess w w1,
     entry_importable files0 e = true →
     find_file (e_name e) files0 = Some f → file_session f = Some sess →
     quiet w → Inv done (w_db w) →
     importSession sess w = (Ok tt, w1) → Inv (done ++ [e]) (w_db w1)) →
  ∀ rest done migrated w,
    NoDup (e_name <$> done ++ rest) →
    migrating files0 done migrated w →
    Inv done (w_db w) →
    ∃ migrated' w',
      migrate_entries rest migrated w = (Ok migrated', w') ∧
      migrating files0 (done ++ rest) migrated' w' ∧
      Inv (done ++ rest) (w_db w').
Proof.
  intros Hrt Hskip Himport.
  induction rest as [|e rest IH]; intros done migrated w Hnd Hinv HI.
  - exists migrated, w. by rewrite app_nil_r.
  - destruct (migrate_step_db files0 done migrated e w Hrt)
      as (m1 & w1 & Hstep & Hinv1 & Hs & Hi).
    + rewrite fmap_app in Hnd. apply NoDup_app in Hnd as (_ & Hdisj & _).
      intros Hin. apply (Hdisj _ Hin). csimpl. by left.
    + done.
    + assert (Inv (done ++ [e]) (w_db w1)) as HI1.
      { destruct (entry_importable files0 e) eqn:Ei.
        - destruct (entry_importable_true _ _ Ei) as (_ & _ & f & sess & Hf & Hsess).
          destruct (Hi f sess eq_refl Hf Hsess) as (v & Hrun & ->).
          apply (Himport done e f sess w v); try done. apply Hinv.
        - rewrite Hs by done. by apply Hskip. }
      destruct (IH (done ++ [e]) m1 w1) as (m2 & w2 & Hrest & Hinv2 & HI2).
      * by rewrite <- app_assoc.
      * done.
      * done.
      * exists m2, w2. rewrite <- app_assoc in Hinv2, HI2. split_and!; [|done..].
        simpl. unfold mbind, M_bind. by rewrite Hstep.
Qed.

(** A run over a directory, with an invariant of the store. *)
Lemma MigrateFromJSON_inv files (Inv : list DirEntry → DB → Prop) w :
  quiet w → w_fs w = DirOf files → NoDup (f_name <$> files) →
  candidates_roundtrip (ToolCall:=ToolCall) files →
  (∀ done e db,
     entry_importable (ToolCall:=ToolCall) files e = false →
     Inv done db → Inv (done ++ [e]) db) →
  (∀ done e f sess w w1,
     entry_importable files e = true →
     find_file (e_name e) files = Some f → file_session f = Some sess →
     quiet w → Inv done (w_db w) →
     importSession sess w = (Ok tt, w1) → Inv (done ++ [e]) (w_db w1)) →
  Inv [] (w_db w) →
  ∃ n w',
    MigrateFromJSON (ToolCall:=ToolCall) w = (Ok n, w') ∧
    migrating files (listing files) n w' ∧
    Inv (listing files) (w_db w').
Proof.
  intros Hq Hfs Hnd Hrt Hskip Himport HI.
  destruct (migrate_loop_inv files Inv Hrt Hskip Himport (listing files) [] 0%Z w)
    as (n & w' & Hrun & Hinv & HI').
  - simpl. by rewrite listing_names.
  - split; [done|]. exists files. split_and!; try done.
    + intros e f sess He. by apply elem_of_nil in He.
    + intros Hrf. split; [done|]. intros e f He. by apply elem_of_nil in He.
  - done.
  - exists n, w'. by rewrite (MigrateFromJSON_listing w files Hfs).
Qed.

(** The entry of a candidate file. *)
Lemma candidate_entry files f (sess : jsonSession ToolCall) :
  NoDup (f_name <$> files) → f ∈ files →
  json_name (f_name f) = true → file_session f = Some sess →
  let e := mkDirEntry (f_name f) (f_is_dir f) in
  e ∈ listing files ∧ entry_importable (ToolCall:=ToolCall) files e = true ∧
  find_file (e_name e) files = Some f ∧ importable (ToolCall:=ToolCall) f = true.
Proof.
  intros Hnd Hin Hj Hs. simpl.
  assert (importable (ToolCall:=ToolCall) f = true) as Himp.
  { unfold importable. rewrite Hj. simpl. apply bool_decide_eq_true. by exists sess. }
  split_and!.
  - apply elem_of_listing. by exists f.
  - by rewrite importable_entry.
  - by apply find_file_unique.
  - done.
Qed.

(** After a run every candidate has its session, with rows unless its
    record has none. *)
Lemma MigrateFromJSON_stored files w :
  quiet w → w_fs w = DirOf files → NoDup (f_name <$> files) →
  candidates_roundtrip (ToolCall:=ToolCall) files →
  ∃ n w',
    MigrateFromJSON (ToolCall:=ToolCall) w = (Ok n, w') ∧
    migrating files (listing files) n w' ∧
    candidates_stored (ToolCall:=ToolCall) files (w_db w').
Proof.
  intros Hq Hfs Hnd Hrt.
  destruct (MigrateFromJSON_inv files
              (λ done db,
                 ∀ e f (sess : jsonSession ToolCall),
                   e ∈ done → entry_importable (ToolCall:=ToolCall) files e = true →
                   find_file (e_name e) files = Some f →
                   file_session f = Some sess →
                   messages_of (Key sess) db ≠ [] ∨ Messages sess = [])
              w Hq Hfs Hnd Hrt)
    as (n & w' & Hrun & Hinv & HI).
  - intros done e db He HI e' f sess Hin Hi.
    apply elem_of_app in Hin as [Hin|Hin]; [by apply HI|].
    apply list_elem_of_singleton in Hin as ->. congruence.
  - intros done e f sess v v1 Hi Hf Hs Hqv HI Hrun e' f' sess' Hin Hi' Hf' Hs'.
    destruct (find_file_Some _ _ _ Hf) as [Hfin Hname].
    destruct (entry_importable_true _ _ Hi) as (_ & Hj & _).
    assert (Forall (λ m, json_roundtrips (ToolCalls m)) (Messages sess)) as Hr.
    { apply (Hrt f sess Hfin); [by rewrite Hname|done]. }
    apply elem_of_app in Hin as [Hin|Hin].
    + destruct (HI e' f' sess' Hin Hi' Hf' Hs') as [Hrows|Hnil]; [|by right].
      left. by apply (importSession_keeps_rows sess _ v v1).
    + apply list_elem_of_singleton in Hin as ->.
      assert (f' = f) as -> by congruence.
      assert (sess' = sess) as -> by congruence.
      by apply (importSession_stored sess v v1).
  - intros e f sess He. by apply elem_of_nil in He.
  - exists n, w'. split; [done|]. split; [done|].
    intros f sess Hin Hj Hs.
    destruct (candidate_entry files f sess Hnd Hin Hj Hs) as (He & Hi & Hf & _).
    split.
    + destruct Hinv as (_ & files' & _ & _ & _ & Hsess & _).
      by apply (Hsess _ f sess He Hi Hf).
    + by apply (HI _ f sess He Hi Hf).
Qed.

(** A run over a directory whose candidates are all stored changes nothing
    in the store. *)
Lemma MigrateFromJSON_same files w :
  quiet w → w_fs w = DirOf files → NoDup (f_name <$> files) →
  candidates_roundtrip (ToolCall:=ToolCall) files →
  db_consistent (w_db w) →
  candidates_stored (ToolCall:=ToolCall) files (w_db w) →
  ∃ n w',
    MigrateFromJSON (ToolCall:=ToolCall) w = (Ok n, w') ∧
    migrating files (listing files) n w' ∧
    w_db w' = w_db w.
Proof.
  intros Hq Hfs Hnd Hrt Hdb Hst.
  apply (MigrateFromJSON_inv files (λ _ db, db = w_db w) w); try done.
  intros done e f sess v v1 Hi Hf Hs Hqv Hv Hrun.
  destruct (find_file_Some _ _ _ Hf) as [Hfin Hname].
  destruct (entry_importable_true _ _ Hi) as (_ & Hj & _).
  destruct (Hst f sess Hfin) as [Hhas [Hrows|Hnil]]; [by rewrite Hname|done|..].
  - rewrite (importSession_again sess v) in Hrun; [|done|by rewrite Hv|by rewrite Hv].
    by injection Hrun as <-.
  - destruct (importSession_nothing sess v Hqv) as (v' & Hv' & Hdb'); [by rewrite Hv|done|].
    rewrite Hrun in Hv'. injection Hv' as <-. by rewrite Hdb'.
Qed.

End Twice.

(** ** The test for processed files *)

Lemma HasSuffix_nested s t u :
  HasSuffix s t = true → HasSuffix s u = true →
  (String.length u ≤ String.length t)%nat → HasSuffix t u = true.
Proof.
  induction s as [|a s IH]; rewrite ?HasSuffix_cons, ?HasSuffix_nil.
  - case_eqb E; [|done]. apply String.eqb_eq in E as <-.
    case_eqb E'; [|done]. by apply String.eqb_eq in E' as <-.
  - case_eqb E.
    + apply String.eqb_eq in E as <-. intros _.
      by rewrite HasSuffix_cons.
    + intros Ht. case_eqb E'.
      * apply String.eqb_eq in E' as <-. intros _ Hlen.
        apply HasSuffix_length in Ht. simpl in Hlen. lia.
      * by apply IH.
Qed.

(** X16. A name that ends in [.json] never ends in [.migrated]: the second
    test of the loop of [MigrateFromJSON] never fires, and the files the
    importer has renamed are skipped by the first one.  A candidate is
    exactly a name that ends in [.json]. *)
Theorem migrated_check_is_dead (name : string) :
  (HasSuffix name ".json" = true → HasSuffix name ".migrated" = false) ∧
  json_name name = HasSuffix name ".json" ∧
  HasSuffix (name +:+ ".migrated") ".json" = false.
Proof.
  assert (∀ s, HasSuffix s ".json" = true → HasSuffix s ".migrated" = false)
    as Hdead.
  { intros s Hj. destruct (HasSuffix s ".migrated") eqn:Hm; [|done].
    pose proof (HasSuffix_nested s ".migrated" ".json" Hm Hj) as Hbad.
    simpl in Hbad. discriminate Hbad. lia. }
  split_and!.
  - apply Hdead.
  - unfold json_name. destruct (HasSuffix name ".json") eqn:Hj; [|done].
    by rewrite (Hdead name Hj).
  - destruct (HasSuffix (name +:+ ".migrated") ".json") eqn:Hj; [|done].
    apply Hdead in Hj. by rewrite HasSuffix_app in Hj.
Qed.

(** ** Time stamps *)

Lemma session_of_key key db s : session_of key db = Some s → s_key s = key.
Proof.
  unfold session_of. intros Hh%head_Some_elem_of.
  by apply list_elem_of_filter in Hh as [Hk _].
Qed.

Lemma session_of_update_updated_at now key db :
  session_of key (update_updated_at now key db)
  = (λ s, mkSessionRow key (s_summary s) (s_created_at s) now)
      <$> session_of key db.
Proof.
  unfold session_of, update_updated_at. simpl.
  induction (sessions db) as [|s ss IH]; [done|]. csimpl.
  rewrite !filter_cons.
  destruct (decide (s_key s = key)) as [Hk|Hk]; simpl.
  - rewrite decide_True by done. simpl. by rewrite Hk.
  - rewrite decide_False by done. apply IH.
Qed.

Lemma session_of_update_summary_row summary now key db :
  session_of key (update_summary summary now key db)
  = (λ s, mkSessionRow key summary (s_created_at s) now) <$> session_of key db.
Proof.
  unfold session_of, update_summary. simpl.
  induction (sessions db) as [|s ss IH]; [done|]. csimpl.
  rewrite !filter_cons.
  destruct (decide (s_key s = key)) as [Hk|Hk]; simpl.
  - rewrite decide_True by done. simpl. by rewrite Hk.
  - rewrite decide_False by done. apply IH.
Qed.

Lemma session_of_insert_or_ignore_row key summary created updated db :
  session_of key (insert_or_ignore_session key summary created updated db)
  = Some (default (mkSessionRow key summary created updated) (session_of key db)).
Proof.
  destruct (session_of key db) as [s|] eqn:E.
  - rewrite session_of_insert_or_ignore by (by rewrite E). by rewrite E.
  - by rewrite session_of_insert_or_ignore_new.
Qed.

Section Stamps.
Context {ToolCall : Type} `{!JSON ToolCall}.

(** X17. On a store without faults a writer stamps the session with the
    clock readings of the call: [updated_at] becomes the last reading,
    and a row the call creates gets the first reading as [created_at] and
    an empty summary, while a row that exists keeps its own.
    [TruncateHistory] stamps the row when there is one and creates
    none. *)
Theorem writers_stamp_session (key : string) (w : World) :
  quiet w →
  seq_room key (w_db w) →
  (∀ summary, ∃ w1,
     SetSummary key summary w = (Ok tt, w1) ∧
     session_of key (w_db w1)
     = Some (mkSessionRow key summary
               (default (w_clock w (w_ticks w))
                  (s_created_at <$> session_of key (w_db w)))
               (w_clock w (1 + w_ticks w)))) ∧
  (∀ keepLast, ∃ w1,
     TruncateHistory key keepLast w = (Ok tt, w1) ∧
     session_of key (w_db w1)
     = (λ s, mkSessionRow key (s_summary s) (s_created_at s)
               (w_clock w (w_ticks w)))
         <$> session_of key (w_db w)) ∧
  (∀ (msg : Message ToolCall) tcj,
     stored_json (ToolCalls msg) = Ok tcj →
     ∃ w1,
       AddFullMessage key msg w = (Ok tt, w1) ∧
       session_of key (w_db w1)
       = Some (mkSessionRow key (summary_of key (w_db w))
                 (default (w_clock w (w_ticks w))
                    (s_created_at <$> session_of key (w_db w)))
                 (w_clock w (2 + w_ticks w)))).
Proof.
  intros Hq Hroom. split_and!.
  - intros summary. eexists. split; [by apply SetSummary_run|]. simpl.
    rewrite session_of_update_summary_row, session_of_insert_or_ignore_row.
    by destruct (session_of key (w_db w)).
  - intros keepLast. eexists. split; [by apply TruncateHistory_run|]. simpl.
    rewrite session_of_update_updated_at. by case_bool_decide.
  - intros msg tcj Hj.
    pose proof (next_seq_fresh key (w_db w) Hroom) as Hfresh.
    eexists. split.
    + apply (AddFullMessage_run key msg w tcj); [done..|].
      apply insert_message_appends.
      * apply has_session_insert_or_ignore.
      * intros r Hr. unfold messages_of in Hr.
        rewrite messages_insert_or_ignore in Hr.
        specialize (Hfresh r Hr). lia.
    + simpl. rewrite session_of_update_updated_at.
      unfold session_of at 1. simpl.
      fold (session_of key
              (insert_or_ignore_session key EmptyString (w_clock w (w_ticks w))
                 (w_clock w (w_ticks w)) (w_db w))).
      rewrite session_of_insert_or_ignore_row.
      unfold summary_of. rewrite select_summary_session_of.
      by destruct (session_of key (w_db w)).
Qed.

End Stamps.

(** ** The heartbeat service *)

Section HeartbeatService.
Import Heartbeat.

Lemma log_appends hs message h :
  ∃ lines, h_log (log hs message h) = h_log h ++ lines ∧ (List.length lines ≤ 1)%nat ∧
           (h_log_opens h = false → lines = []) ∧
           h_loops (log hs message h) = h_loops h ∧
           h_calls (log hs message h) = h_calls h ∧
           h_info (log hs message h) = h_info h ∧
           h_log_opens (log hs message h) = h_log_opens h.
Proof.
  unfold log. destruct (h_log_opens h) eqn:E; simpl.
  - eexists [_]. split_and!; done.
  - exists []. rewrite app_nil_r. split_and!; try done. simpl. lia.
Qed.

(** X18. A service that has not been stopped counts as running, started or
    not: [Start] on the service [NewHeartbeatService] returns gives no
    error and starts no loop, enabled or not.  [Start] starts a loop only
    on a stopped, enabled service, and on a stopped service
    [checkHeartbeat] returns at once: no handler is called, nothing is
    logged.  [Stop] closes the channel once and never panics, and a
    stopped service stays stopped. *)
Theorem Start_launches_only_when_stopped (hs : HeartbeatService) (h : Host) :
  (∀ workspace handler intervalS on,
     Start (NewHeartbeatService workspace handler intervalS on) h = (None, h)) ∧
  (running hs = true → Start hs h = (None, h)) ∧
  (h_loops (snd (Start hs h)) ≠ h_loops h ↔
   running hs = false ∧ enabled hs = true) ∧
  (running hs = false →
     (∀ h', checkHeartbeat hs h' = Returns h') ∧
     (enabled hs = false →
        Start hs h = (Some "heartbeat service is disabled", h)) ∧
     (enabled hs = true →
        Start hs h = (None, go_runLoop h)) ∧
     Stop hs = Returns hs ∧
     ∀ handler, running (SetOnHeartbeatWithTools handler hs) = false) ∧
  (∃ hs', Stop hs = Returns hs' ∧ running hs' = false ∧
          Stop hs' = Returns hs' ∧
          enabled hs' = enabled hs ∧
          onHeartbeat hs' = onHeartbeat hs ∧
          onHeartbeatWithTools hs' = onHeartbeatWithTools hs).
Proof.
  split_and!.
  - done.
  - intros Hr. unfold Start. by rewrite Hr.
  - unfold Start. destruct (running hs), (enabled hs); simpl; split;
      try done; try (by intros [? ?]); intros _; lia.
  - intros Hr. split_and!.
    + intros h'. unfold checkHeartbeat. rewrite Hr.
      by rewrite orb_true_r.
    + intros He. unfold Start. by rewrite Hr, He.
    + intros He. unfold Start. by rewrite Hr, He.
    + unfold Stop. by rewrite Hr.
    + intros handler. exact Hr.
  - unfold Stop, running. destruct hs as [ws f g i en []]; simpl.
    + eexists. split; [done|]. done.
    + eexists. split; [done|]. done.
Qed.

(** X19. [checkHeartbeat] never panics.  On an enabled service that has
    not been stopped it builds the prompt from the notes file (empty when
    the file cannot be read) and calls one handler with it: the handler
    with tools when one is set, the legacy one only when none is, and none
    when neither is set.  It starts no loop and writes at most one line at
    the end of the log, none when the log cannot be opened.
    [ExecuteHeartbeatWithTools] panics exactly when no handler with tools
    is set. *)
Theorem checkHeartbeat_calls_one_handler (hs : HeartbeatService) (h : Host) :
  (∀ prompt,
     ExecuteHeartbeatWithTools hs prompt h = Panics ↔
     onHeartbeatWithTools hs = None) ∧
  ∃ h',
    checkHeartbeat hs h = Returns h' ∧
    h_loops h' = h_loops h ∧
    (∃ lines, h_log h' = h_log h ++ lines ∧ (List.length lines ≤ 1)%nat ∧
              (h_log_opens h = false → lines = [])) ∧
    (enabled hs = true → running hs = true →
     h_calls h'
     = h_calls h ++
         match onHeartbeatWithTools hs, onHeartbeat hs with
         | Some _, _ => [(tools_handler, fst (buildPrompt hs h))]
         | None, Some _ => [(legacy_handler, fst (buildPrompt hs h))]
         | None, None => []
         end) ∧
    (enabled hs = false ∨ running hs = false → h' = h).
Proof.
  split.
  - intros prompt. unfold ExecuteHeartbeatWithTools, executeHeartbeatWithTools.
    destruct (onHeartbeatWithTools hs) as [handler|]; [|done].
    split; [|done].
    destruct (handler prompt) as [result|]; [|done].
    destruct (IsError result); [done|]. by destruct (Async result).
  - unfold checkHeartbeat.
    destruct (enabled hs) eqn:He; cbn [negb orb].
    2:{ exists h. split_and!; try done.
        exists []. rewrite app_nil_r. split_and!; [done|simpl; lia|done]. }
    destruct (running hs) eqn:Hr; cbn [negb orb].
    2:{ exists h. split_and!; try done.
        exists []. rewrite app_nil_r. split_and!; [done|simpl; lia|done]. }
    destruct (buildPrompt hs h) as [prompt h1] eqn:Eb. cbn [fst].
    assert (h_loops h1 = h_loops h ∧ h_log h1 = h_log h ∧
            h_calls h1 = h_calls h ∧ h_log_opens h1 = h_log_opens h)
      as (Hloops1 & Hlog1 & Hcalls1 & Hopens1).
    { unfold buildPrompt in Eb. simpl in Eb. by injection Eb as _ <-. }
    assert (∀ kind message,
              let h' := log hs message (called kind prompt h1) in
              h_loops h' = h_loops h ∧
              (∃ lines, h_log h' = h_log h ++ lines ∧ (List.length lines ≤ 1)%nat ∧
                        (h_log_opens h = false → lines = [])) ∧
              h_calls h' = h_calls h ++ [(kind, prompt)] ∧
              h_info h' = h_info h1) as Hleaf.
    { intros kind message h'.
      destruct (log_appends hs message (called kind prompt h1))
        as (lines & Hl & Hn & Hclosed & Hloops & Hcalls & Hinfo & _).
      unfold h'. rewrite Hloops, Hcalls, Hl. simpl.
      rewrite Hloops1, Hlog1, Hcalls1. split_and!; try done.
      exists lines. split_and!; [done|done|].
      intros Ho. apply Hclosed. simpl. by rewrite Hopens1. }
    unfold executeHeartbeatWithTools.
    destruct (onHeartbeatWithTools hs) as [handler|] eqn:Et.
    + destruct (handler prompt) as [result|].
      * destruct (IsError result).
        -- eexists. split; [done|].
           destruct (Hleaf tools_handler ("Heartbeat error: " +:+ ForLLM result))
             as (Hl & Hlines & Hc & _).
           split_and!; [done|done|by intros _ _|by intros [?|?]].
        -- destruct (Async result).
           ++ eexists. split; [done|].
              destruct (Hleaf tools_handler ("Async task started: " +:+ ForLLM result))
                as (Hl & Hlines & Hc & _).
              split_and!; [done|done|by intros _ _|by intros [?|?]].
           ++ eexists. split; [done|].
              destruct (Hleaf tools_handler ("Heartbeat completed: " +:+ ForLLM result))
                as (Hl & Hlines & Hc & _).
              split_and!; [done|done|by intros _ _|by intros [?|?]].
      * eexists. split; [done|].
        destruct (Hleaf tools_handler "Heartbeat handler returned nil result")
          as (Hl & Hlines & Hc & _).
        split_and!; [done|done|by intros _ _|by intros [?|?]].
    + destruct (onHeartbeat hs) as [handler|] eqn:El.
      * destruct (snd (handler prompt)) as [err|].
        -- eexists. split; [done|].
           destruct (Hleaf legacy_handler ("Heartbeat error: " +:+ err))
             as (Hl & Hlines & Hc & _).
           split_and!; [done|done|by intros _ _|by intros [?|?]].
        -- eexists. split; [done|]. simpl.
           split_and!; [done| |by rewrite Hcalls1|by intros [?|?]].
           exists []. rewrite app_nil_r. split_and!; [done|simpl; lia|done].
      * exists h1. split; [done|].
        split_and!; [done| |by rewrite app_nil_r|by intros [?|?]].
        exists []. rewrite app_nil_r. split_and!; [done|simpl; lia|done].
Qed.

End HeartbeatService.

(** ** Files that share a key *)

Section Duplicates.
Context {ToolCall : Type} `{!JSON ToolCall}.

(** X20. A well-formed candidate file whose key already has messages in
    the store is counted as migrated and renamed like any other, yet none
    of its messages is stored and the database does not change: what the
    store held for that key wins, whatever the file contains. *)
Theorem migrate_entry_counts_duplicate (migrated : Z) (e : DirEntry) (w : World)
    (files : list File) (f : File) (sess : jsonSession ToolCall) :
  quiet w →
  db_consistent (w_db w) →
  w_fs w = DirOf files →
  e_is_dir e = false →
  json_name (e_name e) = true →
  find_file (e_name e) files = Some f →
  file_session f = Some sess →
  messages_of (Key sess) (w_db w) ≠ [] →
  ∃ w',
    migrate_entry migrated e w = (Ok (migrated + 1)%Z, w') ∧
    w_db w' = w_db w ∧
    (f_pinned f = false →
     (∀ g, find_file (e_name e +:+ ".migrated") files = Some g →
           f_is_dir g = false) →
     w_fs w' = DirOf (move_file (e_name e) (e_name e +:+ ".migrated") files)).
Proof.
  intros Hq Hdb Hfs Hdir Hj Hf Hs Hfull.
  pose proof (importSession_again sess w Hq Hdb Hfull) as Himport.
  exists (snd (os_Rename (e_name e) (e_name e +:+ ".migrated") w)).
  split; [by apply (migrate_entry_import migrated e w files f sess)|].
  destruct (os_Rename (e_name e) (e_name e +:+ ".migrated") w) as [r w'] eqn:Er.
  destruct (os_Rename_spec _ _ _ _ _ _ Hfs Er) as (Hdb' & _).
  split; [done|].
  intros Hpin Hfree.
  rewrite (os_Rename_free _ _ w files f Hfs Hf Hpin) in Er.
  - by injection Er as _ <-.
  - apply migrated_fresh.
  - done.
Qed.

End Duplicates.

(** * Tool calls through the store and the codec *)

Section ReadingBack.
Context {ToolCall : Type} `{!JSON ToolCall}.

(** The row of a message whose list of tool calls is marshalled to a text
    holds that text, and is loaded as the message with whatever the text
    unmarshals to. *)
Lemma stored_row (msg : Message ToolCall) text tcs :
  ToolCalls msg ≠ [] →
  json_Marshal (ToolCalls msg) = Ok text → text ≠ EmptyString →
  json_Unmarshal text = Ok tcs →
  stored_json (ToolCalls msg) = Ok (Some text) ∧
  ∀ id key seq now,
    row_message (mkMessageRow id key seq (Role msg) (Content msg) (Some text)
                   (ToolCallID msg) now)
    = Ok (mkMessage (Role msg) (Content msg) tcs (ToolCallID msg)).
Proof.
  intros Hne Hm Htext Hu. split.
  - unfold stored_json. rewrite bool_decide_eq_true_2, Hm; [done|].
    destruct (ToolCalls msg); [done|]. simpl. lia.
  - intros. unfold row_message. simpl.
    rewrite bool_decide_eq_true_2 by done. by rewrite Hu.
Qed.

(** [AddFullMessage] then [GetHistory]: the history is the earlier one and
    the message, with its tool calls as the codec reads them back. *)
Lemma AddFullMessage_reads_back key (msg : Message ToolCall) w w0 h text tcs :
  quiet w → db_consistent (w_db w) → seq_room key (w_db w) →
  ToolCalls msg ≠ [] →
  json_Marshal (ToolCalls msg) = Ok text → text ≠ EmptyString →
  json_Unmarshal text = Ok tcs →
  GetHistory key w = (Ok (slice_of h), w0) →
  ∃ w1,
    AddFullMessage key msg w = (Ok tt, w1) ∧
    GetHistory key w1
    = (Ok (slice_of (h ++ [mkMessage (Role msg) (Content msg) tcs
                             (ToolCallID msg)])), w1).
Proof.
  intros Hq Hdb Hroom Hne Hm Htext Hu Hh.
  destruct (stored_row msg text tcs Hne Hm Htext Hu) as [Hj Hrow].
  destruct (AddFullMessage_appends key msg w (Some text) Hq Hroom Hj)
    as (w1 & id & now & Hadd & Hq1 & Hms).
  apply (GetHistory_inv key w h w0 (proj1 Hq)) in Hh.
  exists w1. split; [done|].
  rewrite GetHistory_eq by apply Hq1.
  unfold select_messages. rewrite Hms.
  rewrite order_asc_snoc.
  - fold (select_messages key (w_db w)).
    by rewrite (rows_messages_snoc _ _ h _ Hh (Hrow _ _ _ _)).
  - by apply consistent_seqs.
  - intros r Hr. simpl. by apply next_seq_fresh.
Qed.

End ReadingBack.

(** * [encoding/json] on tool calls *)

Section Codec.
Import GoJSON.

Lemma byte_chr a : chr (byte a) = a.
Proof. apply Ascii.ascii_N_embedding. Qed.

Lemma byte_inj a n : byte a = n → a = chr n.
Proof. intros <-. by rewrite byte_chr. Qed.

Ltac byte_facts :=
  repeat match goal with
         | H : _ && _ = true |- _ => apply andb_true_iff in H as [? ?]
         | H : _ || _ = false |- _ => apply orb_false_iff in H as [? ?]
         | H : (_ <=? _)%N = true |- _ => apply N.leb_le in H
         | H : (_ <=? _)%N = false |- _ => apply N.leb_gt in H
         | H : (_ <? _)%N = true |- _ => apply N.ltb_lt in H
         | H : (_ <? _)%N = false |- _ => apply N.ltb_ge in H
         | H : (_ =? _)%N = true |- _ => apply N.eqb_eq in H
         | H : (_ =? _)%N = false |- _ => apply N.eqb_neq in H
         end.

Lemma continuation_high c : continuation c = true → (128 ≤ byte c)%N.
Proof. unfold continuation. intros H. byte_facts. lia. Qed.

Lemma second_ok_high n c : second_ok n c = true → (128 ≤ byte c)%N.
Proof.
  unfold second_ok. repeat case_match; try apply continuation_high;
    intros Hc; byte_facts; lia.
Qed.

Lemma head_rune_cases a s1 : head_rune (String a s1).
Proof.
  destruct (rune_width (String a s1)) as [|[|[|[|[|n]]]]] eqn:Hw.
  - apply head_0; [done|]. unfold rune_width in Hw.
    destruct (byte a <? 128)%N eqn:E; [done|]. byte_facts. lia.
  - unfold rune_width in Hw.
    destruct (byte a <? 128)%N eqn:E; [|repeat case_match; done].
    apply head_1; [|byte_facts; lia].
    intros t. unfold rune_width. by rewrite E.
  - unfold rune_width in Hw.
    destruct (byte a <? 128)%N eqn:E; [done|].
    repeat case_match; try done; subst.
    apply head_2; [|byte_facts; lia|by apply continuation_high].
    intros t. unfold rune_width. rewrite E. by repeat case_match.
  - unfold rune_width in Hw.
    destruct (byte a <? 128)%N eqn:E; [done|].
    repeat case_match; try done; subst.
    match goal with
    | H : second_ok _ _ && continuation _ = true |- _ =>
        apply andb_true_iff in H as [Hb Hc]
    end.
    apply head_3; [|byte_facts; lia|by eapply second_ok_high|by apply continuation_high].
    intros t. unfold rune_width. rewrite E. repeat case_match; try done.
    by rewrite Hb, Hc in *.
  - unfold rune_width in Hw.
    destruct (byte a <? 128)%N eqn:E; [done|].
    repeat case_match; try done; subst.
    match goal with
    | H : second_ok _ _ && continuation _ && continuation _ = true |- _ =>
        apply andb_true_iff in H as [H Hd]; apply andb_true_iff in H as [Hb Hc]
    end.
    apply head_4; [|byte_facts; lia|by eapply second_ok_high|by apply continuation_high..].
    intros t. unfold rune_width. rewrite E. repeat case_match; try done.
    by rewrite Hb, Hc, Hd in *.
  - exfalso. unfold rune_width in Hw. repeat case_match; done.
Qed.

(** Induction along the runes of a text. *)
Lemma rune_ind (P : string → Prop) :
  P EmptyString →
  (∀ s, head_rune s →
     (∀ t, (String.length t < String.length s)%nat → P t) → P s) →
  ∀ s, P s.
Proof.
  intros Hnil Hstep s.
  assert (∀ n s, (String.length s < n)%nat → P s) as Hall.
  { induction n as [|n IH]; intros t Ht; [lia|].
    destruct t as [|a t1]; [done|].
    apply Hstep; [apply head_rune_cases|].
    intros u Hu. apply IH. simpl in *. lia. }
  apply (Hall (S (String.length s))). lia.
Qed.

(** A byte that starts no escape and is no control character. *)
Lemma scan_string_high c t :
  (128 ≤ byte c)%N →
  scan_string (String c t) = keep (String c EmptyString) (scan_string t).
Proof.
  intros Hc. cbn [scan_string].
  destruct (byte c =? 34)%N eqn:E1; [byte_facts; lia|].
  destruct (byte c =? 92)%N eqn:E2; [byte_facts; lia|].
  destruct (byte c <? 32)%N eqn:E3; [byte_facts; lia|]. done.
Qed.

Lemma keep_Some prefix raw rest r :
  r = Some (raw, rest) → keep prefix r = Some (prefix +:+ raw, rest).
Proof. by intros ->. Qed.

Lemma appendString_1 a s1 :
  rune_width (String a s1) = 1 →
  appendString (String a s1) = escape_byte a +:+ appendString s1.
Proof. intros Hw. cbn [appendString]. by rewrite Hw. Qed.

Lemma appendString_2 a b s2 :
  rune_width (String a (String b s2)) = 2 →
  appendString (String a (String b s2)) = String a (String b (appendString s2)).
Proof. intros Hw. cbn [appendString]. by rewrite Hw. Qed.

Lemma appendString_0 a s1 :
  rune_width (String a s1) = 0 →
  appendString (String a s1) = "\ufffd" +:+ appendString s1.
Proof. intros Hw. cbn [appendString]. by rewrite Hw. Qed.

(** A byte below [utf8.RuneSelf], case by case. *)
Ltac written_byte :=
  match goal with
  | |- context [escape_byte ?a] =>
      let e := eval vm_compute in (escape_byte a) in
      change (escape_byte a) with e
  end;
  rewrite ?append_cons, ?append_nil.

Lemma scan_string_escape_byte a t raw rest :
  (byte a < 128)%N → scan_string t = Some (raw, rest) →
  scan_string (escape_byte a +:+ t) = Some (escape_byte a +:+ raw, rest).
Proof.
  intros Ha Ht.
  destruct a as [[] [] [] [] [] [] [] []]; try (by vm_compute in Ha);
    written_byte; cbn; rewrite Ht; reflexivity.
Qed.

Lemma unquote_short e d t :
  (byte e =? 117)%N = false → short_escape e = Some d →
  unquote (String "\" (String e t)) = emit (String d EmptyString) (unquote t).
Proof. intros He Hd. cbn [unquote]. by rewrite He, Hd. Qed.

Lemma unquote_u h1 h2 h3 h4 rr t :
  hex4 h1 h2 h3 h4 = Some rr → IsSurrogate rr = false →
  unquote (String "\" (String "u" (String h1 (String h2 (String h3
             (String h4 t))))))
  = emit (EncodeRune rr) (unquote t).
Proof. intros Hh Hs. cbn [unquote]. by rewrite Hh, Hs. Qed.

Lemma unquote_plain c t :
  (byte c =? 34)%N = false → (byte c =? 92)%N = false →
  (byte c <? 32)%N = false → (byte c <? 128)%N = true →
  unquote (String c t) = emit (String c EmptyString) (unquote t).
Proof.
  intros H1 H2 H3 H4. cbn [unquote]. rewrite H1, H2, H3.
  unfold rune_width. by rewrite H4.
Qed.

Lemma unquote_escape_byte a t u :
  (byte a < 128)%N → unquote t = Some u →
  unquote (escape_byte a +:+ t) = Some (String a u).
Proof.
  intros Ha Ht.
  destruct a as [[] [] [] [] [] [] [] []]; try (by vm_compute in Ha);
    written_byte;
    first [ rewrite (unquote_plain _ t) by (vm_compute; reflexivity)
          | erewrite (unquote_short _ _ t) by (vm_compute; reflexivity)
          | erewrite (unquote_u _ _ _ _ _ t) by (vm_compute; reflexivity) ];
    rewrite Ht; vm_compute; reflexivity.
Qed.

Lemma scan_string_u h1 h2 h3 h4 rr t :
  hex4 h1 h2 h3 h4 = Some rr →
  scan_string (String "\" (String "u" (String h1 (String h2 (String h3
                 (String h4 t))))))
  = keep (String "\" (String "u" (String h1 (String h2 (String h3
            (String h4 EmptyString))))))
      (scan_string t).
Proof. intros Hh. cbn [scan_string]. by rewrite Hh. Qed.

Lemma appendString_3 a b c s3 :
  rune_width (String a (String b (String c s3))) = 3 →
  appendString (String a (String b (String c s3)))
  = if line_separator a b c
    then "\u202" +:+ String (hex_digit (byte c mod 16)) (appendString s3)
    else String a (String b (String c (appendString s3))).
Proof. intros Hw. cbn [appendString]. by rewrite Hw. Qed.

Lemma appendString_4 a b c d s4 :
  rune_width (String a (String b (String c (String d s4)))) = 4 →
  appendString (String a (String b (String c (String d s4))))
  = String a (String b (String c (String d (appendString s4)))).
Proof. intros Hw. cbn [appendString]. by rewrite Hw. Qed.

Lemma app_string_assoc s t u : (s +:+ t) +:+ u = s +:+ (t +:+ u).
Proof.
  induction s as [|a s IH]; rewrite ?append_nil, ?append_cons; [done|].
  by rewrite IH.
Qed.

Ltac flatten :=
  repeat first [rewrite app_string_assoc | rewrite append_cons | rewrite append_nil].

Ltac written_digit :=
  match goal with
  | |- context [hex_digit ?n] =>
      let e := eval vm_compute in (hex_digit n) in
      change (hex_digit n) with e
  end.

Lemma line_separator_inv a b c :
  line_separator a b c = true →
  a = chr 226 ∧ b = chr 128 ∧ (c = chr 168 ∨ c = chr 169).
Proof.
  unfold line_separator. intros H.
  apply andb_true_iff in H as [H Hc]. apply andb_true_iff in H as [Ha Hb].
  apply N.eqb_eq, byte_inj in Ha. apply N.eqb_eq, byte_inj in Hb.
  split; [done|]. split; [done|].
  apply orb_true_iff in Hc as [Hc|Hc]; apply N.eqb_eq, byte_inj in Hc; auto.
Qed.

(** What [appendString] writes is a literal: the scanner reads it up to
    the quote behind it. *)
Lemma scan_string_appendString s :
  ∀ rest,
    scan_string (appendString s +:+ String quote rest)
    = Some (appendString s, rest).
Proof.
  induction s as [|s Hhead IH] using rune_ind; intros rest; [done|].
  destruct Hhead as [a s1 Hw Ha|a b s2 Hw Ha Hb|a b c s3 Hw Ha Hb Hc
                    |a b c d s4 Hw Ha Hb Hc Hd|a s1 Hw Ha].
  - rewrite (appendString_1 _ _ (Hw s1)), app_string_assoc.
    apply scan_string_escape_byte; [done|]. apply IH. simpl. lia.
  - rewrite (appendString_2 _ _ _ (Hw s2)), !append_cons.
    rewrite !scan_string_high by done.
    rewrite (IH s2) by (simpl; lia). done.
  - rewrite (appendString_3 _ _ _ _ (Hw s3)).
    destruct (line_separator a b c) eqn:Hl.
    + apply line_separator_inv in Hl as (-> & -> & [-> | ->]);
        written_digit; flatten;
        (erewrite scan_string_u by (vm_compute; reflexivity));
        rewrite (IH s3) by (simpl; lia); done.
    + rewrite !append_cons. rewrite !scan_string_high by done.
      rewrite (IH s3) by (simpl; lia). done.
  - rewrite (appendString_4 _ _ _ _ _ (Hw s4)), !append_cons.
    rewrite !scan_string_high by done.
    rewrite (IH s4) by (simpl; lia). done.
  - rewrite (appendString_0 _ _ Hw). flatten.
    erewrite scan_string_u by (vm_compute; reflexivity).
    rewrite (IH s1) by (simpl; lia). done.
Qed.

Lemma unquote_high c t :
  (128 ≤ byte c)%N →
  unquote (String c t)
  = match rune_width (String c t), t with
    | 1, _ => emit (String c EmptyString) (unquote t)
    | 2, String b s2 => emit (String c (String b EmptyString)) (unquote s2)
    | 3, String b (String d s3) =>
        emit (String c (String b (String d EmptyString))) (unquote s3)
    | 4, String b (String d (String e s4)) =>
        emit (String c (String b (String d (String e EmptyString))))
             (unquote s4)
    | _, _ => emit replacement (unquote t)
    end.
Proof.
  intros Hc. cbn [unquote].
  destruct (byte c =? 34)%N eqn:E1; [byte_facts; lia|].
  destruct (byte c =? 92)%N eqn:E2; [byte_facts; lia|].
  destruct (byte c <? 32)%N eqn:E3; [byte_facts; lia|]. done.
Qed.

Lemma coerce_1 a s1 :
  rune_width (String a s1) = 1 → coerce (String a s1) = String a (coerce s1).
Proof. intros Hw. cbn [coerce]. by rewrite Hw. Qed.

Lemma coerce_2 a b s2 :
  rune_width (String a (String b s2)) = 2 →
  coerce (String a (String b s2)) = String a (String b (coerce s2)).
Proof. intros Hw. cbn [coerce]. by rewrite Hw. Qed.

Lemma coerce_3 a b c s3 :
  rune_width (String a (String b (String c s3))) = 3 →
  coerce (String a (String b (String c s3)))
  = String a (String b (String c (coerce s3))).
Proof. intros Hw. cbn [coerce]. by rewrite Hw. Qed.

Lemma coerce_4 a b c d s4 :
  rune_width (String a (String b (String c (String d s4)))) = 4 →
  coerce (String a (String b (String c (String d s4))))
  = String a (String b (String c (String d (coerce s4)))).
Proof. intros Hw. cbn [coerce]. by rewrite Hw. Qed.

Lemma coerce_0 a s1 :
  rune_width (String a s1) = 0 →
  coerce (String a s1) = replacement +:+ coerce s1.
Proof. intros Hw. cbn [coerce]. by rewrite Hw. Qed.

(** What [appendString] writes is read back by [unquote] as the text
    coerced to UTF-8. *)
Lemma unquote_appendString s : unquote (appendString s) = Some (coerce s).
Proof.
  induction s as [|s Hhead IH] using rune_ind; [done|].
  destruct Hhead as [a s1 Hw Ha|a b s2 Hw Ha Hb|a b c s3 Hw Ha Hb Hc
                    |a b c d s4 Hw Ha Hb Hc Hd|a s1 Hw Ha].
  - rewrite (appendString_1 _ _ (Hw s1)), (coerce_1 _ _ (Hw s1)).
    apply unquote_escape_byte; [done|]. apply IH. simpl. lia.
  - rewrite (appendString_2 _ _ _ (Hw s2)), (coerce_2 _ _ _ (Hw s2)).
    rewrite unquote_high, Hw by done.
    rewrite (IH s2) by (simpl; lia). done.
  - rewrite (appendString_3 _ _ _ _ (Hw s3)), (coerce_3 _ _ _ _ (Hw s3)).
    destruct (line_separator a b c) eqn:Hl.
    + apply line_separator_inv in Hl as (-> & -> & [-> | ->]);
        written_digit; flatten;
        (erewrite unquote_u by (vm_compute; reflexivity));
        rewrite (IH s3) by (simpl; lia);
        generalize (coerce s3); intros u; vm_compute; reflexivity.
    + rewrite unquote_high, Hw by done.
      rewrite (IH s3) by (simpl; lia). done.
  - rewrite (appendString_4 _ _ _ _ _ (Hw s4)), (coerce_4 _ _ _ _ _ (Hw s4)).
    rewrite unquote_high, Hw by done.
    rewrite (IH s4) by (simpl; lia). done.
  - rewrite (appendString_0 _ _ Hw), (coerce_0 _ _ Hw).
    rewrite !append_cons, append_nil.
    erewrite unquote_u by (vm_compute; reflexivity).
    rewrite (IH s1) by (simpl; lia).
    generalize (coerce s1). intros u. vm_compute. reflexivity.
Qed.

(** A text that is UTF-8 goes through unchanged. *)
Lemma coerce_valid s : ValidString s = true → coerce s = s.
Proof.
  induction s as [|s Hhead IH] using rune_ind; [done|].
  destruct Hhead as [a s1 Hw Ha|a b s2 Hw Ha Hb|a b c s3 Hw Ha Hb Hc
                    |a b c d s4 Hw Ha Hb Hc Hd|a s1 Hw Ha].
  - rewrite (coerce_1 _ _ (Hw s1)). cbn [ValidString]. rewrite Hw.
    intros Hv. by rewrite (IH s1) by (simpl; lia || done).
  - rewrite (coerce_2 _ _ _ (Hw s2)). cbn [ValidString]. rewrite Hw.
    intros Hv. by rewrite (IH s2) by (simpl; lia || done).
  - rewrite (coerce_3 _ _ _ _ (Hw s3)). cbn [ValidString]. rewrite Hw.
    intros Hv. by rewrite (IH s3) by (simpl; lia || done).
  - rewrite (coerce_4 _ _ _ _ _ (Hw s4)). cbn [ValidString]. rewrite Hw.
    intros Hv. by rewrite (IH s4) by (simpl; lia || done).
  - cbn [ValidString]. by rewrite Hw.
Qed.

Lemma rune_width_replacement t : rune_width (replacement +:+ t) = 3.
Proof. done. Qed.

(** And a text that goes through unchanged is UTF-8. *)
Lemma valid_coerce s : coerce s = s → ValidString s = true.
Proof.
  induction s as [|s Hhead IH] using rune_ind; [done|].
  destruct Hhead as [a s1 Hw Ha|a b s2 Hw Ha Hb|a b c s3 Hw Ha Hb Hc
                    |a b c d s4 Hw Ha Hb Hc Hd|a s1 Hw Ha].
  - rewrite (coerce_1 _ _ (Hw s1)). cbn [ValidString]. rewrite Hw.
    intros [= Hs]. apply IH; [simpl; lia|done].
  - rewrite (coerce_2 _ _ _ (Hw s2)). cbn [ValidString]. rewrite Hw.
    intros [= Hs]. apply IH; [simpl; lia|done].
  - rewrite (coerce_3 _ _ _ _ (Hw s3)). cbn [ValidString]. rewrite Hw.
    intros [= Hs]. apply IH; [simpl; lia|done].
  - rewrite (coerce_4 _ _ _ _ _ (Hw s4)). cbn [ValidString]. rewrite Hw.
    intros [= Hs]. apply IH; [simpl; lia|done].
  - rewrite (coerce_0 _ _ Hw). intros Hs. exfalso.
    rewrite <- Hs, rune_width_replacement in Hw. done.
Qed.

Lemma app_string_nil_r s : s +:+ EmptyString = s.
Proof. induction s as [|a s IH]; rewrite ?append_nil, ?append_cons; [done|]. by rewrite IH. Qed.

Lemma render_arr items :
  render (JArr items) = "[" +:+ join "," (render <$> items) +:+ "]".
Proof. reflexivity. Qed.

Lemma render_obj members :
  render (JObj members)
  = "{" +:+ join "," ((λ kv, literal kv.1 +:+ ":" +:+ render kv.2) <$> members)
        +:+ "}".
Proof.
  cbn [render]. do 3 f_equal.
  induction members as [|[k v] members IH]; [done|]. csimpl. by rewrite <- IH.
Qed.

Lemma join_cons separator x rest :
  rest ≠ [] → join separator (x :: rest) = x +:+ separator +:+ join separator rest.
Proof. by destruct rest. Qed.

(** One step of the scanner, by the byte it meets. *)
Lemma parse_value_quote fuel s :
  parse_value (S fuel) (String quote s)
  = match scan_string s with
    | Some (raw, rest) => Some (JStr raw, rest)
    | None => None
    end.
Proof. done. Qed.

Lemma parse_value_bracket fuel s :
  parse_value (S fuel) (String "[" s)
  = match skip_blank s with
    | String d rest =>
        if (byte d =? 93)%N then Some (JArr [], rest)
        else match parse_items fuel s with
             | Some (items, rest') => Some (JArr items, rest')
             | None => None
             end
    | EmptyString => None
    end.
Proof. done. Qed.

Lemma parse_value_brace fuel s :
  parse_value (S fuel) (String "{" s)
  = match skip_blank s with
    | String d rest =>
        if (byte d =? 125)%N then Some (JObj [], rest)
        else match parse_members fuel s with
             | Some (members, rest') => Some (JObj members, rest')
             | None => None
             end
    | EmptyString => None
    end.
Proof. done. Qed.

Lemma parse_items_step fuel s :
  parse_items (S fuel) s
  = match parse_value fuel s with
    | Some (v, rest) =>
        match skip_blank rest with
        | String c rest' =>
            if (byte c =? 44)%N
            then match parse_items fuel rest' with
                 | Some (vs, rest'') => Some (v :: vs, rest'')
                 | None => None
                 end
            else if (byte c =? 93)%N then Some ([v], rest')
            else None
        | EmptyString => None
        end
    | None => None
    end.
Proof. done. Qed.

Lemma parse_members_quote fuel s :
  parse_members (S fuel) (String quote s)
  = match scan_string s with
    | Some (k, rest1) =>
        match skip_blank rest1 with
        | String d rest2 =>
            if (byte d =? 58)%N
            then match parse_value fuel rest2 with
                 | Some (v, rest3) =>
                     match skip_blank rest3 with
                     | String e rest4 =>
                         if (byte e =? 44)%N
                         then match parse_members fuel rest4 with
                              | Some (ms, rest5) => Some ((k, v) :: ms, rest5)
                              | None => None
                              end
                         else if (byte e =? 125)%N
                         then Some ([(k, v)], rest4)
                         else None
                     | EmptyString => None
                     end
                 | None => None
                 end
            else None
        | EmptyString => None
        end
    | None => None
    end.
Proof. done. Qed.

Ltac lengths H :=
  repeat first [ rewrite length_app_string in H
               | progress cbn [String.length] in H ].

Lemma reads_back_str raw : literal_text raw → reads_back (JStr raw).
Proof.
  intros Hraw fuel rest Hf. destruct fuel as [|fuel]; [lia|].
  cbn [render]. unfold literal.
  rewrite append_cons, parse_value_quote, app_string_assoc, append_cons, append_nil.
  by rewrite Hraw.
Qed.

Lemma opens_render v :
  opens v = true →
  ∃ c t, render v = String c t ∧ is_blank c = false ∧ (byte c =? 93)%N = false.
Proof.
  destruct v as [|b|n|raw|items|members]; try done; intros _.
  - by exists quote, (raw +:+ String quote EmptyString).
  - rewrite render_arr, append_cons. by eexists _, _.
  - rewrite render_obj, append_cons. by eexists _, _.
Qed.

Lemma skip_blank_opens v rest :
  opens v = true → skip_blank (render v +:+ rest) = render v +:+ rest.
Proof.
  intros Ho. destruct (opens_render v Ho) as (c & t & -> & Hb & _).
  rewrite append_cons. cbn [skip_blank]. by rewrite Hb.
Qed.

Lemma parse_items_render items :
  items ≠ [] → Forall reads_back items →
  ∀ fuel rest,
    (String.length (join "," (render <$> items)) + 1 < fuel)%nat →
    parse_items fuel (join "," (render <$> items) +:+ String "]" rest)
    = Some (items, rest).
Proof.
  intros Hne Hall. induction Hall as [|v items Hv Hall IH]; [done|].
  intros fuel rest Hf. destruct fuel as [|fuel]; [lia|].
  rewrite parse_items_step.
  destruct items as [|v' items].
  - cbn [fmap list_fmap join] in *.
    rewrite (Hv fuel) by lia. done.
  - rewrite fmap_cons, join_cons by done.
    rewrite fmap_cons, join_cons in Hf by done.
    rewrite !length_app_string in Hf. cbn [String.length] in Hf.
    rewrite !app_string_assoc.
    rewrite (Hv fuel) by lia.
    rewrite append_cons, append_nil. cbn [skip_blank].
    change (is_blank ",") with false. cbv iota.
    change (byte "," =? 44)%N with true. cbv iota.
    rewrite (IH ltac:(done) fuel rest) by lia. done.
Qed.

Lemma reads_back_arr items :
  items ≠ [] → Forall reads_back items → Forall (λ v, opens v = true) items →
  reads_back (JArr items).
Proof.
  intros Hne Hall Hopen fuel rest Hf. destruct fuel as [|fuel]; [lia|].
  rewrite render_arr in *. rewrite append_cons, append_nil in *.
  cbn [String.length] in Hf. rewrite length_app_string in Hf.
  cbn [String.length] in Hf.
  rewrite append_cons, parse_value_bracket, app_string_assoc, append_cons, append_nil.
  destruct items as [|v items]; [done|].
  assert (∃ c t, join "," (render <$> v :: items) = String c t ∧
                 is_blank c = false ∧ (byte c =? 93)%N = false)
    as (c & t & Hj & Hb & Hc).
  { apply Forall_cons in Hopen as [Ho _].
    destruct (opens_render v Ho) as (c & t & Hr & Hb & Hc).
    destruct items as [|v' items].
    - by exists c, t.
    - rewrite fmap_cons, join_cons, Hr, append_cons by done. by eexists _, _. }
  rewrite Hj at 1. rewrite append_cons. cbn [skip_blank]. rewrite Hb, Hc.
  rewrite (parse_items_render _ Hne Hall) by lia. done.
Qed.

Lemma parse_members_render members :
  members ≠ [] →
  Forall (λ kv, literal_text kv.1 ∧ reads_back kv.2) members →
  ∀ fuel rest,
    (String.length
       (join "," ((λ kv, literal kv.1 +:+ ":" +:+ render kv.2) <$> members))
     + 1 < fuel)%nat →
    parse_members fuel
      (join "," ((λ kv, literal kv.1 +:+ ":" +:+ render kv.2) <$> members)
       +:+ String "}" rest)
    = Some (members, rest).
Proof.
  intros Hne Hall. induction Hall as [|[k v] members [Hk Hv] Hall IH]; [done|].
  intros fuel rest Hf. destruct fuel as [|fuel]; [lia|].
  cbn [fst snd] in Hk, Hv.
  destruct members as [|kv' members].
  - cbn [fmap list_fmap join fst snd] in *. unfold literal in *.
    lengths Hf.
    flatten.
    rewrite parse_members_quote, Hk. cbn [skip_blank].
    change (is_blank ":") with false. cbv iota.
    change (byte ":" =? 58)%N with true. cbv iota.
    rewrite (Hv fuel) by lia. done.
  - rewrite fmap_cons, join_cons by done.
    rewrite fmap_cons, join_cons in Hf by done.
    cbn [fst snd] in *. unfold literal in *.
    lengths Hf.
    flatten.
    rewrite parse_members_quote, Hk. cbn [skip_blank].
    change (is_blank ":") with false. cbv iota.
    change (byte ":" =? 58)%N with true. cbv iota.
    rewrite (Hv fuel) by lia.
    cbn [skip_blank].
    change (is_blank ",") with false. cbv iota.
    change (byte "," =? 44)%N with true. cbv iota.
    rewrite (IH ltac:(done) fuel rest) by lia. done.
Qed.

Lemma reads_back_obj members :
  members ≠ [] →
  Forall (λ kv, literal_text kv.1 ∧ reads_back kv.2) members →
  reads_back (JObj members).
Proof.
  intros Hne Hall fuel rest Hf. destruct fuel as [|fuel]; [lia|].
  rewrite render_obj in *. rewrite append_cons, append_nil in *.
  cbn [String.length] in Hf. rewrite length_app_string in Hf.
  cbn [String.length] in Hf.
  rewrite append_cons, parse_value_brace, app_string_assoc, append_cons, append_nil.
  destruct members as [|[k v] members]; [done|].
  assert (∃ t, join "," ((λ kv, literal kv.1 +:+ ":" +:+ render kv.2)
                           <$> (k, v) :: members) = String quote t)
    as (t & Hj).
  { destruct members as [|kv' members].
    - cbn [fmap list_fmap join fst snd]. unfold literal.
      rewrite append_cons. by eexists.
    - rewrite fmap_cons, join_cons by done. cbn [fst snd]. unfold literal.
      rewrite !append_cons. by eexists. }
  rewrite Hj at 1. rewrite append_cons. cbn [skip_blank].
  change (is_blank quote) with false. cbv iota.
  change (byte quote =? 125)%N with false. cbv iota.
  rewrite (parse_members_render _ Hne Hall) by lia. done.
Qed.

(** A whole text. *)
Lemma parse_render v : reads_back v → parse (render v) = Ok v.
Proof.
  intros Hv. unfold parse.
  rewrite <- (app_string_nil_r (render v)) at 2.
  rewrite (Hv (S (String.length (render v))) EmptyString) by lia. done.
Qed.


(** ** Tool calls, written and read *)

Lemma member_here field k v rest :
  names field k = true →
  forallb (λ kv, negb (names field kv.1)) rest = true →
  member field ((k, v) :: rest) = Some v.
Proof.
  intros Hk Hrest. unfold member.
  rewrite filter_cons_True by done.
  assert (filter (λ kv : string * json, names field kv.1 = true) rest = []) as ->.
  { induction rest as [|kv rest IH]; [done|].
    cbn [forallb] in Hrest. apply andb_true_iff in Hrest as [Hkv Hrest].
    rewrite filter_cons_False; [by apply IH|].
    by destruct (names field kv.1). }
  done.
Qed.

Lemma member_skip field k v rest :
  names field k = false → member field ((k, v) :: rest) = member field rest.
Proof.
  intros Hk. unfold member. rewrite filter_cons_False; [done|].
  cbn [fst]. by rewrite Hk.
Qed.

Lemma encode_string_reads_back s : reads_back (encode_string s).
Proof. apply reads_back_str. intros rest. apply scan_string_appendString. Qed.

Ltac key_text := intros rest; vm_compute; reflexivity.

Lemma member_reads_back k v :
  literal_text k → reads_back v →
  Forall (λ kv : string * json, literal_text kv.1 ∧ reads_back kv.2) [(k, v)].
Proof. intros Hk Hv. apply Forall_cons. split; [done|]. apply Forall_nil_2. Qed.

Lemma encode_function_reads_back f : reads_back (encode_function f).
Proof.
  apply reads_back_obj; [done|].
  apply Forall_cons. split; [split; [key_text|apply encode_string_reads_back]|].
  apply member_reads_back; [key_text|apply encode_string_reads_back].
Qed.

Lemma encode_tool_call_reads_back tc : reads_back (encode_tool_call tc).
Proof.
  apply reads_back_obj; [done|].
  apply Forall_cons. split; [split; [key_text|apply encode_string_reads_back]|].
  apply Forall_app. split.
  - case_bool_decide; [apply Forall_nil_2|].
    apply member_reads_back; [key_text|apply encode_string_reads_back].
  - destruct (tc_Function tc); [|apply Forall_nil_2].
    apply member_reads_back; [key_text|apply encode_function_reads_back].
Qed.

Ltac by_names := vm_compute; reflexivity.

Lemma string_member_here field k s rest :
  names field k = true →
  forallb (λ kv, negb (names field kv.1)) rest = true →
  string_member field ((k, encode_string s) :: rest) = Ok (coerce s).
Proof.
  intros Hk Hrest. unfold string_member, encode_string.
  rewrite (member_here _ _ _ _ Hk Hrest). by rewrite unquote_appendString.
Qed.

Lemma string_member_skip field k v rest :
  names field k = false →
  string_member field ((k, v) :: rest) = string_member field rest.
Proof. intros Hk. unfold string_member. by rewrite member_skip. Qed.

Lemma decode_encode_function f :
  decode_function (encode_function f) = Ok (coerce_function f).
Proof.
  destruct f as [name arguments].
  unfold encode_function, decode_function. cbn [fn_Name fn_Arguments].
  rewrite (string_member_here "name") by by_names.
  rewrite (string_member_skip "arguments" "name") by by_names.
  rewrite (string_member_here "arguments") by by_names.
  done.
Qed.

Lemma decode_encode_tool_call tc :
  decode_tool_call (encode_tool_call tc) = Ok (coerce_tool_call tc).
Proof.
  destruct tc as [id ty fn].
  unfold encode_tool_call, decode_tool_call, coerce_tool_call.
  cbn [tc_ID tc_Type tc_Function].
  pose proof (decode_encode_function) as Hfn.
  unfold encode_function in Hfn |- *.
  case_bool_decide as Hty; destruct fn as [f|]; cbn [app fmap option_fmap option_map].
  - rewrite (string_member_here "id") by by_names.
    rewrite (string_member_skip "type" "id") by by_names.
    rewrite (string_member_skip "type" "function") by by_names.
    rewrite (member_skip "function" "id") by by_names.
    rewrite (member_here "function") by by_names.
    rewrite Hfn. by subst.
  - rewrite (string_member_here "id") by by_names.
    rewrite (string_member_skip "type" "id") by by_names.
    by subst.
  - rewrite (string_member_here "id") by by_names.
    rewrite (string_member_skip "type" "id") by by_names.
    rewrite (string_member_here "type") by by_names.
    rewrite (member_skip "function" "id") by by_names.
    rewrite (member_skip "function" "type") by by_names.
    rewrite (member_here "function") by by_names.
    by rewrite Hfn.
  - rewrite (string_member_here "id") by by_names.
    rewrite (string_member_skip "type" "id") by by_names.
    rewrite (string_member_here "type") by by_names.
    done.
Qed.

Lemma decode_list_encode tcs :
  decode_list decode_tool_call (encode_tool_call <$> tcs)
  = Ok (coerce_tool_call <$> tcs).
Proof.
  induction tcs as [|tc tcs IH]; [done|].
  rewrite !fmap_cons. cbn [decode_list]. by rewrite decode_encode_tool_call, IH.
Qed.

(** What [Marshal] writes for a list that is not empty, [Unmarshal] reads
    back as the list with its texts coerced to UTF-8. *)
Lemma Unmarshal_Marshal tcs :
  tcs ≠ [] →
  ∃ text,
    Marshal tcs = Ok text ∧ text ≠ EmptyString ∧
    Unmarshal text = Ok (coerce_tool_call <$> tcs).
Proof.
  intros Hne. eexists. split; [done|]. split.
  - by rewrite render_arr, append_cons.
  - unfold Unmarshal. rewrite parse_render.
    + apply decode_list_encode.
    + apply reads_back_arr.
      * by destruct tcs.
      * apply Forall_fmap, Forall_forall. intros tc _.
        apply encode_tool_call_reads_back.
      * apply Forall_fmap, Forall_forall. by intros tc _.
Qed.

Lemma coerce_valid_tool_call tc :
  valid_tool_call tc = true → coerce_tool_call tc = tc.
Proof.
  destruct tc as [id ty fn]. unfold valid_tool_call, coerce_tool_call.
  cbn [tc_ID tc_Type tc_Function]. intros Hv.
  apply andb_true_iff in Hv as [Hv Hfn]. apply andb_true_iff in Hv as [Hid Hty].
  rewrite (coerce_valid id), (coerce_valid ty) by done. f_equal.
  destruct fn as [[name arguments]|]; [|done].
  cbn [fn_Name fn_Arguments] in Hfn. apply andb_true_iff in Hfn as [Hn Ha].
  unfold coerce_function. cbn [fmap option_fmap option_map fn_Name fn_Arguments].
  by rewrite (coerce_valid name), (coerce_valid arguments).
Qed.

Lemma coerce_valid_tool_calls tcs :
  Forall (λ tc, valid_tool_call tc = true) tcs → coerce_tool_call <$> tcs = tcs.
Proof.
  induction 1 as [|tc tcs Hv _ IH]; [done|].
  csimpl. by rewrite (coerce_valid_tool_call tc), IH.
Qed.

Lemma valid_coerce_tool_call tc :
  coerce_tool_call tc = tc → valid_tool_call tc = true.
Proof.
  destruct tc as [id ty fn]. unfold valid_tool_call, coerce_tool_call.
  cbn [tc_ID tc_Type tc_Function]. intros [= Hid Hty Hfn].
  rewrite (valid_coerce id), (valid_coerce ty) by done.
  destruct fn as [[name arguments]|]; [|done].
  cbn [fmap option_fmap option_map] in Hfn. unfold coerce_function in Hfn.
  cbn [fn_Name fn_Arguments] in *. injection Hfn as Hn Ha.
  by rewrite (valid_coerce name), (valid_coerce arguments).
Qed.

Lemma valid_coerce_tool_calls tcs :
  coerce_tool_call <$> tcs = tcs → Forall (λ tc, valid_tool_call tc = true) tcs.
Proof.
  induction tcs as [|tc tcs IH]; [done|].
  rewrite fmap_cons. intros [= Htc Htcs].
  apply Forall_cons. split; [by apply valid_coerce_tool_call|by apply IH].
Qed.

(** Lists of tool calls whose texts are UTF-8 round-trip. *)
Lemma valid_roundtrips tcs :
  Forall (λ tc, valid_tool_call tc = true) tcs → json_roundtrips tcs.
Proof.
  intros Hv. destruct tcs as [|tc tcs]; [by left|]. right.
  destruct (Unmarshal_Marshal (tc :: tcs)) as (text & Hm & Hne & Hu); [done|].
  exists text. split; [done|]. split; [done|].
  cbn [json_Unmarshal reference]. rewrite Hu. by rewrite coerce_valid_tool_calls.
Qed.

End Codec.


(** * Tool calls, written and read back *)

Section ToolCalls.
Import GoJSON.

(** C5. A message with a non-empty list of tool calls, written with
    [AddFullMessage] to a session whose history reads back, on the store
    with [encoding/json] as its codec: [GetHistory] returns the earlier
    history and then the message, with as many tool calls as were written,
    in the same order, each with its identifier, its type and the name and
    the argument payload of its function coerced to UTF-8 (a byte that is
    part of no encoding is read back as U+FFFD).  When these texts are
    UTF-8 the message read back is the message written: the same
    identifiers, types and payloads; and only then is the list read back
    the list written. *)
Theorem C5_tool_calls_read_back (key : string) (msg : Message ToolCall)
    (w w0 : World) (h : list (Message ToolCall)) :
  quiet w →
  db_consistent (w_db w) →
  seq_room key (w_db w) →
  ToolCalls msg ≠ [] →
  GetHistory key w = (Ok (slice_of h), w0) →
  ∃ w1,
    AddFullMessage key msg w = (Ok tt, w1) ∧
    GetHistory key w1
    = (Ok (slice_of (h ++ [mkMessage (Role msg) (Content msg)
                             (coerce_tool_call <$> ToolCalls msg)
                             (ToolCallID msg)])), w1) ∧
    (Forall (λ tc, valid_tool_call tc = true) (ToolCalls msg) →
     GetHistory key w1 = (Ok (slice_of (h ++ [msg])), w1) ∧
     ToolCalls <$> last (h ++ [msg]) = Some (ToolCalls msg)) ∧
    (coerce_tool_call <$> ToolCalls msg = ToolCalls msg →
     Forall (λ tc, valid_tool_call tc = true) (ToolCalls msg)).
Proof.
  intros Hq Hdb Hroom Hne Hh.
  destruct (Unmarshal_Marshal (ToolCalls msg) Hne) as (text & Hm & Htext & Hu).
  change (json_Marshal (ToolCalls msg) = Ok text) in Hm.
  change (json_Unmarshal text = Ok (coerce_tool_call <$> ToolCalls msg)) in Hu.
  destruct (AddFullMessage_reads_back key msg w w0 h text
              (coerce_tool_call <$> ToolCalls msg) Hq Hdb Hroom Hne Hm Htext Hu Hh)
    as (w1 & Hadd & Hread).
  exists w1. split; [done|]. split; [done|].
  split; [|apply valid_coerce_tool_calls].
  intros Hvalid. split; [|by rewrite last_snoc].
  rewrite Hread, (coerce_valid_tool_calls _ Hvalid). by destruct msg.
Qed.

End ToolCalls.
(** * The importer: skipped files, imported files and a second run *)

Section Reruns.
Context {ToolCall : Type} `{!JSON ToolCall}.

(** C7. [MigrateFromJSON] is fail-soft per file: over a directory that can
    be listed it never returns an error, whatever fails inside; an entry
    that is not a well-formed candidate (a directory, another suffix, a file
    that cannot be read, a body that does not parse, an empty key) is passed
    over without any change and without being counted; without engine
    faults the result is the number of well-formed candidates, and each of
    them is imported whatever its siblings are: its session is in the store
    with rows (unless the record has no messages), and when the key is
    carried by this file alone and had no rows before, [GetHistory] on the
    key returns the messages of the file, in the order of the file and
    numbered from 1, and [GetSummary] returns its summary when the session
    row is new.  A missing directory gives 0 and no error. *)
Theorem C7_migration_fail_soft (w : World) (files : list File) :
  w_fs w = DirOf files →
  (∃ n w', MigrateFromJSON (ToolCall:=ToolCall) w = (Ok n, w')) ∧
  (∀ migrated e,
     entry_importable (ToolCall:=ToolCall) files e = false →
     migrate_entry (ToolCall:=ToolCall) migrated e w = (Ok migrated, w)) ∧
  (quiet w → NoDup (f_name <$> files) →
   sessions_roundtrip (ToolCall:=ToolCall) files →
   ∃ w',
     MigrateFromJSON (ToolCall:=ToolCall) w
     = (Ok (Z.of_nat (length (filter (λ f, importable (ToolCall:=ToolCall) f = true)
                                files))), w') ∧
     ∀ f sess,
       f ∈ files → importable f = true → file_session f = Some sess →
       has_session (Key sess) (w_db w') = true ∧
       (messages_of (Key sess) (w_db w') ≠ [] ∨ Messages sess = []) ∧
       ((∀ g other,
           g ∈ files → importable g = true → file_session g = Some other →
           Key other = Key sess → g = f) →
        messages_of (Key sess) (w_db w) = [] →
        GetHistory (Key sess) w' = (Ok (slice_of (Messages sess)), w') ∧
        m_seq <$> select_messages (Key sess) (w_db w')
          = seqZ 1 (Z.of_nat (length (Messages sess))) ∧
        (session_of (Key sess) (w_db w) = None →
         GetSummary (Key sess) w' = (Ok (Summary sess), w')))) ∧
  (∀ v, w_fs v = DirMissing →
     MigrateFromJSON (ToolCall:=ToolCall) v = (Ok 0%Z, v)).
Proof.
  intros Hfs. split_and!.
  - rewrite (MigrateFromJSON_listing w files Hfs).
    apply migrate_entries_total.
  - intros migrated e. by apply migrate_entry_skip.
  - intros Hq Hnd Hrt.
    pose proof (roundtrip_candidates files Hrt) as Hc.
    destruct (MigrateFromJSON_stored files w Hq Hfs Hnd Hc)
      as (n & w' & Hrun & Hinv & Hstored).
    exists w'. split.
    + destruct Hinv as (_ & files' & _ & _ & -> & _).
      by rewrite Hrun, listing_count.
    + intros f sess Hf Himp Hs.
      assert (json_name (f_name f) = true) as Hj.
      { unfold importable in Himp. by apply andb_true_iff in Himp as [? _]. }
      destruct (Hstored f sess Hf Hj Hs) as [Hhas Hrows].
      split; [done|]. split; [done|].
      intros Huniq Hempty.
      destruct (migrate_stores w files f sess Hq Hfs Hnd Hc Hf Himp Hs
                  Huniq Hempty) as (n' & v & Hrun' & _ & Hread).
      rewrite Hrun in Hrun'. by injection Hrun' as _ <-.
  - intros v Hv. unfold MigrateFromJSON, os_ReadDir, mbind, M_bind, attempt.
    by rewrite Hv.
Qed.

(** C6. Two runs of [MigrateFromJSON] over the same directory, without
    engine faults.  The first run counts every well-formed candidate and
    imports it: its session is in the store with rows (unless the record has
    no messages), and when the key is carried by this file alone and had no
    rows before, [GetHistory] returns the messages of the file and
    [GetSummary] its summary when the session row is new.  The second run
    changes nothing in the store, no session, no message and no summary;
    it returns the number of well-formed candidates that still carry their
    name, each of them a candidate of the first run, and that is 0 when
    every rename of the first run went through: every candidate then sits
    under its name with the processed suffix and the second run changes
    nothing at all.  A record whose session already has messages is
    committed without any change to the store. *)
Theorem C6_second_run_changes_nothing (w : World) (files : list File) :
  quiet w →
  db_consistent (w_db w) →
  w_fs w = DirOf files →
  NoDup (f_name <$> files) →
  sessions_roundtrip (ToolCall:=ToolCall) files →
  ∃ w1 files1 w2,
    MigrateFromJSON (ToolCall:=ToolCall) w
    = (Ok (Z.of_nat (length (filter (λ f, importable (ToolCall:=ToolCall) f = true)
                               files))), w1) ∧
    w_fs w1 = DirOf files1 ∧
    (∀ f sess,
       f ∈ files → importable f = true → file_session f = Some sess →
       has_session (Key sess) (w_db w1) = true ∧
       (messages_of (Key sess) (w_db w1) ≠ [] ∨ Messages sess = []) ∧
       ((∀ g other,
           g ∈ files → importable g = true → file_session g = Some other →
           Key other = Key sess → g = f) →
        messages_of (Key sess) (w_db w) = [] →
        GetHistory (Key sess) w1 = (Ok (slice_of (Messages sess)), w1) ∧
        (session_of (Key sess) (w_db w) = None →
         GetSummary (Key sess) w1 = (Ok (Summary sess), w1)))) ∧
    MigrateFromJSON (ToolCall:=ToolCall) w1
    = (Ok (Z.of_nat (length (filter (λ f, importable (ToolCall:=ToolCall) f = true)
                               files1))), w2) ∧
    w_db w2 = w_db w1 ∧
    (∀ g, g ∈ files1 → importable (ToolCall:=ToolCall) g = true →
          g ∈ files ∧ find_file (f_name g) files = Some g) ∧
    (renames_free files →
     (∀ f, f ∈ files → importable (ToolCall:=ToolCall) f = true →
        mkFile (f_name f +:+ ".migrated") (f_is_dir f) (f_data f) (f_pinned f)
          ∈ files1 ∧
        find_file (f_name f) files1 = None) ∧
     MigrateFromJSON (ToolCall:=ToolCall) w1 = (Ok 0%Z, w1)) ∧
    (∀ v (sess : jsonSession ToolCall),
       quiet v → db_consistent (w_db v) →
       messages_of (Key sess) (w_db v) ≠ [] →
       importSession sess v = (Ok tt, v)).
Proof.
  intros Hq Hdb Hfs Hnd Hrt.
  pose proof (roundtrip_candidates files Hrt) as Hc.
  destruct (MigrateFromJSON_stored files w Hq Hfs Hnd Hc)
    as (n & w1 & Hrun & Hinv & Hstored).
  destruct Hinv as (Hq1 & files1 & Hfs1 & Hnd1 & Hn & Hsess & _ & Horig & Hfree).
  assert (db_consistent (w_db w1)) as Hdb1.
  { apply (preserves_closed db_consistent (MigrateFromJSON (ToolCall:=ToolCall))
             w (Ok n) w1); [|apply Hq|done|done].
    apply preserves_MigrateFromJSON. apply importSession_consistent. }
  assert (candidates_roundtrip (ToolCall:=ToolCall) files1) as Hc1.
  { intros g sess Hg Hj Hs. apply (Hc g sess); [by apply Horig|done..]. }
  assert (candidates_stored (ToolCall:=ToolCall) files1 (w_db w1)) as Hstored1.
  { intros g sess Hg Hj Hs. apply (Hstored g sess); [by apply Horig|done..]. }
  destruct (MigrateFromJSON_same files1 w1 Hq1 Hfs1 Hnd1 Hc1 Hdb1 Hstored1)
    as (n2 & w2 & Hrun2 & Hinv2 & Hsame).
  assert (∀ g, g ∈ files1 → importable (ToolCall:=ToolCall) g = true →
               g ∈ files ∧ find_file (f_name g) files = Some g) as Hleft.
  { intros g Hg Himp.
    assert (g ∈ files) as Hin.
    { apply Horig; [done|]. unfold importable in Himp.
      by apply andb_true_iff in Himp as [? _]. }
    split; [done|]. by apply find_file_unique. }
  exists w1, files1, w2. split_and!.
  - by rewrite Hrun, Hn, listing_count.
  - done.
  - intros f sess Hf Himp Hs.
    assert (json_name (f_name f) = true) as Hj.
    { unfold importable in Himp. by apply andb_true_iff in Himp as [? _]. }
    destruct (Hstored f sess Hf Hj Hs) as [Hhas Hrows].
    split; [done|]. split; [done|].
    intros Huniq Hempty.
    destruct (migrate_stores w files f sess Hq Hfs Hnd Hc Hf Himp Hs
                Huniq Hempty) as (n' & v & Hrun' & _ & Hhist & _ & Hsum).
    rewrite Hrun in Hrun'. by injection Hrun' as _ <-.
  - destruct Hinv2 as (_ & files2 & _ & _ & -> & _).
    by rewrite Hrun2, listing_count.
  - done.
  - done.
  - intros Hrf. destruct (Hfree Hrf) as [_ Hmoved].
    assert (∀ f, f ∈ files → importable (ToolCall:=ToolCall) f = true →
              mkFile (f_name f +:+ ".migrated") (f_is_dir f) (f_data f)
                (f_pinned f) ∈ files1 ∧
              find_file (f_name f) files1 = None) as Hgone.
    { intros f Hf Himp.
      apply (Hmoved (mkDirEntry (f_name f) (f_is_dir f)) f).
      - apply elem_of_listing. by exists f.
      - by rewrite importable_entry.
      - by apply find_file_unique. }
    split; [done|].
    rewrite (MigrateFromJSON_listing w1 files1 Hfs1).
    apply (migrate_entries_skip files1); [done|].
    intros e He. destruct (entry_importable files1 e) eqn:Hei; [|done].
    exfalso.
    destruct (entry_importable_true _ _ Hei) as (Hdir & Hj & g & sess & Hg & Hs).
    destruct (find_file_Some _ _ _ Hg) as [Hin1 Hname].
    assert (importable (ToolCall:=ToolCall) g = true) as Himp.
    { unfold importable. rewrite Hname, Hj. simpl.
      apply bool_decide_eq_true. by exists sess. }
    destruct (Hleft g Hin1 Himp) as [Hin _].
    destruct (Hgone g Hin Himp) as [_ Habsent].
    rewrite Hname in Habsent. congruence.
  - intros v sess. apply importSession_again.
Qed.

End Reruns.


(** * The claims on the sample states *)

Section OnSamples.
Import GoJSON Samples.

Ltac roundtrip :=
  first [ left; reflexivity
        | right; eexists; split_and!;
          [vm_compute; reflexivity|discriminate|vm_compute; reflexivity] ].

Ltac roundtrips :=
  repeat match goal with
         | |- Forall _ (_ :: _) => constructor; [roundtrip|]
         | |- Forall _ [] => constructor
         end.

Ltac by_computation := vm_compute; reflexivity.

Ltac by_decision := apply (bool_decide_unpack _); vm_compute; exact I.


Lemma C3_witness :
  quiet chatted ∧
  db_consistent (w_db chatted) ∧
  ∃ w1,
    TruncateHistory "s1" 2 chatted = (Ok tt, w1) ∧
    select_messages "s1" (w_db w1)
      = last_n 2 (select_messages "s1" (w_db chatted)) ∧
    length (select_messages "s1" (w_db w1)) = 2 ∧
    GetHistory "s1" w1 = (Ok (slice_of [searching; found]), w1).
Proof.
  assert (quiet chatted) as Hq by (split; by_computation).
  assert (db_consistent (w_db chatted)) as Hdb by by_decision.
  assert (GetHistory "s1" chatted
          = (Ok (slice_of [hello; searching; found]), chatted)) as Hbefore
    by by_computation.
  assert (keep_count 2 `min` length (select_messages "s1" (w_db chatted)) = 2)
    as Hmin by by_computation.
  destruct (C3_TruncateHistory_keeps_last (ToolCall:=ToolCall) "s1" 2 chatted
              Hq Hdb) as (w1 & Hrun & _ & _ & Hrows & Hlen & Hhist).
  split; [exact Hq|]. split; [exact Hdb|]. exists w1.
  split; [exact Hrun|]. split; [exact Hrows|].
  split; [exact (eq_trans Hlen Hmin)|].
  exact (Hhist [hello; searching; found] chatted Hbefore).
Defined.


Lemma C5_witness :
  quiet greeted ∧
  db_consistent (w_db greeted) ∧
  seq_room "s1" (w_db greeted) ∧
  ToolCalls searching ≠ [] ∧
  GetHistory "s1" greeted = (Ok (slice_of [hello]), greeted) ∧
  Forall (λ tc, valid_tool_call tc = true) (ToolCalls searching) ∧
  ∃ w1,
    AddFullMessage "s1" searching greeted = (Ok tt, w1) ∧
    GetHistory "s1" w1 = (Ok (slice_of ([hello] ++ [searching])), w1) ∧
    ToolCalls <$> last ([hello] ++ [searching])
    = Some [search_call; lookup_call].
Proof.
  assert (quiet greeted) as Hq by (split; by_computation).
  assert (db_consistent (w_db greeted)) as Hdb by by_decision.
  assert (seq_room "s1" (w_db greeted)) as Hroom by by_decision.
  assert (ToolCalls searching ≠ []) as Hne by discriminate.
  assert (GetHistory "s1" greeted = (Ok (slice_of [hello]), greeted))
    as Hh by by_computation.
  assert (Forall (λ tc, valid_tool_call tc = true) (ToolCalls searching))
    as Hvalid by (repeat constructor).
  destruct (C5_tool_calls_read_back "s1" searching greeted greeted [hello]
              Hq Hdb Hroom Hne Hh) as (w1 & Hadd & _ & Hsame & _).
  destruct (Hsame Hvalid) as [Hread Hlast].
  split; [exact Hq|]. split; [exact Hdb|]. split; [exact Hroom|].
  split; [exact Hne|]. split; [exact Hh|]. split; [exact Hvalid|].
  exists w1. split; [exact Hadd|]. split; [exact Hread|exact Hlast].
Defined.

Lemma C8_witness :
  w_faults chatted = [] ∧
  db_consistent (w_db chatted) ∧
  (has_session "ghost" (w_db chatted) = false ∨
   messages_of "ghost" (w_db chatted) = []) ∧
  GetHistory (ToolCall:=ToolCall) "ghost" chatted = (Ok (slice_of []), chatted) ∧
  GetSummary "ghost" chatted = (Ok EmptyString, chatted).
Proof.
  assert (w_faults chatted = []) as Hf by by_computation.
  assert (db_consistent (w_db chatted)) as Hdb by by_decision.
  assert (has_session "ghost" (w_db chatted) = false) as Hno by by_computation.
  destruct (C8_reads_of_absent_session (ToolCall:=ToolCall) "ghost" chatted
              Hf Hdb (or_introl Hno)) as (Hhist & _ & Hsum).
  split; [exact Hf|]. split; [exact Hdb|]. split; [left; exact Hno|].
  split; [exact Hhist|exact (Hsum Hno)].
Defined.

Lemma C9_witness :
  w_tx failing = None ∧
  AddFullMessage "s1" hello failing
    = (Err (ErrWrap "memory: insert message" ErrEngine),
       snd (AddFullMessage "s1" hello failing)) ∧
  w_db (snd (AddFullMessage "s1" hello failing)) = w_db failing ∧
  w_tx (snd (AddFullMessage "s1" hello failing)) = None.
Proof.
  assert (AddFullMessage "s1" hello failing
          = (Err (ErrWrap "memory: insert message" ErrEngine),
             snd (AddFullMessage "s1" hello failing))) as Hrun
    by by_computation.
  split; [reflexivity|]. split; [exact Hrun|].
  exact (C9_AddFullMessage_atomic "s1" hello failing _ _ eq_refl Hrun).
Defined.

Lemma C10_witness :
  quiet chatted ∧
  has_session "ghost" (w_db chatted) = false ∧
  ∃ w1,
    TruncateHistory "ghost" 3 chatted = (Ok tt, w1) ∧
    sessions (w_db w1) = sessions (w_db chatted) ∧
    has_session "ghost" (w_db w1) = false ∧
    GetSummary "ghost" w1 = (Ok EmptyString, w1).
Proof.
  assert (quiet chatted) as Hq by (split; by_computation).
  assert (has_session "ghost" (w_db chatted) = false) as Hno by by_computation.
  destruct (C10_TruncateHistory_creates_no_session (ToolCall:=ToolCall)
              "ghost" 3 chatted Hq Hno)
    as (w1 & Hrun & Hsess & Hno1 & _ & Hsum & _).
  split; [exact Hq|]. split; [exact Hno|]. exists w1.
  split; [exact Hrun|]. split; [exact Hsess|]. split; [exact Hno1|exact Hsum].
Defined.

Lemma legacy_roundtrip : sessions_roundtrip legacy_files.
Proof.
  intros f sess Hf Hs. unfold legacy_files in Hf.
  repeat (apply elem_of_cons in Hf as [->|Hf]);
    [..|by apply elem_of_nil in Hf];
    vm_compute in Hs; try discriminate Hs;
    injection Hs as <-; cbn [Messages]; roundtrips.
Qed.

Lemma legacy_good_unique (g : File) (other : jsonSession ToolCall) :
  g ∈ legacy_files → importable g = true → file_session g = Some other →
  Key other = Key good_session →
  g = mkFile "good.json" false (Some (session_text good_session)) false.
Proof.
  intros Hg Hi Hs Hk. unfold legacy_files in Hg.
  repeat (apply elem_of_cons in Hg as [->|Hg]);
    [..|by apply elem_of_nil in Hg];
    vm_compute in Hi; try discriminate Hi;
    vm_compute in Hs; try discriminate Hs;
    injection Hs as <-; vm_compute in Hk; try discriminate Hk; reflexivity.
Qed.

Lemma C6_witness :
  quiet legacy ∧
  db_consistent (w_db legacy) ∧
  w_fs legacy = DirOf legacy_files ∧
  NoDup (f_name <$> legacy_files) ∧
  sessions_roundtrip legacy_files ∧
  renames_free legacy_files ∧
  ∃ w1,
    MigrateFromJSON legacy = (Ok 2%Z, w1) ∧
    GetHistory "good" w1
    = (Ok (slice_of [mkMessage "user" "ok" [] EmptyString]), w1) ∧
    MigrateFromJSON w1 = (Ok 0%Z, w1).
Proof.
  assert (quiet legacy) as Hq by (split; reflexivity).
  assert (db_consistent (w_db legacy)) as Hdb by by_decision.
  assert (NoDup (f_name <$> legacy_files)) as Hnd by by_decision.
  assert (renames_free legacy_files) as Hrf by by_decision.
  assert (Z.of_nat (length (filter (λ f, importable f = true) legacy_files))
          = 2%Z) as Hcount by by_computation.
  assert (mkFile "good.json" false (Some (session_text good_session)) false
            ∈ legacy_files) as Hin by left.
  assert (importable (mkFile "good.json" false
                        (Some (session_text good_session)) false) = true)
    as Himp by by_computation.
  assert (file_session (mkFile "good.json" false
                          (Some (session_text good_session)) false)
          = Some good_session) as Hsess by by_computation.
  destruct (C6_second_run_changes_nothing legacy legacy_files
              Hq Hdb eq_refl Hnd legacy_roundtrip)
    as (w1 & files1 & w2 & Hrun & _ & Himported & _ & _ & _ & Hfree & _).
  destruct (Himported _ good_session Hin Himp Hsess) as (_ & _ & Hread).
  destruct (Hread legacy_good_unique eq_refl) as [Hhist _].
  destruct (Hfree Hrf) as [_ Hagain].
  rewrite Hcount in Hrun.
  split; [exact Hq|]. split; [exact Hdb|]. split; [reflexivity|].
  split; [exact Hnd|]. split; [exact legacy_roundtrip|]. split; [exact Hrf|].
  exists w1. split; [exact Hrun|]. split; [exact Hhist|exact Hagain].
Defined.

Lemma C7_witness :
  w_fs legacy = DirOf legacy_files ∧
  quiet legacy ∧
  NoDup (f_name <$> legacy_files) ∧
  sessions_roundtrip legacy_files ∧
  entry_importable legacy_files (mkDirEntry "bad.json" false) = false ∧
  migrate_entry 7 (mkDirEntry "bad.json" false) legacy = (Ok 7%Z, legacy) ∧
  ∃ w',
    MigrateFromJSON legacy = (Ok 2%Z, w') ∧
    has_session "good" (w_db w') = true ∧
    GetHistory "good" w'
    = (Ok (slice_of [mkMessage "user" "ok" [] EmptyString]), w') ∧
    GetSummary "good" w' = (Ok EmptyString, w').
Proof.
  assert (quiet legacy) as Hq by (split; reflexivity).
  assert (NoDup (f_name <$> legacy_files)) as Hnd by by_decision.
  assert (entry_importable legacy_files (mkDirEntry "bad.json" false) = false)
    as Hbad by by_computation.
  assert (Z.of_nat (length (filter (λ f, importable f = true) legacy_files))
          = 2%Z) as Hcount by by_computation.
  assert (mkFile "good.json" false (Some (session_text good_session)) false
            ∈ legacy_files) as Hin by left.
  assert (importable (mkFile "good.json" false
                        (Some (session_text good_session)) false) = true)
    as Himp by by_computation.
  assert (file_session (mkFile "good.json" false
                          (Some (session_text good_session)) false)
          = Some good_session) as Hsess by by_computation.
  destruct (C7_migration_fail_soft legacy legacy_files eq_refl)
    as (_ & Hskip & Hall & _).
  destruct (Hall Hq Hnd legacy_roundtrip) as (w' & Hrun & Himported).
  destruct (Himported _ good_session Hin Himp Hsess) as (Hhas & _ & Hread).
  destruct (Hread legacy_good_unique eq_refl) as (Hhist & _ & Hsum).
  rewrite Hcount in Hrun.
  split; [reflexivity|]. split; [exact Hq|]. split; [exact Hnd|].
  split; [exact legacy_roundtrip|]. split; [exact Hbad|].
  split; [exact (Hskip 7%Z _ Hbad)|]. exists w'.
  split; [exact Hrun|]. split; [exact Hhas|]. split; [exact Hhist|].
  exact (Hsum eq_refl).
Defined.

(** C5, the sentence of the specification on a concrete message: the
    identifier of its call holds the byte 255, which is part of no UTF-8
    encoding; the message is stored, and what is read back carries another
    identifier, with U+FFFD in the place of that byte. *)
Lemma C5_invalid_byte_read_back_changed :
  ToolCalls garbled ≠ [] ∧
  ∃ w1 back,
    AddFullMessage "s1" garbled greeted = (Ok tt, w1) ∧
    GetHistory "s1" w1 = (Ok (slice_of [hello; back]), w1) ∧
    tc_ID <$> ToolCalls garbled = [String (chr 255) "call_3"] ∧
    tc_ID <$> ToolCalls back = [replacement +:+ "call_3"] ∧
    ToolCalls back ≠ ToolCalls garbled.
Proof.
  split; [discriminate|].
  exists (snd (AddFullMessage "s1" garbled greeted)),
         (mkMessage "assistant" "Searching..."
            [coerce_tool_call garbled_call] EmptyString).
  split; [by_computation|]. split; [by_computation|].
  split; [by_computation|]. split; [by_computation|].
  intros Heq. vm_compute in Heq. discriminate Heq.
Qed.

(** C6, the sentence of the specification on a concrete directory: the
    only file is imported by the first run and its rename fails; the second
    run finds it again, changes nothing in the store and returns 1, not
    0. *)
Lemma C6_second_run_counts_again :
  ∃ w1 w2,
    MigrateFromJSON pinned = (Ok 1%Z, w1) ∧
    w_fs w1 = DirOf pinned_files ∧
    GetHistory "good" w1
    = (Ok (slice_of [mkMessage "user" "ok" [] EmptyString]), w1) ∧
    MigrateFromJSON w1 = (Ok 1%Z, w2) ∧
    w_db w2 = w_db w1.
Proof.
  exists (snd (MigrateFromJSON pinned)),
         (snd (MigrateFromJSON (snd (MigrateFromJSON pinned)))).
  split; [by_computation|]. split; [by_computation|].
  split; [by_computation|]. split; by_computation.
Qed.

(** C2, the sentence of the specification on a concrete directory: the only
    file is imported, its rename fails, and it is counted all the same. *)
Lemma C2_counted_without_rename :
  ∃ w1 w',
    importSession good_session pinned = (Ok tt, w1) ∧
    os_Rename "good.json" ("good.json" +:+ ".migrated") w1 = (Err ErrIO, w1) ∧
    migrate_entry 0 (mkDirEntry "good.json" false) pinned = (Ok 1%Z, w') ∧
    MigrateFromJSON pinned = (Ok 1%Z, w') ∧
    w_fs w' = DirOf pinned_files.
Proof.
  exists (snd (importSession good_session pinned)),
         (snd (MigrateFromJSON pinned)).
  split; [by_computation|]. split; [by_computation|].
  split; [by_computation|]. split; by_computation.
Qed.

End OnSamples.

(** * The further properties on the sample states *)

Section OnMoreSamples.
Import GoJSON Samples MoreSamples.

Ltac roundtrip :=
  first [ left; reflexivity
        | right; eexists; split_and!;
          [vm_compute; reflexivity|discriminate|vm_compute; reflexivity] ].

Ltac roundtrips :=
  repeat match goal with
         | |- Forall _ (_ :: _) => constructor; [roundtrip|]
         | |- Forall _ [] => constructor
         end.

Ltac by_computation := vm_compute; reflexivity.

Ltac by_decision := apply (bool_decide_unpack _); vm_compute; exact I.

Lemma store_keeps_schema_witness :
  w_tx flaky = None ∧
  db_consistent (w_db flaky) ∧
  db_consistent (w_db (snd (SetHistory "s1" [hi] flaky))).
Proof.
  assert (w_tx flaky = None) as Htx by by_computation.
  assert (db_consistent (w_db flaky)) as Hdb by by_decision.
  split; [exact Htx|]. split; [exact Hdb|].
  destruct (store_keeps_schema flaky (snd (SetHistory "s1" [hi] flaky)) Htx Hdb)
    as (_ & _ & _ & _ & Hset).
  apply (Hset "s1" [hi] (fst (SetHistory "s1" [hi] flaky))).
  apply surjective_pairing.
Defined.

Lemma importer_keeps_schema_witness :
  w_tx legacy = None ∧
  db_consistent (w_db legacy) ∧
  db_consistent (w_db (snd (MigrateFromJSON legacy))).
Proof.
  assert (w_tx legacy = None) as Htx by reflexivity.
  assert (db_consistent (w_db legacy)) as Hdb by by_decision.
  split; [exact Htx|]. split; [exact Hdb|].
  destruct (importer_keeps_schema legacy (snd (MigrateFromJSON legacy)) Htx Hdb)
    as (_ & Hrun).
  apply (Hrun (fst (MigrateFromJSON legacy))).
  apply surjective_pairing.
Defined.

Lemma other_sessions_untouched_witness :
  w_tx flaky = None ∧
  "s1" ≠ "s2" ∧
  messages_of "s1" (w_db (snd (AddFullMessage "s2" hi flaky)))
  = messages_of "s1" (w_db flaky).
Proof.
  assert (w_tx flaky = None) as Htx by by_computation.
  assert ("s1" ≠ "s2") as Hne by (intros Heq; discriminate Heq).
  split; [exact Htx|]. split; [exact Hne|].
  destruct (other_sessions_untouched "s2" "s1" flaky
              (snd (AddFullMessage "s2" hi flaky)) Htx Hne) as (Hadd & _).
  apply (Hadd hi (fst (AddFullMessage "s2" hi flaky))).
  apply surjective_pairing.
Defined.

Lemma summaries_and_creation_kept_witness :
  w_tx chatted = None ∧
  summary_of "s1" (w_db (snd (TruncateHistory "s1" 0 chatted)))
  = summary_of "s1" (w_db chatted).
Proof.
  assert (w_tx chatted = None) as Htx by by_computation.
  split; [exact Htx|].
  destruct (summaries_and_creation_kept "s1" "s1" chatted
              (snd (TruncateHistory "s1" 0 chatted)) Htx) as (_ & Htrunc & _).
  apply (Htrunc 0%Z (fst (TruncateHistory "s1" 0 chatted))).
  apply surjective_pairing.
Defined.

Lemma SetSummary_then_GetSummary_witness :
  quiet chatted ∧
  ∃ w1,
    SetSummary "s1" "A chat." chatted = (Ok tt, w1) ∧
    GetSummary "s1" w1 = (Ok "A chat.", w1) ∧
    messages (w_db w1) = messages (w_db chatted).
Proof.
  assert (quiet chatted) as Hq by (split; by_computation).
  destruct (SetSummary_then_GetSummary "s1" "A chat." chatted Hq)
    as (w1 & Hrun & Hget & Hm & _).
  split; [exact Hq|]. exists w1.
  split; [exact Hrun|]. split; [exact Hget|exact Hm].
Defined.

Lemma GetHistory_fails_on_corrupt_row_witness :
  w_faults corrupted = [] ∧
  ∃ e, GetHistory "s1" corrupted = (Err e, corrupted).
Proof.
  assert (w_faults corrupted = []) as Hf by reflexivity.
  split; [exact Hf|].
  destruct (GetHistory_fails_on_corrupt_row (ToolCall:=ToolCall) "s1" corrupted Hf)
    as [[_ Hfails] _].
  apply Hfails. exists corrupt_row, "{oops".
  split; [left|]. split; [reflexivity|].
  split; [intros Heq; discriminate Heq|by_computation].
Defined.

Lemma writers_all_or_nothing_witness :
  w_tx flaky = None ∧
  is_ok (fst (TruncateHistory "s1" 1 flaky)) = false ∧
  w_db (snd (TruncateHistory "s1" 1 flaky)) = w_db flaky.
Proof.
  assert (w_tx flaky = None) as Htx by by_computation.
  assert (is_ok (fst (TruncateHistory "s1" 1 flaky)) = false) as Hfail
    by by_computation.
  split; [exact Htx|]. split; [exact Hfail|].
  destruct (writers_all_or_nothing (ToolCall:=ToolCall) "s1" flaky
              (snd (TruncateHistory "s1" 1 flaky)) Htx) as (_ & Htrunc & _).
  destruct (Htrunc 1%Z (fst (TruncateHistory "s1" 1 flaky))
              (surjective_pairing _)) as [_ Hsame].
  exact (Hsame Hfail).
Defined.

Lemma AddMessage_appends_plain_witness :
  quiet chatted ∧
  db_consistent (w_db chatted) ∧
  seq_room "s1" (w_db chatted) ∧
  GetHistory "s1" chatted = (Ok (slice_of [hello; searching; found]), chatted) ∧
  ∃ w1,
    AddMessage (ToolCall:=ToolCall) "s1" "user" "thanks" chatted = (Ok tt, w1) ∧
    GetHistory "s1" w1
    = (Ok (slice_of ([hello; searching; found] ++
                       [mkMessage "user" "thanks" [] EmptyString])), w1).
Proof.
  assert (quiet chatted) as Hq by (split; by_computation).
  assert (db_consistent (w_db chatted)) as Hdb by by_decision.
  assert (seq_room "s1" (w_db chatted)) as Hroom by by_decision.
  assert (GetHistory "s1" chatted
          = (Ok (slice_of [hello; searching; found]), chatted)) as Hh
    by by_computation.
  destruct (AddMessage_appends_plain "s1" "user" "thanks" chatted chatted
              [hello; searching; found] Hq Hdb Hroom Hh)
    as (w1 & Hrun & Hget & _).
  split; [exact Hq|]. split; [exact Hdb|]. split; [exact Hroom|].
  split; [exact Hh|]. exists w1. split; [exact Hrun|exact Hget].
Defined.

Lemma TruncateHistory_twice_witness :
  quiet chatted ∧
  db_consistent (w_db chatted) ∧
  ∃ w1 w2,
    TruncateHistory "s1" 2 chatted = (Ok tt, w1) ∧
    TruncateHistory "s1" 1 w1 = (Ok tt, w2) ∧
    select_messages "s1" (w_db w2)
    = last_n (keep_count 2 `min` keep_count 1)
        (select_messages "s1" (w_db chatted)).
Proof.
  assert (quiet chatted) as Hq by (split; by_computation).
  assert (db_consistent (w_db chatted)) as Hdb by by_decision.
  destruct (TruncateHistory_twice "s1" 2 1 chatted Hq Hdb)
    as (w1 & w2 & Hrun1 & Hrun2 & Hrows & _).
  split; [exact Hq|]. split; [exact Hdb|]. exists w1, w2.
  split; [exact Hrun1|]. split; [exact Hrun2|exact Hrows].
Defined.

Lemma numbering_after_truncation_witness :
  quiet chatted ∧
  db_consistent (w_db chatted) ∧
  ∃ w1,
    TruncateHistory "s1" 1 chatted = (Ok tt, w1) ∧
    nextSeq "s1" w1 = (Ok (next_seq_of "s1" (w_db chatted)), w1).
Proof.
  assert (quiet chatted) as Hq by (split; by_computation).
  assert (db_consistent (w_db chatted)) as Hdb by by_decision.
  destruct (numbering_after_truncation "s1" 1 chatted Hq Hdb)
    as (w1 & Hrun & Hkeep & _).
  split; [exact Hq|]. split; [exact Hdb|]. exists w1.
  split; [exact Hrun|]. apply Hkeep. reflexivity.
Defined.

Lemma importSession_session_row_witness :
  w_tx fresh = None ∧
  session_of (Key tools_session) (w_db fresh) = None ∧
  w_faults fresh = [] ∧
  session_of (Key tools_session) (w_db (snd (importSession tools_session fresh)))
  = Some (mkSessionRow (Key tools_session) (Summary tools_session)
            (Created tools_session) (Updated tools_session)).
Proof.
  assert (Forall (λ m, json_roundtrips (ToolCalls m)) (Messages tools_session))
    as Hrt by (cbn [Messages tools_session]; roundtrips).
  split; [reflexivity|]. split; [reflexivity|]. split; [reflexivity|].
  destruct (importSession_session_row tools_session fresh
              (snd (importSession tools_session fresh))
              (fst (importSession tools_session fresh))
              eq_refl (surjective_pairing _)) as (_ & _ & Hquiet).
  destruct (Hquiet eq_refl Hrt) as [_ Hrow].
  apply Hrow. reflexivity.
Defined.

Lemma legacy_sessions_roundtrip : sessions_roundtrip legacy_files.
Proof.
  intros f sess Hf Hs. unfold legacy_files in Hf.
  repeat (apply elem_of_cons in Hf as [->|Hf]);
    [..|by apply elem_of_nil in Hf];
    vm_compute in Hs; try discriminate Hs;
    injection Hs as <-; cbn [Messages]; roundtrips.
Qed.

Lemma legacy_keys_not_names (f : File) (sess : jsonSession ToolCall) :
  f ∈ legacy_files → importable f = true → file_session f = Some sess →
  Key sess ≠ "telegram_123".
Proof.
  intros Hf Hi Hs. unfold legacy_files in Hf.
  repeat (apply elem_of_cons in Hf as [->|Hf]);
    [..|by apply elem_of_nil in Hf];
    vm_compute in Hs; try discriminate Hs;
    injection Hs as <-; cbn [Key]; intros Heq; discriminate Heq.
Qed.

Lemma legacy_key_unique (g : File) (other : jsonSession ToolCall) :
  g ∈ legacy_files → importable g = true → file_session g = Some other →
  Key other = Key tools_session → g = telegram_file.
Proof.
  intros Hg Hi Hs Hk. unfold legacy_files in Hg.
  repeat (apply elem_of_cons in Hg as [->|Hg]);
    [..|by apply elem_of_nil in Hg];
    vm_compute in Hi; try discriminate Hi;
    vm_compute in Hs; try discriminate Hs;
    injection Hs as <-; vm_compute in Hk; try discriminate Hk; reflexivity.
Qed.

Lemma importer_leaves_unnamed_sessions_witness :
  quiet legacy ∧
  w_fs legacy = DirOf legacy_files ∧
  NoDup (f_name <$> legacy_files) ∧
  sessions_roundtrip legacy_files ∧
  ∃ n w',
    MigrateFromJSON legacy = (Ok n, w') ∧
    messages_of "telegram_123" (w_db w')
    = messages_of "telegram_123" (w_db legacy).
Proof.
  assert (quiet legacy) as Hq by (split; reflexivity).
  assert (NoDup (f_name <$> legacy_files)) as Hnd by by_decision.
  destruct (importer_leaves_unnamed_sessions "telegram_123" legacy legacy_files
              Hq eq_refl Hnd legacy_sessions_roundtrip legacy_keys_not_names)
    as (n & w' & Hrun & Hm & _).
  split; [exact Hq|]. split; [reflexivity|]. split; [exact Hnd|].
  split; [exact legacy_sessions_roundtrip|]. exists n, w'.
  split; [exact Hrun|exact Hm].
Defined.

Lemma importer_stores_under_key_witness :
  quiet legacy ∧
  w_fs legacy = DirOf legacy_files ∧
  NoDup (f_name <$> legacy_files) ∧
  sessions_roundtrip legacy_files ∧
  telegram_file ∈ legacy_files ∧
  importable telegram_file = true ∧
  file_session telegram_file = Some tools_session ∧
  messages_of (Key tools_session) (w_db legacy) = [] ∧
  ∃ n w',
    MigrateFromJSON legacy = (Ok n, w') ∧
    GetHistory (Key tools_session) w'
    = (Ok (slice_of (Messages tools_session)), w') ∧
    GetSummary (Key tools_session) w' = (Ok (Summary tools_session), w').
Proof.
  assert (quiet legacy) as Hq by (split; reflexivity).
  assert (NoDup (f_name <$> legacy_files)) as Hnd by by_decision.
  assert (telegram_file ∈ legacy_files) as Hin by (do 2 right; left).
  assert (importable telegram_file = true) as Himp by by_computation.
  assert (file_session telegram_file = Some tools_session) as Hsess
    by by_computation.
  assert (messages_of (Key tools_session) (w_db legacy) = []) as Hempty
    by reflexivity.
  destruct (importer_stores_under_key legacy legacy_files telegram_file
              tools_session Hq eq_refl Hnd legacy_sessions_roundtrip Hin Himp
              Hsess legacy_key_unique Hempty)
    as (n & w' & Hrun & Hget & _ & Hsum).
  split; [exact Hq|]. split; [reflexivity|]. split; [exact Hnd|].
  split; [exact legacy_sessions_roundtrip|]. split; [exact Hin|].
  split; [exact Himp|]. split; [exact Hsess|]. split; [exact Hempty|].
  exists n, w'. split; [exact Hrun|]. split; [exact Hget|].
  apply Hsum. reflexivity.
Defined.

Lemma writers_stamp_session_witness :
  quiet chatted ∧
  seq_room "s1" (w_db chatted) ∧
  ∃ w1,
    TruncateHistory "s1" 1 chatted = (Ok tt, w1) ∧
    session_of "s1" (w_db w1)
    = (λ s, mkSessionRow "s1" (s_summary s) (s_created_at s)
              (w_clock chatted (w_ticks chatted)))
        <$> session_of "s1" (w_db chatted).
Proof.
  assert (quiet chatted) as Hq by (split; by_computation).
  assert (seq_room "s1" (w_db chatted)) as Hroom by by_decision.
  destruct (writers_stamp_session (ToolCall:=ToolCall) "s1" chatted Hq Hroom)
    as (_ & Htrunc & _).
  destruct (Htrunc 1%Z) as (w1 & Hrun & Hrow).
  split; [exact Hq|]. split; [exact Hroom|]. exists w1.
  split; [exact Hrun|exact Hrow].
Defined.

Lemma migrate_entry_counts_duplicate_witness :
  quiet reimport ∧
  db_consistent (w_db reimport) ∧
  w_fs reimport = DirOf legacy_files ∧
  find_file "telegram_123.json" legacy_files = Some telegram_file ∧
  file_session telegram_file = Some tools_session ∧
  messages_of (Key tools_session) (w_db reimport) ≠ [] ∧
  ∃ w',
    migrate_entry 0 (mkDirEntry "telegram_123.json" false) reimport
    = (Ok (0 + 1)%Z, w') ∧
    w_db w' = w_db reimport.
Proof.
  assert (quiet reimport) as Hq by (split; by_computation).
  assert (db_consistent (w_db reimport)) as Hdb by by_decision.
  assert (w_fs reimport = DirOf legacy_files) as Hfs by reflexivity.
  assert (find_file "telegram_123.json" legacy_files = Some telegram_file)
    as Hfind by by_computation.
  assert (file_session telegram_file = Some tools_session) as Hsess
    by by_computation.
  assert (messages_of (Key tools_session) (w_db reimport) ≠ []) as Hfull
    by (vm_compute; intros Heq; discriminate Heq).
  destruct (migrate_entry_counts_duplicate 0 (mkDirEntry "telegram_123.json" false)
              reimport legacy_files telegram_file tools_session
              Hq Hdb Hfs eq_refl eq_refl Hfind Hsess Hfull)
    as (w' & Hrun & Hsame & _).
  split; [exact Hq|]. split; [exact Hdb|]. split; [exact Hfs|].
  split; [exact Hfind|]. split; [exact Hsess|]. split; [exact Hfull|].
  exists w'. split; [exact Hrun|exact Hsame].
Defined.

End OnMoreSamples.
